(** * Change detection of the inFlow Inventory trigger node

    A shallow embedding of [nodes/InFlowInventory/InFlowInventoryTrigger.node.ts]
    (with the one function of [transport/index.ts] it calls), and the
    properties of its polling cycle.

    Conventions of the embedding.
    - The workflow static data ([webhookData]) is a record with one optional
      field per key the trigger reads or writes; [None] is JavaScript's
      [undefined].
    - A fetched record ([IDataObject]) is a record of the fields the trigger
      reads, typed as the source casts them.  Quantities are JavaScript
      numbers: binary64 floating-point values.
    - [async] functions are computations in the monad [Async]: they thread
      the static data and the list of requests sent, and either resolve or
      reject.  The static data is one shared object: every function that
      receives [webhookData] or calls [getWorkflowStaticData] acts on it.
    - An object literal used as a dictionary is the finite map of its own
      properties.  Reading a key that is not an own property falls back on
      [Object.prototype], as in JavaScript, and assigning a string or a
      number to the key [__proto__] changes nothing.
    - How the engine reads a date from a string is a parameter of the
      trigger ([Date_valueOf]). *)

From stdpp Require Import gmap strings list fin_maps.
From Stdlib Require Import ZArith Ascii PrimFloat.

Local Open Scope string_scope.
Local Open Scope Z_scope.
Local Open Scope stdpp_scope.
Local Open Scope list_scope.

(** ** Fetched records and emitted events *)

(** A raw record of a response array.  [entityId] is present on every entity
    ([IInFlowEntity]); [status] and [updatedAt] may be missing; [productId],
    [quantityOnHand] and [product] are the fields read from a row of the
    inventory summary report. *)
Record IDataObject := mkItem {
  entityId : string;
  status : option string;
  updatedAt : option string;
  productId : string;
  quantityOnHand : float;
  product : option string;
}.

(** ** Objects used as dictionaries *)

(** The names of the members of [Object.prototype], which every object
    literal inherits: eleven functions and the accessor [__proto__]. *)
Definition Object_prototype : list string :=
  [ "constructor"; "__defineGetter__"; "__defineSetter__"; "hasOwnProperty";
    "__lookupGetter__"; "__lookupSetter__"; "isPrototypeOf";
    "propertyIsEnumerable"; "toString"; "valueOf"; "__proto__";
    "toLocaleString" ].

(** What [obj[key]] evaluates to on such an object: the value of the own
    property [key]; else the member of [Object.prototype] of that name, which
    is a function or, for [__proto__], the prototype object itself; else
    [undefined]. *)
Inductive Property (A : Type) :=
  | Own (value : A)
  | Inherited (name : string)
  | Undefined.
Arguments Own {A} value.
Arguments Inherited {A} name.
Arguments Undefined {A}.

(** The [data] of an emitted event: the record itself, or the payload that
    [pollInventoryChanges] derives from a report row. *)
Inductive EventData :=
  | DataRecord (r : IDataObject)
  | DataInventory (product : option string) (productId : string)
                  (previousQuantity : Property float)
                  (currentQuantity change : float).

(** [{ json: { event, data } }] *)
Record INodeExecutionData := mkExec {
  json_event : string;
  json_data : EventData;
}.

(** ** The workflow static data *)

Record StaticData := mkStatic {
  lastPollTime : option string;
  knownIds : option (list string);
  salesOrderIds : option (list string);
  salesOrderStatuses : option (gmap string (option string));
  purchaseOrderIds : option (list string);
  purchaseOrderStatuses : option (gmap string (option string));
  stockAdjustmentIds : option (list string);
  stockTransferStatuses : option (gmap string (option string));
  inventorySnapshot : option (gmap string float);
}.

(** The static data of a job that never ran. *)
Definition emptyStatic : StaticData :=
  mkStatic None None None None None None None None None.

Definition set_lastPollTime (v : string) (d : StaticData) : StaticData :=
  mkStatic (Some v) (knownIds d) (salesOrderIds d) (salesOrderStatuses d)
    (purchaseOrderIds d) (purchaseOrderStatuses d) (stockAdjustmentIds d)
    (stockTransferStatuses d) (inventorySnapshot d).

Definition set_knownIds (v : list string) (d : StaticData) : StaticData :=
  mkStatic (lastPollTime d) (Some v) (salesOrderIds d) (salesOrderStatuses d)
    (purchaseOrderIds d) (purchaseOrderStatuses d) (stockAdjustmentIds d)
    (stockTransferStatuses d) (inventorySnapshot d).

Definition set_salesOrderIds (v : list string) (d : StaticData) : StaticData :=
  mkStatic (lastPollTime d) (knownIds d) (Some v) (salesOrderStatuses d)
    (purchaseOrderIds d) (purchaseOrderStatuses d) (stockAdjustmentIds d)
    (stockTransferStatuses d) (inventorySnapshot d).

Definition set_salesOrderStatuses (v : gmap string (option string))
    (d : StaticData) : StaticData :=
  mkStatic (lastPollTime d) (knownIds d) (salesOrderIds d) (Some v)
    (purchaseOrderIds d) (purchaseOrderStatuses d) (stockAdjustmentIds d)
    (stockTransferStatuses d) (inventorySnapshot d).

Definition set_purchaseOrderIds (v : list string) (d : StaticData) : StaticData :=
  mkStatic (lastPollTime d) (knownIds d) (salesOrderIds d) (salesOrderStatuses d)
    (Some v) (purchaseOrderStatuses d) (stockAdjustmentIds d)
    (stockTransferStatuses d) (inventorySnapshot d).

Definition set_purchaseOrderStatuses (v : gmap string (option string))
    (d : StaticData) : StaticData :=
  mkStatic (lastPollTime d) (knownIds d) (salesOrderIds d) (salesOrderStatuses d)
    (purchaseOrderIds d) (Some v) (stockAdjustmentIds d)
    (stockTransferStatuses d) (inventorySnapshot d).

Definition set_stockAdjustmentIds (v : list string) (d : StaticData) : StaticData :=
  mkStatic (lastPollTime d) (knownIds d) (salesOrderIds d) (salesOrderStatuses d)
    (purchaseOrderIds d) (purchaseOrderStatuses d) (Some v)
    (stockTransferStatuses d) (inventorySnapshot d).

Definition set_stockTransferStatuses (v : gmap string (option string))
    (d : StaticData) : StaticData :=
  mkStatic (lastPollTime d) (knownIds d) (salesOrderIds d) (salesOrderStatuses d)
    (purchaseOrderIds d) (purchaseOrderStatuses d) (stockAdjustmentIds d)
    (Some v) (inventorySnapshot d).

Definition set_inventorySnapshot (v : gmap string float) (d : StaticData)
    : StaticData :=
  mkStatic (lastPollTime d) (knownIds d) (salesOrderIds d) (salesOrderStatuses d)
    (purchaseOrderIds d) (purchaseOrderStatuses d) (stockAdjustmentIds d)
    (stockTransferStatuses d) (Some v).

(** ** Requests, responses and the host *)

Inductive QueryValue := QNum (n : Z) | QStr (s : string).

#[global] Instance QueryValue_eq_dec : EqDecision QueryValue.
Proof. solve_decision. Defined.

(** The [IRequestOptions] that [inFlowApiRequest] hands to
    [helpers.request]: [body] and [qs] are set only when non-empty. *)
Record IRequestOptions := mkRequest {
  method : string;
  endpoint : string;
  body : option (list (string * QueryValue));
  qs : option (list (string * QueryValue));
}.

#[global] Instance IRequestOptions_eq_dec : EqDecision IRequestOptions.
Proof. solve_decision. Defined.

(** What the remote service answers: a JSON array of records, or some other
    JSON value (kept as its text). *)
Inductive Json :=
  | JArray (items : list IDataObject)
  | JOther (text : string).

Inductive Response :=
  | Fails (message : string)
  | Answers (v : Json).

(** The options collection of the node: [locationId] and [categoryId]. *)
Record Options := mkOptions {
  locationId : option string;
  categoryId : option string;
}.

(** The [IPollFunctions] context of one invocation: the node parameters, the
    HTTP helper, and the clock read by [new Date()]. *)
Record IPollFunctions := mkContext {
  param_event : string;
  param_options : Options;
  helpers_request : IRequestOptions → Response;
  now_toISOString : string;
}.

(** ** Asynchronous computations *)

Inductive Outcome (A : Type) :=
  | Resolved (a : A)
  | Rejected (error : string).
Arguments Resolved {A} a.
Arguments Rejected {A} error.

Record World := mkWorld {
  static : StaticData;
  sent : list IRequestOptions;
}.

Definition Async (A : Type) : Type := World → Outcome A * World.

#[global] Instance Async_ret : MRet Async := λ A a w, (Resolved a, w).

#[global] Instance Async_bind : MBind Async := λ A B k m w,
  match m w with
  | (Resolved a, w') => k a w'
  | (Rejected e, w') => (Rejected e, w')
  end.

(** [try { m } catch { h }] *)
Definition try_catch {A} (m : Async A) (h : string → Async A) : Async A := λ w,
  match m w with
  | (Resolved a, w') => (Resolved a, w')
  | (Rejected e, w') => h e w'
  end.

Definition getWorkflowStaticData : Async StaticData := λ w, (Resolved (static w), w).

Definition update (f : StaticData → StaticData) : Async unit := λ w,
  (Resolved tt, mkWorld (f (static w)) (sent w)).

Definition request (context : IPollFunctions) (options : IRequestOptions)
    : Async Json := λ w,
  let w' := mkWorld (static w) (sent w ++ [options]) in
  match helpers_request context options with
  | Answers v => (Resolved v, w')
  | Fails message => (Rejected message, w')
  end.

(** ** JavaScript primitives used by the trigger *)

(** Truthiness of a value that is a string or [undefined]. *)
Definition truthy (v : option string) : bool :=
  match v with
  | Some s => negb (String.eqb s "")
  | None => false
  end.

(** [v === s] for [v] a string or [undefined]. *)
Definition strict_eq (v : option string) (s : string) : bool :=
  match v with
  | Some s' => String.eqb s' s
  | None => false
  end.

(** [ids.includes(id)] *)
Definition includes (ids : list string) (id : string) : bool :=
  existsb (String.eqb id) ids.

(** [obj[key]] on an object used as a dictionary. *)
Definition prop {A} (obj : gmap string A) (key : string) : Property A :=
  match obj !! key with
  | Some value => Own value
  | None => if includes Object_prototype key then Inherited key else Undefined
  end.

(** [obj[key] = value] on an object literal used as a dictionary, for a
    [value] that is a string, a number or [undefined]: the setter of
    [__proto__] ignores such a value, and every other key becomes an own
    property. *)
Definition assign {A} (obj : gmap string A) (key : string) (value : A)
    : gmap string A :=
  if String.eqb key "__proto__" then obj else <[key := value]> obj.

(** Truthiness of what a dictionary of statuses gives: a function and an
    object are truthy. *)
Definition truthy_property (p : Property (option string)) : bool :=
  match p with
  | Own v => truthy v
  | Inherited _ => true
  | Undefined => false
  end.

(** [p === s] for what a dictionary of statuses gives. *)
Definition property_eq (p : Property (option string)) (s : string) : bool :=
  match p with
  | Own v => strict_eq v s
  | Inherited _ | Undefined => false
  end.

(** [p !== undefined] for what a dictionary of numbers gives. *)
Definition not_undefined (p : Property float) : bool :=
  match p with
  | Own _ | Inherited _ => true
  | Undefined => false
  end.

(** [p !== quantity] for a number [quantity]: numbers are compared as IEEE 754
    does, and a function or an object is never equal to a number. *)
Definition differs (p : Property float) (quantity : float) : bool :=
  match p with
  | Own previous => negb (PrimFloat.eqb previous quantity)
  | Inherited _ | Undefined => true
  end.

(** [quantity - p]: a function, an object and [undefined] convert to NaN. *)
Definition minus (quantity : float) (p : Property float) : float :=
  match p with
  | Own previous => PrimFloat.sub quantity previous
  | Inherited _ | Undefined => nan
  end.

(** The text of a member of [Object.prototype] in a template literal, as the
    engine of Node.js writes it. *)
Definition Object_prototype_text (name : string) : string :=
  if String.eqb name "__proto__" then "[object Object]"
  else "function "
       +:+ (if String.eqb name "constructor" then "Object" else name)
       +:+ "() { [native code] }".

(** [s.split('.')] *)
Fixpoint split_dot (s : string) : list string :=
  match s with
  | EmptyString => [EmptyString]
  | String c rest =>
      if Ascii.eqb c "."%char then EmptyString :: split_dot rest
      else match split_dot rest with
           | first :: others => String c first :: others
           | [] => [String c EmptyString]
           end
  end.

(** ** The trigger *)

Section Trigger.

(** [new Date(s).valueOf()]: the milliseconds since the epoch that the
    JavaScript engine reads from [s], or [None] for an invalid date (NaN).
    The development holds for any such reading. *)
Variable Date_valueOf : string → option Z.

(** [new Date(a) > new Date(b)]: both sides are converted to numbers, and a
    comparison with NaN is false. *)
Definition date_gt (a b : string) : bool :=
  match Date_valueOf a, Date_valueOf b with
  | Some x, Some y => Z.ltb y x
  | _, _ => false
  end.

(** [inFlowApiRequest.call(context, method, endpoint, body, query)] of
    [transport/index.ts]: empty [body] and [query] are left out of the
    request; a failure of the HTTP helper is rethrown as a [NodeApiError]. *)
Definition inFlowApiRequest (context : IPollFunctions) (method endpoint : string)
    (body query : list (string * QueryValue)) : Async Json :=
  let options :=
    mkRequest method endpoint
      (if decide (body = []) then None else Some body)
      (if decide (query = []) then None else Some query) in
  try_catch (request context options)
    (λ message _w, (Rejected ("inFlow API Request Failed: " +:+ message), _w)).

(** [endpoints[event] || null]: for an event that is no key of the table but
    names a member of [Object.prototype], the lookup gives that member, which
    is truthy and is written into the URI as its text. *)
Definition getEndpointForEvent (event : string) : option string :=
  if String.eqb event "product.created" then Some "/products"
  else if String.eqb event "product.updated" then Some "/products"
  else if String.eqb event "salesOrder.created" then Some "/salesOrders"
  else if String.eqb event "salesOrder.updated" then Some "/salesOrders"
  else if String.eqb event "salesOrder.fulfilled" then Some "/salesOrders"
  else if String.eqb event "purchaseOrder.created" then Some "/purchaseOrders"
  else if String.eqb event "purchaseOrder.received" then Some "/purchaseOrders"
  else if String.eqb event "stockAdjustment.created" then Some "/stockAdjustments"
  else if String.eqb event "stockTransfer.completed" then Some "/stockTransfers"
  else if includes Object_prototype event then Some (Object_prototype_text event)
  else None.

Definition initializePollingState (context : IPollFunctions) (event : string)
    : Async unit :=
  match getEndpointForEvent event with
  | Some endpoint =>
      try_catch
        (items ← inFlowApiRequest context "GET" endpoint [] [("count", QNum 50)];
         match items with
         | JArray items => update (set_knownIds (map entityId items))
         | JOther _ => mret tt
         end)
        (λ _, update (set_knownIds []))
  | None => mret tt
  end.

Definition emit (event : string) (r : IDataObject) : INodeExecutionData :=
  mkExec event (DataRecord r).

(** The [updatedAt] test shared by the two [updated] branches. *)
Definition updated_since (lastPollTime : string) (r : IDataObject) : bool :=
  match updatedAt r with
  | Some u => truthy (Some u) && date_gt u lastPollTime
  | None => false
  end.

(** One iteration of the [for] loop of [pollProducts] in its [updated] branch. *)
Definition pollProducts_updated_step (lastPollTime : string) (known : list string)
    (returnData : list INodeExecutionData) (product : IDataObject)
    : list INodeExecutionData :=
  if updated_since lastPollTime product then
    if includes known (entityId product)
    then returnData ++ [emit "product.updated" product]
    else returnData
  else returnData.

Definition pollProducts (context : IPollFunctions) (actionType : option string)
    (lastPollTime : string) : Async (list INodeExecutionData) :=
  webhookData ← getWorkflowStaticData;
  let known := default [] (knownIds webhookData) in
  products ← inFlowApiRequest context "GET" "/products" [] [("count", QNum 50)];
  match products with
  | JOther _ => mret []
  | JArray products =>
      let currentIds := map entityId products in
      let returnData :=
        if strict_eq actionType "created" then
          let newProducts :=
            List.filter (λ p, negb (includes known (entityId p))) products in
          fold_left (λ acc p, acc ++ [emit "product.created" p]) newProducts []
        else if strict_eq actionType "updated" then
          fold_left (pollProducts_updated_step lastPollTime known) products []
        else [] in
      update (set_knownIds currentIds);;
      mret returnData
  end.

(** The state of the loop over orders and transfers: the events pushed so
    far and the status dictionary being built. *)
Definition LoopState : Type := list INodeExecutionData * gmap string (option string).

Definition pollSalesOrders_step (actionType : option string) (lastPollTime : string)
    (known : list string) (knownStatuses : gmap string (option string))
    (st : LoopState) (order : IDataObject) : LoopState :=
  let '(returnData, currentStatuses) := st in
  let id := entityId order in
  let currentStatuses := assign currentStatuses id (status order) in
  if strict_eq actionType "created" then
    if negb (includes known id)
    then (returnData ++ [emit "salesOrder.created" order], currentStatuses)
    else (returnData, currentStatuses)
  else if strict_eq actionType "updated" then
    if includes known id then
      if updated_since lastPollTime order
      then (returnData ++ [emit "salesOrder.updated" order], currentStatuses)
      else (returnData, currentStatuses)
    else (returnData, currentStatuses)
  else if strict_eq actionType "fulfilled" then
    if strict_eq (status order) "Fulfilled"
       && truthy_property (prop knownStatuses id)
       && negb (property_eq (prop knownStatuses id) "Fulfilled")
    then (returnData ++ [emit "salesOrder.fulfilled" order], currentStatuses)
    else (returnData, currentStatuses)
  else (returnData, currentStatuses).

Definition pollSalesOrders (context : IPollFunctions) (actionType : option string)
    (lastPollTime : string) : Async (list INodeExecutionData) :=
  webhookData ← getWorkflowStaticData;
  let known := default [] (salesOrderIds webhookData) in
  let knownStatuses := default ∅ (salesOrderStatuses webhookData) in
  orders ← inFlowApiRequest context "GET" "/salesOrders" [] [("count", QNum 50)];
  match orders with
  | JOther _ => mret []
  | JArray orders =>
      let currentIds := map entityId orders in
      let '(returnData, currentStatuses) :=
        fold_left (pollSalesOrders_step actionType lastPollTime known knownStatuses)
          orders ([], ∅) in
      update (set_salesOrderIds currentIds);;
      update (set_salesOrderStatuses currentStatuses);;
      mret returnData
  end.

Definition pollPurchaseOrders_step (actionType : option string)
    (known : list string) (knownStatuses : gmap string (option string))
    (st : LoopState) (order : IDataObject) : LoopState :=
  let '(returnData, currentStatuses) := st in
  let id := entityId order in
  let currentStatuses := assign currentStatuses id (status order) in
  if strict_eq actionType "created" then
    if negb (includes known id)
    then (returnData ++ [emit "purchaseOrder.created" order], currentStatuses)
    else (returnData, currentStatuses)
  else if strict_eq actionType "received" then
    if (strict_eq (status order) "Received"
        || strict_eq (status order) "PartiallyReceived")
       && property_eq (prop knownStatuses id) "Open"
    then (returnData ++ [emit "purchaseOrder.received" order], currentStatuses)
    else (returnData, currentStatuses)
  else (returnData, currentStatuses).

Definition pollPurchaseOrders (context : IPollFunctions) (actionType : option string)
    (lastPollTime : string) : Async (list INodeExecutionData) :=
  webhookData ← getWorkflowStaticData;
  let known := default [] (purchaseOrderIds webhookData) in
  let knownStatuses := default ∅ (purchaseOrderStatuses webhookData) in
  orders ← inFlowApiRequest context "GET" "/purchaseOrders" [] [("count", QNum 50)];
  match orders with
  | JOther _ => mret []
  | JArray orders =>
      let currentIds := map entityId orders in
      let '(returnData, currentStatuses) :=
        fold_left (pollPurchaseOrders_step actionType known knownStatuses)
          orders ([], ∅) in
      update (set_purchaseOrderIds currentIds);;
      update (set_purchaseOrderStatuses currentStatuses);;
      mret returnData
  end.

Definition pollStockAdjustments (context : IPollFunctions)
    : Async (list INodeExecutionData) :=
  webhookData ← getWorkflowStaticData;
  let known := default [] (stockAdjustmentIds webhookData) in
  adjustments ←
    inFlowApiRequest context "GET" "/stockAdjustments" [] [("count", QNum 50)];
  match adjustments with
  | JOther _ => mret []
  | JArray adjustments =>
      let currentIds := map entityId adjustments in
      let newAdjustments :=
        List.filter (λ a, negb (includes known (entityId a))) adjustments in
      let returnData :=
        fold_left (λ acc a, acc ++ [emit "stockAdjustment.created" a])
          newAdjustments [] in
      update (set_stockAdjustmentIds currentIds);;
      mret returnData
  end.

Definition pollStockTransfers_step (actionType : option string)
    (knownStatuses : gmap string (option string))
    (st : LoopState) (transfer : IDataObject) : LoopState :=
  let '(returnData, currentStatuses) := st in
  let id := entityId transfer in
  let currentStatuses := assign currentStatuses id (status transfer) in
  if strict_eq actionType "completed" then
    if strict_eq (status transfer) "Completed"
       && property_eq (prop knownStatuses id) "Open"
    then (returnData ++ [emit "stockTransfer.completed" transfer], currentStatuses)
    else (returnData, currentStatuses)
  else (returnData, currentStatuses).

Definition pollStockTransfers (context : IPollFunctions) (actionType : option string)
    : Async (list INodeExecutionData) :=
  webhookData ← getWorkflowStaticData;
  let knownStatuses := default ∅ (stockTransferStatuses webhookData) in
  transfers ←
    inFlowApiRequest context "GET" "/stockTransfers" [] [("count", QNum 50)];
  match transfers with
  | JOther _ => mret []
  | JArray transfers =>
      let '(returnData, currentStatuses) :=
        fold_left (pollStockTransfers_step actionType knownStatuses)
          transfers ([], ∅) in
      update (set_stockTransferStatuses currentStatuses);;
      mret returnData
  end.

Definition pollInventoryChanges_step (knownInventory : gmap string float)
    (st : list INodeExecutionData * gmap string float) (item : IDataObject)
    : list INodeExecutionData * gmap string float :=
  let '(returnData, currentInventory) := st in
  let pid := productId item in
  let quantity := quantityOnHand item in
  let currentInventory := assign currentInventory pid quantity in
  if not_undefined (prop knownInventory pid)
     && differs (prop knownInventory pid) quantity
  then
    (returnData ++
       [mkExec "inventory.changed"
          (DataInventory (product item) pid (prop knownInventory pid) quantity
             (minus quantity (prop knownInventory pid)))],
     currentInventory)
  else (returnData, currentInventory).

Definition pollInventoryChanges (context : IPollFunctions) (options : Options)
    : Async (list INodeExecutionData) :=
  webhookData ← getWorkflowStaticData;
  let knownInventory := default ∅ (inventorySnapshot webhookData) in
  let query :=
    if truthy (locationId options)
    then match locationId options with
         | Some l => [("locationId", QStr l)]
         | None => []
         end
    else [] in
  inventory ← inFlowApiRequest context "GET" "/reports/inventorySummary" [] query;
  match inventory with
  | JOther _ => mret []
  | JArray inventory =>
      let '(returnData, currentInventory) :=
        fold_left (pollInventoryChanges_step knownInventory) inventory ([], ∅) in
      update (set_inventorySnapshot currentInventory);;
      mret returnData
  end.

Definition detectChanges (context : IPollFunctions) (event : string)
    (options : Options) (lastPollTime : string)
    : Async (list INodeExecutionData) :=
  let parts := split_dot event in
  let resourceType := parts !! 0%nat in
  let actionType := parts !! 1%nat in
  try_catch
    (if strict_eq resourceType "product" then
       pollProducts context actionType lastPollTime
     else if strict_eq resourceType "salesOrder" then
       pollSalesOrders context actionType lastPollTime
     else if strict_eq resourceType "purchaseOrder" then
       pollPurchaseOrders context actionType lastPollTime
     else if strict_eq resourceType "stockAdjustment" then
       pollStockAdjustments context
     else if strict_eq resourceType "stockTransfer" then
       pollStockTransfers context actionType
     else if strict_eq resourceType "inventory" then
       pollInventoryChanges context options
     else mret [])
    (λ _error, mret []).

(** [poll]: [None] is [null], [Some [changes]] is the one-output array. *)
Definition poll (context : IPollFunctions)
    : Async (option (list (list INodeExecutionData))) :=
  let event := param_event context in
  let options := param_options context in
  webhookData ← getWorkflowStaticData;
  let lastPollTime := lastPollTime webhookData in
  update (set_lastPollTime (now_toISOString context));;
  if negb (truthy lastPollTime) then
    initializePollingState context event;;
    mret None
  else
    changes ← detectChanges context event options (default "" lastPollTime);
    if decide (List.length changes = 0%nat) then mret None
    else mret (Some [changes]).

(** *** The tests of the loops, one per watched event *)

Definition is_new (known : list string) (r : IDataObject) : bool :=
  negb (includes known (entityId r)).

Definition product_updated (lastPollTime : string) (known : list string)
    (r : IDataObject) : bool :=
  updated_since lastPollTime r && includes known (entityId r).

Definition salesOrder_updated (lastPollTime : string) (known : list string)
    (r : IDataObject) : bool :=
  includes known (entityId r) && updated_since lastPollTime r.

Definition salesOrder_fulfilled (knownStatuses : gmap string (option string))
    (r : IDataObject) : bool :=
  strict_eq (status r) "Fulfilled"
  && truthy_property (prop knownStatuses (entityId r))
  && negb (property_eq (prop knownStatuses (entityId r)) "Fulfilled").

Definition purchaseOrder_received (knownStatuses : gmap string (option string))
    (r : IDataObject) : bool :=
  (strict_eq (status r) "Received" || strict_eq (status r) "PartiallyReceived")
  && property_eq (prop knownStatuses (entityId r)) "Open".

Definition stockTransfer_completed (knownStatuses : gmap string (option string))
    (r : IDataObject) : bool :=
  strict_eq (status r) "Completed"
  && property_eq (prop knownStatuses (entityId r)) "Open".

Definition inventory_changed (knownInventory : gmap string float) (r : IDataObject)
    : bool :=
  not_undefined (prop knownInventory (productId r))
  && differs (prop knownInventory (productId r)) (quantityOnHand r).

Definition inventory_event (knownInventory : gmap string float) (r : IDataObject)
    : INodeExecutionData :=
  mkExec "inventory.changed"
    (DataInventory (product r) (productId r) (prop knownInventory (productId r))
       (quantityOnHand r)
       (minus (quantityOnHand r) (prop knownInventory (productId r)))).

(** The record carries an [updatedAt] that reads as a date strictly after
    the date [lastPollTime] reads as. *)
Definition updated_after (lastPollTime : string) (r : IDataObject) : Prop :=
  ∃ u t t0, updatedAt r = Some u ∧ u ≠ "" ∧
    Date_valueOf u = Some t ∧ Date_valueOf lastPollTime = Some t0 ∧ t0 < t.

End Trigger.

(** ** Vocabulary of the statements *)

(** The single-page fetch the pollers of entity collections send. *)
Definition page (endpoint : string) : IRequestOptions :=
  mkRequest "GET" endpoint None (Some [("count", QNum 50)]).

(** The report fetch of [pollInventoryChanges]. *)
Definition report (options : Options) : IRequestOptions :=
  mkRequest "GET" "/reports/inventorySummary" None
    (if truthy (locationId options)
     then (λ l, [("locationId", QStr l)]) <$> locationId options
     else None).

(** The events a call of [poll] hands to the scheduler: [null] and the empty
    list are the same to the caller. *)
Definition emitted (r : option (list (list INodeExecutionData)))
    : list INodeExecutionData :=
  List.concat (default [] r).

(** What [poll] returns for the list of changes found. *)
Definition pack (changes : list INodeExecutionData)
    : option (list (list INodeExecutionData)) :=
  if decide (List.length changes = 0%nat) then None else Some [changes].

(** The status dictionary built from a snapshot, in iteration order. *)
Definition statuses_of (l : list IDataObject) : gmap string (option string) :=
  fold_left (λ m r, assign m (entityId r) (status r)) l ∅.

(** The quantity dictionary built from a report, in iteration order. *)
Definition quantities_of (l : list IDataObject) : gmap string float :=
  fold_left (λ m r, assign m (productId r) (quantityOnHand r)) l ∅.

(** The event values offered by the node description. *)
Definition eventOptions : list string :=
  [ "inventory.changed"; "product.created"; "product.updated";
    "purchaseOrder.created"; "purchaseOrder.received"; "salesOrder.created";
    "salesOrder.fulfilled"; "salesOrder.updated"; "stockAdjustment.created";
    "stockTransfer.completed" ].

Definition supported (event : string) : bool := includes eventOptions event.

(** The resource types that [detectChanges] has a case for. *)
Definition handledResources : list string :=
  [ "product"; "salesOrder"; "purchaseOrder"; "stockAdjustment";
    "stockTransfer"; "inventory" ].

Definition resourceType (event : string) : option string := split_dot event !! 0%nat.

Definition handled (event : string) : bool :=
  match resourceType event with
  | Some r => includes handledResources r
  | None => false
  end.

(** The collection a watched event is fetched from. *)
Definition collection (event : string) : string :=
  default "" (getEndpointForEvent event).

(** The known-id set of the checkpoint for the resource of a watched event:
    the key of the static data that the poller of that resource reads and
    replaces. *)
Definition tracked_ids (event : string) (d : StaticData) : list string :=
  let resource := default "" (resourceType event) in
  if String.eqb resource "product" then default [] (knownIds d)
  else if String.eqb resource "salesOrder" then default [] (salesOrderIds d)
  else if String.eqb resource "purchaseOrder" then default [] (purchaseOrderIds d)
  else if String.eqb resource "stockAdjustment" then default [] (stockAdjustmentIds d)
  else [].

(** The status map of the checkpoint for the resource of a watched event. *)
Definition recorded_statuses (event : string) (d : StaticData)
    : gmap string (option string) :=
  let resource := default "" (resourceType event) in
  if String.eqb resource "salesOrder" then default ∅ (salesOrderStatuses d)
  else if String.eqb resource "purchaseOrder" then default ∅ (purchaseOrderStatuses d)
  else if String.eqb resource "stockTransfer" then default ∅ (stockTransferStatuses d)
  else ∅.







(** A computation rejects without touching the static data. *)
Definition rejects_cleanly {A} (m : Async A) (w : World) : Prop :=
  ∃ error requests, m w = (Rejected error, mkWorld (static w) (sent w ++ requests)).

Definition unreachable (context : IPollFunctions) : Prop :=
  ∀ r, ∃ message, helpers_request context r = Fails message.

(** The static data once [poll] has stamped the time of the cycle. *)
Definition stamped (context : IPollFunctions) (w : World) : StaticData :=
  set_lastPollTime (now_toISOString context) (static w).

(** The new status of [r] is "Fulfilled", and what the dictionary gives for
    its id is truthy and is not "Fulfilled": a recorded status that is neither
    empty nor "Fulfilled", or, for an id without recorded status that names a
    member of [Object.prototype], that member. *)
Definition fulfilled_transition (knownStatuses : gmap string (option string))
    (r : IDataObject) : Prop :=
  status r = Some "Fulfilled" ∧
  ((∃ previous, knownStatuses !! entityId r = Some (Some previous) ∧
      previous ≠ "" ∧ previous ≠ "Fulfilled") ∨
   (knownStatuses !! entityId r = None ∧ entityId r ∈ Object_prototype)).

(** ** Sample data for concrete cycles *)

(** A reading of the timestamps that [toISOString] produces
    ([YYYY-MM-DDTHH:mm:ss.sssZ]), on which every engine agrees; any other
    string is read as an invalid date here. *)
Definition digit (c : ascii) : option Z :=
  let n := Z.of_N (N_of_ascii c) - 48 in
  if (0 <=? n) && (n <=? 9) then Some n else None.

Definition number (cs : list ascii) : option Z :=
  fold_left (λ acc c, a ← acc; d ← digit c; Some (10 * a + d)) cs (Some 0).

Definition leap (y : Z) : bool :=
  ((y mod 4 =? 0) && negb (y mod 100 =? 0)) || (y mod 400 =? 0).

Definition days_in_month (y m : Z) : Z :=
  if m =? 2 then (if leap y then 29 else 28)
  else if (m =? 4) || (m =? 6) || (m =? 9) || (m =? 11) then 30
  else 31.

Definition days_from_civil (y m d : Z) : Z :=
  let y' := if m <=? 2 then y - 1 else y in
  let era := y' / 400 in
  let yoe := y' - era * 400 in
  let mp := if 2 <? m then m - 3 else m + 9 in
  let doy := (153 * mp + 2) / 5 + d - 1 in
  let doe := yoe * 365 + yoe / 4 - yoe / 100 + doy in
  era * 146097 + doe - 719468.

Definition iso_valueOf (s : string) : option Z :=
  match String.list_ascii_of_string s with
  | [y1; y2; y3; y4; p1; m1; m2; p2; d1; d2; t; h1; h2; c1; n1; n2; c2; s1; s2;
     dot; f1; f2; f3; z] =>
      if Ascii.eqb p1 "-" && Ascii.eqb p2 "-" && Ascii.eqb t "T"
         && Ascii.eqb c1 ":" && Ascii.eqb c2 ":" && Ascii.eqb dot "."
         && Ascii.eqb z "Z"
      then
        y ← number [y1; y2; y3; y4];
        m ← number [m1; m2];
        d ← number [d1; d2];
        h ← number [h1; h2];
        n ← number [n1; n2];
        sec ← number [s1; s2];
        ms ← number [f1; f2; f3];
        if (1 <=? m) && (m <=? 12) && (1 <=? d) && (d <=? days_in_month y m)
           && (h <=? 23) && (n <=? 59) && (sec <=? 59)
        then Some ((((days_from_civil y m d * 24 + h) * 60 + n) * 60 + sec) * 1000 + ms)
        else None
      else None
  | _ => None
  end.

(** An entity record and a row of the inventory report. *)
Definition entity (id : string) (st updated : option string) : IDataObject :=
  mkItem id st updated "" 0 None.

Definition row (pid : string) (quantity : float) : IDataObject :=
  mkItem "" None None pid quantity (Some pid).

(** A service that answers every request with the same array, and one that
    answers none. *)
Definition answering (items : list IDataObject) : IRequestOptions → Response :=
  λ _, Answers (JArray items).

Definition timing_out : IRequestOptions → Response :=
  λ _, Fails "ETIMEDOUT".

Definition noOptions : Options := mkOptions None None.

(** A checkpoint whose previous cycle ran at ten o'clock. *)
Definition polled_at_ten : StaticData :=
  set_lastPollTime "2024-01-15T10:00:00.000Z" emptyStatic.

Definition five_past_ten : string := "2024-01-15T10:05:00.000Z".
Definition ten_past_ten : string := "2024-01-15T10:10:00.000Z".

Definition watching (event : string) (service : IRequestOptions → Response)
    (now : string) : IPollFunctions :=
  mkContext event noOptions service now.

Definition so1 : IDataObject := entity "so-1" (Some "Open") None.

(** The world after the first cycle of a salesOrder.created watch on a
    collection that holds the order so-1. *)
Definition after_bootstrap : World :=
  (poll iso_valueOf (watching "salesOrder.created" (answering [so1]) five_past_ten)
     (mkWorld emptyStatic [])).2.

Definition bothFilters : Options := mkOptions (Some "loc-1") (Some "cat-1").

Definition p1 : IDataObject := entity "p-1" None None.

Definition one_product_known : StaticData := set_knownIds ["p-1"] polled_at_ten.

Definition fulfilled (id : string) : IDataObject := entity id (Some "Fulfilled") None.

(** so-1 was open, so-2 already fulfilled, so-4 had an empty status, and so-3
    was never seen. *)
Definition sales_checkpoint : StaticData :=
  set_salesOrderStatuses
    (<["so-1" := Some "Open"]>
       (<["so-2" := Some "Fulfilled"]> (<["so-4" := Some ""]> ∅)))
    polled_at_ten.

Definition sales_snapshot : list IDataObject :=
  [fulfilled "so-1"; fulfilled "so-2"; fulfilled "so-3"; fulfilled "so-4"].

Definition product_at (id updated : string) : IDataObject :=
  entity id None (Some updated).

Definition products_checkpoint : StaticData :=
  set_knownIds ["p-1"; "p-2"] polled_at_ten.

(** p-1 changed after the previous cycle, p-2 before it, and p-3 is new. *)
Definition products_snapshot : list IDataObject :=
  [ product_at "p-1" "2024-01-15T10:03:00.000Z";
    product_at "p-2" "2024-01-15T09:00:00.000Z";
    product_at "p-3" "2024-01-15T10:04:00.000Z" ].

Definition inventory_checkpoint : StaticData :=
  set_inventorySnapshot (<["P1" := 10%float]> ∅) polled_at_ten.

Definition inventory_report : list IDataObject := [row "P1" 7; row "P2" 5].

Definition transfers_checkpoint : StaticData :=
  set_stockTransferStatuses
    (<["t-1" := Some "Open"]> (<["t-2" := Some "Completed"]> ∅)) polled_at_ten.

Definition completed (id : string) : IDataObject := entity id (Some "Completed") None.

Definition transfers_snapshot : list IDataObject :=
  [completed "t-1"; completed "t-2"; completed "t-3"].



(** A service that answers every request with something that is not an
    array. *)
Definition garbled (context : IPollFunctions) : Prop :=
  ∀ r, ∃ text, helpers_request context r = Answers (JOther text).

(** The same node watching another event. *)
Definition rewatch (event : string) (context : IPollFunctions) : IPollFunctions :=
  mkContext event (param_options context) (helpers_request context)
    (now_toISOString context).

(** The requests of a list that only read: GET, without a body. *)
Definition read_only (requests : list IRequestOptions) : Prop :=
  ∀ r, r ∈ requests → method r = "GET" ∧ body r = None.

(** The keys of the static data that belong to other resources than the one
    of the watched event are the same in [d] and [d']. *)
Definition untouched (event : string) (d d' : StaticData) : Prop :=
  (resourceType event ≠ Some "salesOrder" →
   salesOrderIds d' = salesOrderIds d ∧ salesOrderStatuses d' = salesOrderStatuses d) ∧
  (resourceType event ≠ Some "purchaseOrder" →
   purchaseOrderIds d' = purchaseOrderIds d ∧
   purchaseOrderStatuses d' = purchaseOrderStatuses d) ∧
  (resourceType event ≠ Some "stockAdjustment" →
   stockAdjustmentIds d' = stockAdjustmentIds d) ∧
  (resourceType event ≠ Some "stockTransfer" →
   stockTransferStatuses d' = stockTransferStatuses d) ∧
  (resourceType event ≠ Some "inventory" →
   inventorySnapshot d' = inventorySnapshot d).

(** A service that answers every request with an error page. *)
Definition answering_html : IRequestOptions → Response :=
  λ _, Answers (JOther "<html>").

Definition never_polled : World := mkWorld emptyStatic [].

Definition open_order (id : string) : IDataObject := entity id (Some "Open") None.

(** ** JSON values and the pure helpers

    The helpers of [utils/helpers.ts] and [transport/index.ts] work on plain
    JSON data.  An object is the list of its own entries in enumeration
    order; numbers are integers. *)

#[local] Set Warnings "-register-all".
Inductive Value :=
  | VUndefined
  | VNull
  | VBool (b : bool)
  | VNum (n : Z)
  | VStr (s : string)
  | VArray (items : list Value)
  | VObject (entries : list (string * Value)).

Abbreviation JsObject := (list (string * Value)).

(** *** Induction on JSON values *)

Section Value_induction.

Variable P : Value → Prop.
Hypothesis P_undefined : P VUndefined.
Hypothesis P_null : P VNull.
Hypothesis P_bool : ∀ b, P (VBool b).
Hypothesis P_num : ∀ n, P (VNum n).
Hypothesis P_str : ∀ s, P (VStr s).
Hypothesis P_array : ∀ items, Forall P items → P (VArray items).
Hypothesis P_object : ∀ obj, Forall (λ entry, P entry.2) obj → P (VObject obj).

Fixpoint Value_nested_ind (value : Value) : P value :=
  match value with
  | VUndefined => P_undefined
  | VNull => P_null
  | VBool b => P_bool b
  | VNum n => P_num n
  | VStr s => P_str s
  | VArray items =>
      P_array items
        ((fix all (l : list Value) : Forall P l :=
            match l with
            | [] => List.Forall_nil P
            | v :: l' => List.Forall_cons P v l' (Value_nested_ind v) (all l')
            end) items)
  | VObject obj =>
      P_object obj
        ((fix all (l : JsObject) : Forall (λ entry, P entry.2) l :=
            match l with
            | [] => List.Forall_nil _
            | e :: l' => List.Forall_cons _ e l' (Value_nested_ind e.2) (all l')
            end) obj)
  end.

End Value_induction.


(** [obj[key]]: [undefined] when the object has no such key. *)
Fixpoint obj_get (obj : JsObject) (key : string) : Value :=
  match obj with
  | [] => VUndefined
  | (k, v) :: rest => if String.eqb k key then v else obj_get rest key
  end.

(** [obj[key] = value]: an existing key keeps its place, a new key goes
    last. *)
Fixpoint obj_set (obj : JsObject) (key : string) (value : Value) : JsObject :=
  match obj with
  | [] => [(key, value)]
  | (k, v) :: rest =>
      if String.eqb k key then (k, value) :: rest
      else (k, v) :: obj_set rest key value
  end.

(** [Object.keys(obj)] *)
Definition obj_keys (obj : JsObject) : list string := map fst obj.

(** [value !== undefined && value !== null && value !== ''] *)
Definition present (value : Value) : bool :=
  match value with
  | VUndefined | VNull => false
  | VStr s => negb (String.eqb s "")
  | _ => true
  end.

(** Truthiness of a JSON value. *)
Definition truthy_value (value : Value) : bool :=
  match value with
  | VUndefined | VNull => false
  | VBool b => b
  | VNum n => negb (Z.eqb n 0)
  | VStr s => negb (String.eqb s "")
  | VArray _ | VObject _ => true
  end.

(** [cleanObject(value)] for a value that is an object; the recursion of
    [cleanObject] goes through the values of the entries. *)
Fixpoint cleanObject_of (value : Value) : JsObject :=
  match value with
  | VObject obj =>
      fold_left
        (λ result entry,
           let '(key, value) := entry in
           if present value then
             match value with
             | VObject _ =>
                 let cleaned := cleanObject_of value in
                 if (0 <? length (obj_keys cleaned))%nat
                 then obj_set result key (VObject cleaned)
                 else result
             | _ => obj_set result key value
             end
           else result)
        obj []
  | _ => []
  end.

Definition cleanObject (obj : JsObject) : JsObject := cleanObject_of (VObject obj).

(** One iteration of the loop of [cleanObject]. *)
Definition cleanObject_step (result : JsObject) (entry : string * Value) : JsObject :=
  let '(key, value) := entry in
  if present value then
    match value with
    | VObject nested =>
        let cleaned := cleanObject nested in
        if (0 <? length (obj_keys cleaned))%nat
        then obj_set result key (VObject cleaned)
        else result
    | _ => obj_set result key value
    end
  else result.

(** No entry, at any depth of nested objects, is [undefined], [null], the
    empty string or an empty object. *)
Fixpoint is_clean (value : Value) : bool :=
  match value with
  | VObject obj =>
      forallb
        (λ entry,
           present entry.2
           && match entry.2 with
              | VObject nested =>
                  negb (Nat.eqb (length nested) 0) && is_clean entry.2
              | _ => true
              end)
        obj
  | _ => true
  end.

(** The keys of the object, and of the objects nested in it, are distinct. *)
Fixpoint unique_keys (value : Value) : bool :=
  match value with
  | VObject obj =>
      bool_decide (NoDup (obj_keys obj))
      && forallb (λ entry, unique_keys entry.2) obj
  | _ => true
  end.

(** The test of [is_clean] on one entry. *)
Definition entry_clean (entry : string * Value) : bool :=
  present entry.2
  && match entry.2 with
     | VObject nested => negb (Nat.eqb (length nested) 0) && is_clean entry.2
     | _ => true
     end.

(** [buildFilterParams] of [transport/index.ts] *)
Definition buildFilterParams (filters : JsObject) : JsObject :=
  fold_left
    (λ result entry,
       let '(key, value) := entry in
       if present value then
         if String.eqb key "smart" then obj_set result "filter[smart]" value
         else obj_set result ("filter[" +:+ key +:+ "]") value
       else result)
    filters [].

(** The loop shared by [buildAddress] and [simplifyItem]: copy the fields
    whose value passes a test. *)
Definition copy_fields (test : Value → bool) (source : JsObject)
    (fields : list string) (result : JsObject) : JsObject :=
  fold_left
    (λ result field,
       if test (obj_get source field) then obj_set result field (obj_get source field)
       else result)
    fields result.

Definition addressFields : list string :=
  [ "name"; "attention"; "address1"; "address2"; "city"; "stateProvince";
    "postalCode"; "country"; "phone" ].

(** [buildAddress] of [transport/index.ts] *)
Definition buildAddress (addressData : JsObject) : JsObject :=
  fold_left
    (λ address field,
       if truthy_value (obj_get addressData field)
       then obj_set address field (obj_get addressData field)
       else address)
    addressFields [].

(** [value !== undefined] *)
Definition defined (value : Value) : bool :=
  match value with
  | VUndefined => false
  | _ => true
  end.

(** [simplifyItem] of [transport/index.ts], for [fields] that name no member
    of [Object.prototype].  For such a name [item[field]] may be an inherited
    member, a function, which plain JSON data cannot hold: the result is then
    outside this model of the helpers, [None]. *)
Definition simplifyItem (item : JsObject) (fields : list string) : option JsObject :=
  if existsb (includes Object_prototype) fields then None
  else
    Some
      (fold_left
         (λ result field,
            if defined (obj_get item field)
            then obj_set result field (obj_get item field)
            else result)
         fields []).

(** The data of a response: one record or an array of records. *)
Inductive ResponseData :=
  | OneRecord (record : JsObject)
  | ManyRecords (records : list JsObject).

(** [simplifyResponse] of [transport/index.ts]; [fields] may be left out. *)
Definition simplifyResponse (data : ResponseData) (fields : option (list string))
    : option ResponseData :=
  match fields with
  | None => Some data
  | Some fields =>
      if decide (length fields = 0%nat) then Some data
      else match data with
           | ManyRecords records =>
               ManyRecords <$> mapM (λ item, simplifyItem item fields) records
           | OneRecord record => OneRecord <$> simplifyItem record fields
           end
  end.

(** A hexadecimal digit, in either case. *)
Definition is_hex (c : ascii) : bool :=
  let n := N_of_ascii c in
  ((48 <=? n) && (n <=? 57) || (97 <=? n) && (n <=? 102)
   || (65 <=? n) && (n <=? 70))%N.

(** [[0-9a-f]{n}] at the head of [s], ignoring case: what is left of [s]. *)
Fixpoint hex_run (n : nat) (s : string) : option string :=
  match n with
  | O => Some s
  | S n' =>
      match s with
      | String c rest => if is_hex c then hex_run n' rest else None
      | EmptyString => None
      end
  end.

(** [-] at the head of [s]. *)
Definition hyphen (s : string) : option string :=
  match s with
  | String c rest => if Ascii.eqb c "-" then Some rest else None
  | EmptyString => None
  end.

(** [isValidGuid] of [utils/helpers.ts]: the test of
    [/^[0-9a-f]{8}-[0-9a-f]{4}-[0-9a-f]{4}-[0-9a-f]{4}-[0-9a-f]{12}$/i]. *)
Definition isValidGuid (value : string) : bool :=
  match
    s1 ← hex_run 8 value; s2 ← hyphen s1;
    s3 ← hex_run 4 s2; s4 ← hyphen s3;
    s5 ← hex_run 4 s4; s6 ← hyphen s5;
    s7 ← hex_run 4 s6; s8 ← hyphen s7;
    hex_run 12 s8
  with
  | Some EmptyString => true
  | _ => false
  end.

(** [createReference] of [utils/helpers.ts] *)
Definition createReference (value : string) : JsObject :=
  if isValidGuid value then [("entityId", VStr value)]
  else [("name", VStr value)].

(** [extractEntityId] of [utils/helpers.ts] *)
Definition extractEntityId (data : Value) : Value :=
  match data with
  | VStr s => if isValidGuid s then VStr s else VUndefined
  | VObject obj => obj_get obj "entityId"
  | VArray _ => VUndefined
  | _ => VUndefined
  end.

(** [parseEntityReference] of [transport/index.ts], on a string or on an
    object. *)
Definition parseEntityReference (input : string + JsObject) : JsObject :=
  match input with
  | inl s => if isValidGuid s then [("entityId", VStr s)] else [("name", VStr s)]
  | inr obj => obj
  end.

(** A string made of hexadecimal digits. *)
Definition all_hex (s : string) : Prop :=
  ∀ c, c ∈ String.list_ascii_of_string s → is_hex c = true.

(** [array.slice(start, stop)]: a negative index counts from the end, and
    both indices are clamped to the array. *)
Definition slice {T} (array : list T) (start stop : Z) : list T :=
  let len := Z.of_nat (length array) in
  let from := if start <? 0 then Z.max (len + start) 0 else Z.min start len in
  let to := if stop <? 0 then Z.max (len + stop) 0 else Z.min stop len in
  take (Z.to_nat (to - from)) (drop (Z.to_nat from) array).

(** The loop of [batchArray], from index [i]; [None] when the loop is still
    running after [fuel] iterations. *)
Fixpoint batchArray_loop {T} (fuel : nat) (array : list T) (batchSize i : Z)
    (batches : list (list T)) : option (list (list T)) :=
  match fuel with
  | O => None
  | S fuel' =>
      if i <? Z.of_nat (length array) then
        batchArray_loop fuel' array batchSize (i + batchSize)
          (batches ++ [slice array i (i + batchSize)])
      else Some batches
  end.

(** [batchArray] of [utils/helpers.ts] *)
Definition batchArray {T} (fuel : nat) (array : list T) (batchSize : Z)
    : option (list (list T)) :=
  batchArray_loop fuel array batchSize 0 [].

(** [str.substring(0, stop)] *)
Definition substring_from_start (str : string) (stop : Z) : string :=
  let len := Z.of_nat (String.length str) in
  String.substring 0 (Z.to_nat (Z.max 0 (Z.min stop len))) str.

(** [truncate] of [utils/helpers.ts] *)
Definition truncate (str : string) (maxLength : Z) : string :=
  if Z.of_nat (String.length str) <=? maxLength then str
  else substring_from_start str (maxLength - 3) +:+ "...".

(** What [retryOperation] throws: the error of an attempt, or [undefined]
    when no attempt was made. *)
Inductive Thrown :=
  | ThrownError (error : string)
  | ThrownUndefined.

(** The state of [retryOperation]: the number of calls of the operation made
    so far and the delays waited for, in milliseconds. *)
Record Retrying := mkRetrying {
  calls : nat;
  delays : list Z;
}.

(** The loop of [retryOperation] from [attempt], with [remaining] iterations
    to go.  The operation is given by the outcome of each of its successive
    calls. *)
Fixpoint retryOperation_loop {T} (remaining : nat) (operation : nat → Outcome T)
    (maxRetries initialDelay : Z) (attempt : Z) (lastError : Thrown)
    (st : Retrying) : (T + Thrown) * Retrying :=
  match remaining with
  | O => (inr lastError, st)
  | S remaining' =>
      match operation (calls st) with
      | Resolved value => (inl value, mkRetrying (S (calls st)) (delays st))
      | Rejected error =>
          let st := mkRetrying (S (calls st)) (delays st) in
          let st :=
            if attempt <? maxRetries
            then mkRetrying (calls st) (delays st ++ [initialDelay * 2 ^ attempt])
            else st in
          retryOperation_loop remaining' operation maxRetries initialDelay
            (attempt + 1) (ThrownError error) st
      end
  end.

(** [retryOperation] of [utils/helpers.ts]: the loop runs for the attempts
    [0 .. maxRetries]. *)
Definition retryOperation {T} (operation : nat → Outcome T)
    (maxRetries initialDelay : Z) : (T + Thrown) * Retrying :=
  retryOperation_loop (Z.to_nat (maxRetries + 1)) operation maxRetries initialDelay
    0 ThrownUndefined (mkRetrying 0 []).

(** The delays waited for before the attempts [first + 1 .. first + count]:
    the initial delay, doubled at each failed attempt. *)
Definition backoff (initialDelay : Z) (first count : nat) : list Z :=
  map (λ attempt, initialDelay * 2 ^ Z.of_nat attempt) (seq first count).

Definition total (delays : list Z) : Z := foldr Z.add 0 delays.

(** ** Cursor pagination *)

(** [query[key] = value] on the query object. *)
Fixpoint query_set (query : list (string * QueryValue)) (key : string)
    (value : QueryValue) : list (string * QueryValue) :=
  match query with
  | [] => [(key, value)]
  | (k, v) :: rest =>
      if String.eqb k key then (k, value) :: rest
      else (k, v) :: query_set rest key value
  end.

(** Truthiness of the optional [limit]. *)
Definition limit_set (limit : option Z) : bool :=
  match limit with
  | Some n => negb (Z.eqb n 0)
  | None => false
  end.

(** The [while (hasMore)] loop of [inFlowApiRequestAllItems]; the result is
    [None] when the loop is still running after [fuel] iterations. *)
Fixpoint inFlowApiRequestAllItems_loop (fuel : nat) (context : IPollFunctions)
    (method endpoint : string) (body query : list (string * QueryValue))
    (limit : option Z) (afterEntityId : option string)
    (returnData : list IDataObject) : Async (option (list IDataObject)) :=
  match fuel with
  | O => mret None
  | S fuel' =>
      let query :=
        if truthy afterEntityId
        then query_set query "after" (QStr (default "" afterEntityId))
        else query in
      responseData ← inFlowApiRequest context method endpoint body query;
      match responseData with
      | JArray (first :: others) =>
          let responseData := first :: others in
          let returnData := returnData ++ responseData in
          let afterEntityId := Some (entityId (List.last responseData first)) in
          let hasMore := Nat.eqb (length responseData) 50 in
          if limit_set limit
             && (default 0 limit <=? Z.of_nat (length returnData)) then
            mret (Some (slice returnData 0 (default 0 limit)))
          else if hasMore then
            inFlowApiRequestAllItems_loop fuel' context method endpoint body query
              limit afterEntityId returnData
          else mret (Some returnData)
      | _ => mret (Some returnData)
      end
  end.

(** [inFlowApiRequestAllItems] of [transport/index.ts]; [query] and [limit]
    may be left out. *)
Definition inFlowApiRequestAllItems (fuel : nat) (context : IPollFunctions)
    (method endpoint : string) (body : list (string * QueryValue))
    (query : option (list (string * QueryValue))) (limit : option Z)
    : Async (option (list IDataObject)) :=
  let query := default [] query in
  let query := query_set query "count" (QNum 50) in
  inFlowApiRequestAllItems_loop fuel context method endpoint body query limit None [].

(** The request that [inFlowApiRequest] sends for a non-empty query. *)
Definition request_with (method endpoint : string)
    (body query : list (string * QueryValue)) : IRequestOptions :=
  mkRequest method endpoint (if decide (body = []) then None else Some body)
    (Some query).

(** A service that answers every request with a full page. *)
Definition endless (context : IPollFunctions) : Prop :=
  ∀ r, ∃ items, helpers_request context r = Answers (JArray items) ∧
                length items = 50%nat.

(** A record whose id is the character of code [48 + n]. *)
Definition numbered (n : nat) : IDataObject :=
  entity (String (ascii_of_nat (48 + n)) "") None None.

(** A full page of fifty records; the id of the last one is ["a"]. *)
Definition full_page : list IDataObject := map numbered (seq 0 50).

(** A service with fifty-one records: a full page, then one record after the
    cursor. *)
Definition two_pages : IRequestOptions → Response :=
  λ r, if bool_decide (qs r = Some [("count", QNum 50)])
       then Answers (JArray full_page)
       else Answers (JArray [p1]).

(** A service that answers the first page and fails afterwards. *)
Definition failing_after_first_page : IRequestOptions → Response :=
  λ r, if bool_decide (qs r = Some [("count", QNum 50)])
       then Answers (JArray full_page)
       else Fails "ETIMEDOUT".

(** An operation that fails twice and then returns 7, and one that always
    fails. *)
Definition third_time_lucky : nat → Outcome Z :=
  λ call, if (call <? 2)%nat then Rejected "boom" else Resolved 7.

Definition always_down : nat → Outcome Z := λ _, Rejected "down".


Definition sample_filters : JsObject :=
  [ ("smart", VStr "test"); ("isActive", VBool true); ("name", VNull) ].

Definition sample_record : JsObject :=
  [ ("entityId", VStr "p-1"); ("name", VStr "Widget"); ("cost", VNum 5) ].

(** [result] holds under each of the [fields] the value that [item] holds
    there, and has no other key. *)
Definition simplified_from (fields : list string) (item result : JsObject) : Prop :=
  (∀ key,
     obj_get result key
     = if bool_decide (key ∈ fields) then obj_get item key else VUndefined) ∧
  (∀ key, key ∈ obj_keys result → key ∈ fields).

(** ** Basic facts *)

Lemma emitted_pack changes : emitted (pack changes) = changes.
Proof.
  unfold emitted, pack. destruct changes as [|c cs]; simpl; [done|].
  by rewrite app_nil_r.
Qed.

Lemma truthy_Some (v : option string) :
  truthy v = true ↔ ∃ s, v = Some s ∧ s ≠ "".
Proof.
  destruct v as [s|]; simpl.
  - rewrite negb_true_iff, String.eqb_neq. split.
    + intros Hs. by exists s.
    + by intros (s' & [= <-] & Hs).
  - split; [done | by intros (s & Hs & _)].
Qed.

Lemma strict_eq_true (v : option string) (s : string) :
  strict_eq v s = true ↔ v = Some s.
Proof.
  destruct v as [s'|]; simpl; [|naive_solver].
  rewrite String.eqb_eq. naive_solver.
Qed.

Lemma includes_true (ids : list string) (id : string) :
  includes ids id = true ↔ id ∈ ids.
Proof.
  unfold includes. rewrite existsb_exists. split.
  - intros (x & Hin & Heq). apply String.eqb_eq in Heq. subst.
    by apply list_elem_of_In.
  - intros Hin. exists id. split; [by apply list_elem_of_In | apply String.eqb_refl].
Qed.

Lemma includes_false (ids : list string) (id : string) :
  includes ids id = false ↔ id ∉ ids.
Proof.
  rewrite <- includes_true. destruct (includes ids id); naive_solver.
Qed.

(** *** Reading a dictionary *)

Lemma prop_own {A} (m : gmap string A) (k : string) (v : A) :
  prop m k = Own v ↔ m !! k = Some v.
Proof.
  unfold prop. destruct (m !! k) as [v'|]; [split; congruence|].
  destruct (includes _ _); split; congruence.
Qed.

Lemma prop_inherited {A} (m : gmap string A) (k name : string) :
  prop m k = Inherited name ↔ m !! k = None ∧ k ∈ Object_prototype ∧ name = k.
Proof.
  unfold prop. destruct (m !! k) as [v'|]; [split; [congruence | by intros [? _]]|].
  destruct (includes Object_prototype k) eqn:Hk.
  - apply includes_true in Hk. split; [by intros [= <-] | by intros (_ & _ & ->)].
  - apply includes_false in Hk. split; [congruence | by intros (_ & ? & _)].
Qed.

Lemma prop_undefined {A} (m : gmap string A) (k : string) :
  prop m k = Undefined ↔ m !! k = None ∧ k ∉ Object_prototype.
Proof.
  unfold prop. destruct (m !! k) as [v'|]; [split; [congruence | by intros [? _]]|].
  destruct (includes Object_prototype k) eqn:Hk.
  - apply includes_true in Hk. split; [congruence | by intros [_ ?]].
  - apply includes_false in Hk. by split.
Qed.

(** A dictionary of statuses gives exactly the string [s] when it holds [s]
    as an own property: no inherited member is a string. *)
Lemma property_eq_true (m : gmap string (option string)) (k s : string) :
  property_eq (prop m k) s = true ↔ m !! k = Some (Some s).
Proof.
  unfold property_eq. destruct (prop m k) as [v| |] eqn:Hp.
  - apply prop_own in Hp. rewrite Hp, strict_eq_true. split; congruence.
  - apply prop_inherited in Hp as [Hp _]. rewrite Hp. split; congruence.
  - apply prop_undefined in Hp as [Hp _]. rewrite Hp. split; congruence.
Qed.

(** The key [__proto__] is never assigned, and every other key is. *)
Lemma lookup_assign {A} (m : gmap string A) (key k : string) (v : A) :
  assign m key v !! k
  = if bool_decide (key = k ∧ k ≠ "__proto__") then Some v else m !! k.
Proof.
  unfold assign. destruct (String.eqb_spec key "__proto__") as [->|Hkey].
  - rewrite bool_decide_eq_false_2; [done|]. by intros [<- ?].
  - destruct (decide (key = k)) as [<-|Hne].
    + rewrite bool_decide_eq_true_2 by done. apply lookup_insert_eq.
    + rewrite bool_decide_eq_false_2 by (by intros [? _]).
      by apply lookup_insert_ne.
Qed.

(** A loop that pushes one event per element. *)
Lemma push_all {A B} (f : A → B) (l : list A) (acc : list B) :
  fold_left (λ acc x, acc ++ [f x]) l acc = acc ++ map f l.
Proof.
  revert acc. induction l as [|x l IH]; intros acc; simpl.
  - by rewrite app_nil_r.
  - rewrite IH. by rewrite <- app_assoc.
Qed.

(** A loop that records every element and pushes an event for the ones that
    pass a test: the events are those of the passing elements, in order. *)
Lemma push_some {A B M} (step : list B * M → A → list B * M)
    (test : A → bool) (f : A → B) (record : M → A → M) :
  (∀ acc m x,
     step (acc, m) x = (if test x then acc ++ [f x] else acc, record m x)) →
  ∀ l acc m,
    fold_left step l (acc, m)
    = (acc ++ map f (List.filter test l), fold_left record l m).
Proof.
  intros Hstep l. induction l as [|x l IH]; intros acc m; simpl.
  - by rewrite app_nil_r.
  - rewrite Hstep, IH. destruct (test x); simpl; [|done].
    by rewrite <- app_assoc.
Qed.

Lemma push_some_list {A B} (step : list B → A → list B)
    (test : A → bool) (f : A → B) :
  (∀ acc x, step acc x = if test x then acc ++ [f x] else acc) →
  ∀ l acc, fold_left step l acc = acc ++ map f (List.filter test l).
Proof.
  intros Hstep l. induction l as [|x l IH]; intros acc; simpl.
  - by rewrite app_nil_r.
  - rewrite Hstep, IH. destruct (test x); simpl; [|done].
    by rewrite <- app_assoc.
Qed.

Lemma elem_of_map_filter {A B} (f : A → B) (test : A → bool) (l : list A) (b : B) :
  b ∈ map f (List.filter test l) ↔ ∃ x, x ∈ l ∧ test x = true ∧ b = f x.
Proof.
  rewrite list_elem_of_In, in_map_iff. split.
  - intros (x & <- & Hx). apply filter_In in Hx as [Hin Ht].
    exists x. by rewrite list_elem_of_In.
  - intros (x & Hin & Ht & ->). exists x. split; [done|].
    apply filter_In. by rewrite <- list_elem_of_In.
Qed.

Lemma emit_inj (name : string) (r r' : IDataObject) :
  mkExec name (DataRecord r) = mkExec name (DataRecord r') → r = r'.
Proof. by intros [= ->]. Qed.

Lemma resource_of_supported (event : string) :
  handled event = false → supported event = false.
Proof.
  intros Hh. destruct (supported event) eqn:Hs; [|done].
  apply includes_true in Hs. unfold eventOptions in Hs.
  repeat (apply elem_of_cons in Hs as [-> | Hs]; [by vm_compute in Hh|]).
  by apply elem_of_nil in Hs.
Qed.

(** ** One request *)

Lemma inFlowApiRequest_answers context m e b q v w :
  helpers_request context
    (mkRequest m e (if decide (b = []) then None else Some b)
       (if decide (q = []) then None else Some q)) = Answers v →
  inFlowApiRequest context m e b q w
  = (Resolved v,
     mkWorld (static w)
       (sent w ++ [mkRequest m e (if decide (b = []) then None else Some b)
                     (if decide (q = []) then None else Some q)])).
Proof.
  intros Hreq. unfold inFlowApiRequest, try_catch, request. by rewrite Hreq.
Qed.

Lemma inFlowApiRequest_fails context m e b q message w :
  helpers_request context
    (mkRequest m e (if decide (b = []) then None else Some b)
       (if decide (q = []) then None else Some q)) = Fails message →
  inFlowApiRequest context m e b q w
  = (Rejected ("inFlow API Request Failed: " +:+ message),
     mkWorld (static w)
       (sent w ++ [mkRequest m e (if decide (b = []) then None else Some b)
                     (if decide (q = []) then None else Some q)])).
Proof.
  intros Hreq. unfold inFlowApiRequest, try_catch, request. by rewrite Hreq.
Qed.

Lemma page_query (e : string) :
  mkRequest "GET" e
    (if decide (@nil (string * QueryValue) = []) then None else Some [])
    (if decide ([("count", QNum 50)] = []) then None else Some [("count", QNum 50)])
  = page e.
Proof. reflexivity. Qed.

Lemma report_query (options : Options) :
  let query :=
    if truthy (locationId options)
    then match locationId options with
         | Some l => [("locationId", QStr l)]
         | None => []
         end
    else [] in
  mkRequest "GET" "/reports/inventorySummary"
    (if decide (@nil (string * QueryValue) = []) then None else Some [])
    (if decide (query = []) then None else Some query)
  = report options.
Proof.
  unfold report. destruct options as [[l|] c]; simpl; [|done].
  by destruct (negb (String.eqb l "")).
Qed.

Section Cycle.

Variable Date_valueOf : string → option Z.

(** *** The pollers on an array response *)

Lemma pollProducts_created context lpt w items :
  helpers_request context (page "/products") = Answers (JArray items) →
  pollProducts Date_valueOf context (Some "created") lpt w
  = (Resolved (map (emit "product.created")
                 (List.filter (is_new (default [] (knownIds (static w)))) items)),
     mkWorld (set_knownIds (map entityId items) (static w))
       (sent w ++ [page "/products"])).
Proof.
  intros Hreq. unfold pollProducts, mbind, Async_bind, getWorkflowStaticData.
  rewrite (inFlowApiRequest_answers _ _ _ _ _ (JArray items)), page_query
    by (by rewrite page_query).
  change (strict_eq (Some "created") "created") with true. cbv iota.
  by rewrite push_all.
Qed.

Lemma pollProducts_updated context lpt w items :
  helpers_request context (page "/products") = Answers (JArray items) →
  pollProducts Date_valueOf context (Some "updated") lpt w
  = (Resolved (map (emit "product.updated")
                 (List.filter (product_updated Date_valueOf lpt (default [] (knownIds (static w))))
                    items)),
     mkWorld (set_knownIds (map entityId items) (static w))
       (sent w ++ [page "/products"])).
Proof.
  intros Hreq. unfold pollProducts, mbind, Async_bind, getWorkflowStaticData.
  rewrite (inFlowApiRequest_answers _ _ _ _ _ (JArray items)), page_query
    by (by rewrite page_query).
  change (strict_eq (Some "created") "created") with true.
  change (strict_eq (Some "updated") "created") with false.
  change (strict_eq (Some "updated") "updated") with true. cbv iota.
  rewrite (push_some_list _ (product_updated Date_valueOf lpt (default [] (knownIds (static w))))
             (emit "product.updated")); [done|].
  intros acc x. unfold pollProducts_updated_step, product_updated.
  by destruct (updated_since _ _ _), (includes _ _).
Qed.

Lemma pollSalesOrders_loop act lpt known knownStatuses
    (test : IDataObject → bool) name orders :
  (∀ acc m x,
     pollSalesOrders_step Date_valueOf act lpt known knownStatuses (acc, m) x
     = (if test x then acc ++ [emit name x] else acc, assign m (entityId x) (status x))) →
  fold_left (pollSalesOrders_step Date_valueOf act lpt known knownStatuses) orders ([], ∅)
  = (map (emit name) (List.filter test orders), statuses_of orders).
Proof.
  intros Hstep.
  exact (push_some _ test (emit name) (λ m r, assign m (entityId r) (status r))
           Hstep orders [] ∅).
Qed.

Lemma pollSalesOrders_run context act lpt w orders
    (test : IDataObject → bool) name :
  helpers_request context (page "/salesOrders") = Answers (JArray orders) →
  (∀ acc m x,
     pollSalesOrders_step Date_valueOf act lpt
       (default [] (salesOrderIds (static w)))
       (default ∅ (salesOrderStatuses (static w))) (acc, m) x
     = (if test x then acc ++ [emit name x] else acc, assign m (entityId x) (status x))) →
  pollSalesOrders Date_valueOf context act lpt w
  = (Resolved (map (emit name) (List.filter test orders)),
     mkWorld (set_salesOrderStatuses (statuses_of orders)
                (set_salesOrderIds (map entityId orders) (static w)))
       (sent w ++ [page "/salesOrders"])).
Proof.
  intros Hreq Hstep. unfold pollSalesOrders, mbind, Async_bind, getWorkflowStaticData.
  rewrite (inFlowApiRequest_answers _ _ _ _ _ (JArray orders)), page_query
    by (by rewrite page_query).
  cbv beta iota. by rewrite (pollSalesOrders_loop _ _ _ _ test name).
Qed.

Lemma pollSalesOrders_created context lpt w orders :
  helpers_request context (page "/salesOrders") = Answers (JArray orders) →
  pollSalesOrders Date_valueOf context (Some "created") lpt w
  = (Resolved (map (emit "salesOrder.created")
                 (List.filter (is_new (default [] (salesOrderIds (static w)))) orders)),
     mkWorld (set_salesOrderStatuses (statuses_of orders)
                (set_salesOrderIds (map entityId orders) (static w)))
       (sent w ++ [page "/salesOrders"])).
Proof.
  intros Hreq. apply pollSalesOrders_run; [done|].
  intros acc m x. unfold pollSalesOrders_step, is_new.
  change (strict_eq (Some "created") "created") with true. cbv iota.
  by destruct (negb _).
Qed.

Lemma pollSalesOrders_updated context lpt w orders :
  helpers_request context (page "/salesOrders") = Answers (JArray orders) →
  pollSalesOrders Date_valueOf context (Some "updated") lpt w
  = (Resolved (map (emit "salesOrder.updated")
                 (List.filter
                    (salesOrder_updated Date_valueOf lpt (default [] (salesOrderIds (static w))))
                    orders)),
     mkWorld (set_salesOrderStatuses (statuses_of orders)
                (set_salesOrderIds (map entityId orders) (static w)))
       (sent w ++ [page "/salesOrders"])).
Proof.
  intros Hreq. apply pollSalesOrders_run; [done|].
  intros acc m x. unfold pollSalesOrders_step, salesOrder_updated.
  change (strict_eq (Some "updated") "created") with false.
  change (strict_eq (Some "updated") "updated") with true. cbv iota.
  by destruct (includes _ _), (updated_since _ _ _).
Qed.

Lemma pollSalesOrders_fulfilled context lpt w orders :
  helpers_request context (page "/salesOrders") = Answers (JArray orders) →
  pollSalesOrders Date_valueOf context (Some "fulfilled") lpt w
  = (Resolved (map (emit "salesOrder.fulfilled")
                 (List.filter
                    (salesOrder_fulfilled (default ∅ (salesOrderStatuses (static w))))
                    orders)),
     mkWorld (set_salesOrderStatuses (statuses_of orders)
                (set_salesOrderIds (map entityId orders) (static w)))
       (sent w ++ [page "/salesOrders"])).
Proof.
  intros Hreq. apply pollSalesOrders_run; [done|].
  intros acc m x. unfold pollSalesOrders_step, salesOrder_fulfilled.
  change (strict_eq (Some "fulfilled") "created") with false.
  change (strict_eq (Some "fulfilled") "updated") with false.
  change (strict_eq (Some "fulfilled") "fulfilled") with true. cbv iota.
  by destruct (_ && _).
Qed.

Lemma pollPurchaseOrders_run context act lpt w orders
    (test : IDataObject → bool) name :
  helpers_request context (page "/purchaseOrders") = Answers (JArray orders) →
  (∀ acc m x,
     pollPurchaseOrders_step act
       (default [] (purchaseOrderIds (static w)))
       (default ∅ (purchaseOrderStatuses (static w))) (acc, m) x
     = (if test x then acc ++ [emit name x] else acc, assign m (entityId x) (status x))) →
  pollPurchaseOrders context act lpt w
  = (Resolved (map (emit name) (List.filter test orders)),
     mkWorld (set_purchaseOrderStatuses (statuses_of orders)
                (set_purchaseOrderIds (map entityId orders) (static w)))
       (sent w ++ [page "/purchaseOrders"])).
Proof.
  intros Hreq Hstep. unfold pollPurchaseOrders, mbind, Async_bind, getWorkflowStaticData.
  rewrite (inFlowApiRequest_answers _ _ _ _ _ (JArray orders)), page_query
    by (by rewrite page_query).
  cbv beta iota.
  by rewrite (push_some _ test (emit name) (λ m r, assign m (entityId r) (status r))
                Hstep orders [] ∅).
Qed.

Lemma pollPurchaseOrders_created context lpt w orders :
  helpers_request context (page "/purchaseOrders") = Answers (JArray orders) →
  pollPurchaseOrders context (Some "created") lpt w
  = (Resolved (map (emit "purchaseOrder.created")
                 (List.filter (is_new (default [] (purchaseOrderIds (static w)))) orders)),
     mkWorld (set_purchaseOrderStatuses (statuses_of orders)
                (set_purchaseOrderIds (map entityId orders) (static w)))
       (sent w ++ [page "/purchaseOrders"])).
Proof.
  intros Hreq. apply pollPurchaseOrders_run; [done|].
  intros acc m x. unfold pollPurchaseOrders_step, is_new.
  change (strict_eq (Some "created") "created") with true. cbv iota.
  by destruct (negb _).
Qed.

Lemma pollPurchaseOrders_received context lpt w orders :
  helpers_request context (page "/purchaseOrders") = Answers (JArray orders) →
  pollPurchaseOrders context (Some "received") lpt w
  = (Resolved (map (emit "purchaseOrder.received")
                 (List.filter
                    (purchaseOrder_received
                       (default ∅ (purchaseOrderStatuses (static w))))
                    orders)),
     mkWorld (set_purchaseOrderStatuses (statuses_of orders)
                (set_purchaseOrderIds (map entityId orders) (static w)))
       (sent w ++ [page "/purchaseOrders"])).
Proof.
  intros Hreq. apply pollPurchaseOrders_run; [done|].
  intros acc m x. unfold pollPurchaseOrders_step, purchaseOrder_received.
  change (strict_eq (Some "received") "created") with false.
  change (strict_eq (Some "received") "received") with true. cbv iota.
  by destruct (_ && _).
Qed.

Lemma pollStockAdjustments_array context w adjustments :
  helpers_request context (page "/stockAdjustments") = Answers (JArray adjustments) →
  pollStockAdjustments context w
  = (Resolved (map (emit "stockAdjustment.created")
                 (List.filter (is_new (default [] (stockAdjustmentIds (static w))))
                    adjustments)),
     mkWorld (set_stockAdjustmentIds (map entityId adjustments) (static w))
       (sent w ++ [page "/stockAdjustments"])).
Proof.
  intros Hreq. unfold pollStockAdjustments, mbind, Async_bind, getWorkflowStaticData.
  rewrite (inFlowApiRequest_answers _ _ _ _ _ (JArray adjustments)), page_query
    by (by rewrite page_query).
  cbv beta iota. by rewrite push_all.
Qed.

Lemma pollStockTransfers_completed context w transfers :
  helpers_request context (page "/stockTransfers") = Answers (JArray transfers) →
  pollStockTransfers context (Some "completed") w
  = (Resolved (map (emit "stockTransfer.completed")
                 (List.filter
                    (stockTransfer_completed
                       (default ∅ (stockTransferStatuses (static w))))
                    transfers)),
     mkWorld (set_stockTransferStatuses (statuses_of transfers) (static w))
       (sent w ++ [page "/stockTransfers"])).
Proof.
  intros Hreq. unfold pollStockTransfers, mbind, Async_bind, getWorkflowStaticData.
  rewrite (inFlowApiRequest_answers _ _ _ _ _ (JArray transfers)), page_query
    by (by rewrite page_query).
  cbv beta iota.
  assert (Hstep : ∀ acc m x,
    pollStockTransfers_step (Some "completed")
      (default ∅ (stockTransferStatuses (static w))) (acc, m) x
    = (if stockTransfer_completed (default ∅ (stockTransferStatuses (static w))) x
       then acc ++ [emit "stockTransfer.completed" x] else acc,
       assign m (entityId x) (status x))).
  { intros acc m x. unfold pollStockTransfers_step, stockTransfer_completed.
    change (strict_eq (Some "completed") "completed") with true. cbv iota.
    by destruct (_ && _). }
  by rewrite (push_some _ _ _ (λ m r, assign m (entityId r) (status r))
                Hstep transfers [] ∅).
Qed.

Lemma pollInventoryChanges_array context options w inventory :
  helpers_request context (report options) = Answers (JArray inventory) →
  pollInventoryChanges context options w
  = (Resolved (map (inventory_event (default ∅ (inventorySnapshot (static w))))
                 (List.filter
                    (inventory_changed (default ∅ (inventorySnapshot (static w))))
                    inventory)),
     mkWorld (set_inventorySnapshot (quantities_of inventory) (static w))
       (sent w ++ [report options])).
Proof.
  intros Hreq. unfold pollInventoryChanges, mbind, Async_bind, getWorkflowStaticData.
  pose proof (report_query options) as Hq. cbv zeta in Hq.
  rewrite (inFlowApiRequest_answers _ _ _ _ _ (JArray inventory)), Hq
    by (by rewrite Hq).
  cbv beta iota.
  assert (Hstep : ∀ acc m x,
    pollInventoryChanges_step (default ∅ (inventorySnapshot (static w))) (acc, m) x
    = (if inventory_changed (default ∅ (inventorySnapshot (static w))) x
       then acc ++ [inventory_event (default ∅ (inventorySnapshot (static w))) x]
       else acc,
       assign m (productId x) (quantityOnHand x))).
  { intros acc m x. unfold pollInventoryChanges_step, inventory_changed, inventory_event.
    by destruct (_ && _). }
  by rewrite (push_some _ _ _ (λ m r, assign m (productId r) (quantityOnHand r))
                Hstep inventory [] ∅).
Qed.

(** *** The pollers when the fetch fails *)

Lemma inFlowApiRequest_unreachable context m e b q w :
  unreachable context →
  ∃ error request,
    inFlowApiRequest context m e b q w
    = (Rejected error, mkWorld (static w) (sent w ++ [request])).
Proof.
  intros Hdown.
  destruct (Hdown (mkRequest m e (if decide (b = []) then None else Some b)
                     (if decide (q = []) then None else Some q))) as [message Hm].
  eexists _, _. by apply inFlowApiRequest_fails.
Qed.

Ltac fetch_rejects Hdown :=
  unfold mbind, Async_bind, getWorkflowStaticData;
  match goal with
  | |- context [inFlowApiRequest ?c ?m ?e ?b ?q ?w] =>
      destruct (inFlowApiRequest_unreachable c m e b q w Hdown)
        as (error & request & ->);
      by exists error, [request]
  end.

Lemma pollProducts_unreachable context act lpt w :
  unreachable context → rejects_cleanly (pollProducts Date_valueOf context act lpt) w.
Proof. intros Hdown. unfold rejects_cleanly, pollProducts. fetch_rejects Hdown. Qed.

Lemma pollSalesOrders_unreachable context act lpt w :
  unreachable context → rejects_cleanly (pollSalesOrders Date_valueOf context act lpt) w.
Proof. intros Hdown. unfold rejects_cleanly, pollSalesOrders. fetch_rejects Hdown. Qed.

Lemma pollPurchaseOrders_unreachable context act lpt w :
  unreachable context → rejects_cleanly (pollPurchaseOrders context act lpt) w.
Proof. intros Hdown. unfold rejects_cleanly, pollPurchaseOrders. fetch_rejects Hdown. Qed.

Lemma pollStockAdjustments_unreachable context w :
  unreachable context → rejects_cleanly (pollStockAdjustments context) w.
Proof. intros Hdown. unfold rejects_cleanly, pollStockAdjustments. fetch_rejects Hdown. Qed.

Lemma pollStockTransfers_unreachable context act w :
  unreachable context → rejects_cleanly (pollStockTransfers context act) w.
Proof. intros Hdown. unfold rejects_cleanly, pollStockTransfers. fetch_rejects Hdown. Qed.

Lemma pollInventoryChanges_unreachable context options w :
  unreachable context → rejects_cleanly (pollInventoryChanges context options) w.
Proof. intros Hdown. unfold rejects_cleanly, pollInventoryChanges. fetch_rejects Hdown. Qed.

(** *** [detectChanges] *)

Lemma try_catch_rejects_cleanly {A} (m : Async (list A)) (w : World) :
  rejects_cleanly m w →
  ∃ requests,
    try_catch m (λ _, mret []) w
    = (Resolved [], mkWorld (static w) (sent w ++ requests)).
Proof.
  intros (error & requests & Hm). exists requests.
  unfold try_catch. by rewrite Hm.
Qed.

Lemma detectChanges_unreachable context event options lpt w :
  unreachable context →
  ∃ requests,
    detectChanges Date_valueOf context event options lpt w
    = (Resolved [], mkWorld (static w) (sent w ++ requests)).
Proof.
  intros Hdown. unfold detectChanges.
  destruct (strict_eq _ "product");
    [by apply try_catch_rejects_cleanly, pollProducts_unreachable|].
  destruct (strict_eq _ "salesOrder");
    [by apply try_catch_rejects_cleanly, pollSalesOrders_unreachable|].
  destruct (strict_eq _ "purchaseOrder");
    [by apply try_catch_rejects_cleanly, pollPurchaseOrders_unreachable|].
  destruct (strict_eq _ "stockAdjustment");
    [by apply try_catch_rejects_cleanly, pollStockAdjustments_unreachable|].
  destruct (strict_eq _ "stockTransfer");
    [by apply try_catch_rejects_cleanly, pollStockTransfers_unreachable|].
  destruct (strict_eq _ "inventory");
    [by apply try_catch_rejects_cleanly, pollInventoryChanges_unreachable|].
  exists []. unfold try_catch, mret, Async_ret. rewrite app_nil_r. by destruct w.
Qed.

Lemma detectChanges_resolves context event options lpt w :
  ∃ changes w',
    detectChanges Date_valueOf context event options lpt w = (Resolved changes, w').
Proof.
  unfold detectChanges, try_catch.
  match goal with |- context [match ?m w with _ => _ end] => destruct (m w) as [[c|e] w'] end;
    eauto.
Qed.

Lemma detectChanges_unhandled context event options lpt w :
  handled event = false →
  detectChanges Date_valueOf context event options lpt w = (Resolved [], w).
Proof.
  unfold handled, resourceType, detectChanges. intros Hh.
  destruct (split_dot event !! 0%nat) as [r|] eqn:Hr; [|done].
  unfold includes, handledResources in Hh. simpl existsb in Hh.
  repeat (apply orb_false_elim in Hh as [?%String.eqb_neq Hh]).
  unfold strict_eq.
  repeat match goal with
  | H : r ≠ ?s |- context [String.eqb r ?s] =>
      rewrite (proj2 (String.eqb_neq r s) H)
  end.
  done.
Qed.

Lemma initializePollingState_resolves context event w :
  ∃ w', initializePollingState context event w = (Resolved tt, w').
Proof.
  unfold initializePollingState. destruct (getEndpointForEvent event); [|by eexists].
  unfold try_catch, mbind, Async_bind.
  destruct (inFlowApiRequest _ _ _ _ _ w) as [[[items|text]|e] w']; by eexists.
Qed.

(** *** [poll] *)

Lemma poll_bootstrap context w :
  truthy (lastPollTime (static w)) = false →
  poll Date_valueOf context w
  = (Resolved None,
     (initializePollingState context (param_event context)
        (mkWorld (set_lastPollTime (now_toISOString context) (static w)) (sent w))).2).
Proof.
  intros Hfirst. unfold poll, mbind, Async_bind, getWorkflowStaticData, update.
  rewrite Hfirst. change (negb false) with true. cbv beta iota.
  destruct (initializePollingState_resolves context (param_event context)
              (mkWorld (set_lastPollTime (now_toISOString context) (static w)) (sent w)))
    as [w' Hinit].
  by rewrite Hinit.
Qed.

Lemma poll_detect context w changes w' :
  truthy (lastPollTime (static w)) = true →
  detectChanges Date_valueOf context (param_event context) (param_options context)
    (default "" (lastPollTime (static w)))
    (mkWorld (set_lastPollTime (now_toISOString context) (static w)) (sent w))
  = (Resolved changes, w') →
  poll Date_valueOf context w = (Resolved (pack changes), w').
Proof.
  intros Hlast Hdetect. unfold poll, mbind, Async_bind, getWorkflowStaticData, update.
  rewrite Hlast. change (negb true) with false. cbv beta iota.
  rewrite Hdetect. unfold pack. by destruct (decide _).
Qed.

Lemma poll_resolves context w :
  ∃ r w', poll Date_valueOf context w = (Resolved r, w').
Proof.
  destruct (truthy (lastPollTime (static w))) eqn:Hlast.
  - destruct (detectChanges_resolves context (param_event context)
                (param_options context) (default "" (lastPollTime (static w)))
                (mkWorld (set_lastPollTime (now_toISOString context) (static w)) (sent w)))
      as (changes & w' & Hd).
    eexists _, _. by eapply poll_detect.
  - eexists _, _. by apply poll_bootstrap.
Qed.

(** *** One detection cycle, per watched event *)

Lemma try_catch_resolved {A} (m : Async A) (h : string → Async A) w a w' :
  m w = (Resolved a, w') → try_catch m h w = (Resolved a, w').
Proof. intros Hm. unfold try_catch. by rewrite Hm. Qed.

Ltac run_cycle poller :=
  intros Hev Hlast Hreq;
  eapply poll_detect; [done|];
  rewrite Hev; apply try_catch_resolved;
  exact (poller _ _ _ _ Hreq).

Lemma cycle_product_created context w items :
  param_event context = "product.created" →
  truthy (lastPollTime (static w)) = true →
  helpers_request context (page "/products") = Answers (JArray items) →
  poll Date_valueOf context w
  = (Resolved (pack (map (emit "product.created")
                       (List.filter (is_new (default [] (knownIds (static w)))) items))),
     mkWorld (set_knownIds (map entityId items) (stamped context w))
       (sent w ++ [page "/products"])).
Proof. run_cycle pollProducts_created. Qed.

Lemma cycle_product_updated context w items :
  param_event context = "product.updated" →
  truthy (lastPollTime (static w)) = true →
  helpers_request context (page "/products") = Answers (JArray items) →
  poll Date_valueOf context w
  = (Resolved (pack (map (emit "product.updated")
                       (List.filter
                          (product_updated Date_valueOf (default "" (lastPollTime (static w)))
                             (default [] (knownIds (static w))))
                          items))),
     mkWorld (set_knownIds (map entityId items) (stamped context w))
       (sent w ++ [page "/products"])).
Proof. run_cycle pollProducts_updated. Qed.

Lemma cycle_salesOrder_created context w orders :
  param_event context = "salesOrder.created" →
  truthy (lastPollTime (static w)) = true →
  helpers_request context (page "/salesOrders") = Answers (JArray orders) →
  poll Date_valueOf context w
  = (Resolved (pack (map (emit "salesOrder.created")
                       (List.filter (is_new (default [] (salesOrderIds (static w))))
                          orders))),
     mkWorld (set_salesOrderStatuses (statuses_of orders)
                (set_salesOrderIds (map entityId orders) (stamped context w)))
       (sent w ++ [page "/salesOrders"])).
Proof. run_cycle pollSalesOrders_created. Qed.

Lemma cycle_salesOrder_updated context w orders :
  param_event context = "salesOrder.updated" →
  truthy (lastPollTime (static w)) = true →
  helpers_request context (page "/salesOrders") = Answers (JArray orders) →
  poll Date_valueOf context w
  = (Resolved (pack (map (emit "salesOrder.updated")
                       (List.filter
                          (salesOrder_updated Date_valueOf (default "" (lastPollTime (static w)))
                             (default [] (salesOrderIds (static w))))
                          orders))),
     mkWorld (set_salesOrderStatuses (statuses_of orders)
                (set_salesOrderIds (map entityId orders) (stamped context w)))
       (sent w ++ [page "/salesOrders"])).
Proof. run_cycle pollSalesOrders_updated. Qed.

Lemma cycle_salesOrder_fulfilled context w orders :
  param_event context = "salesOrder.fulfilled" →
  truthy (lastPollTime (static w)) = true →
  helpers_request context (page "/salesOrders") = Answers (JArray orders) →
  poll Date_valueOf context w
  = (Resolved (pack (map (emit "salesOrder.fulfilled")
                       (List.filter
                          (salesOrder_fulfilled
                             (default ∅ (salesOrderStatuses (static w))))
                          orders))),
     mkWorld (set_salesOrderStatuses (statuses_of orders)
                (set_salesOrderIds (map entityId orders) (stamped context w)))
       (sent w ++ [page "/salesOrders"])).
Proof. run_cycle pollSalesOrders_fulfilled. Qed.

Lemma cycle_purchaseOrder_created context w orders :
  param_event context = "purchaseOrder.created" →
  truthy (lastPollTime (static w)) = true →
  helpers_request context (page "/purchaseOrders") = Answers (JArray orders) →
  poll Date_valueOf context w
  = (Resolved (pack (map (emit "purchaseOrder.created")
                       (List.filter (is_new (default [] (purchaseOrderIds (static w))))
                          orders))),
     mkWorld (set_purchaseOrderStatuses (statuses_of orders)
                (set_purchaseOrderIds (map entityId orders) (stamped context w)))
       (sent w ++ [page "/purchaseOrders"])).
Proof. run_cycle pollPurchaseOrders_created. Qed.

Lemma cycle_purchaseOrder_received context w orders :
  param_event context = "purchaseOrder.received" →
  truthy (lastPollTime (static w)) = true →
  helpers_request context (page "/purchaseOrders") = Answers (JArray orders) →
  poll Date_valueOf context w
  = (Resolved (pack (map (emit "purchaseOrder.received")
                       (List.filter
                          (purchaseOrder_received
                             (default ∅ (purchaseOrderStatuses (static w))))
                          orders))),
     mkWorld (set_purchaseOrderStatuses (statuses_of orders)
                (set_purchaseOrderIds (map entityId orders) (stamped context w)))
       (sent w ++ [page "/purchaseOrders"])).
Proof. run_cycle pollPurchaseOrders_received. Qed.

Lemma cycle_stockAdjustment_created context w adjustments :
  param_event context = "stockAdjustment.created" →
  truthy (lastPollTime (static w)) = true →
  helpers_request context (page "/stockAdjustments") = Answers (JArray adjustments) →
  poll Date_valueOf context w
  = (Resolved (pack (map (emit "stockAdjustment.created")
                       (List.filter
                          (is_new (default [] (stockAdjustmentIds (static w))))
                          adjustments))),
     mkWorld (set_stockAdjustmentIds (map entityId adjustments) (stamped context w))
       (sent w ++ [page "/stockAdjustments"])).
Proof.
  intros Hev Hlast Hreq. eapply poll_detect; [done|].
  rewrite Hev. apply try_catch_resolved.
  exact (pollStockAdjustments_array _ _ _ Hreq).
Qed.

Lemma cycle_stockTransfer_completed context w transfers :
  param_event context = "stockTransfer.completed" →
  truthy (lastPollTime (static w)) = true →
  helpers_request context (page "/stockTransfers") = Answers (JArray transfers) →
  poll Date_valueOf context w
  = (Resolved (pack (map (emit "stockTransfer.completed")
                       (List.filter
                          (stockTransfer_completed
                             (default ∅ (stockTransferStatuses (static w))))
                          transfers))),
     mkWorld (set_stockTransferStatuses (statuses_of transfers) (stamped context w))
       (sent w ++ [page "/stockTransfers"])).
Proof.
  intros Hev Hlast Hreq. eapply poll_detect; [done|].
  rewrite Hev. apply try_catch_resolved.
  exact (pollStockTransfers_completed _ _ _ Hreq).
Qed.

Lemma cycle_inventory_changed context w inventory :
  param_event context = "inventory.changed" →
  truthy (lastPollTime (static w)) = true →
  helpers_request context (report (param_options context))
  = Answers (JArray inventory) →
  poll Date_valueOf context w
  = (Resolved (pack (map (inventory_event (default ∅ (inventorySnapshot (static w))))
                       (List.filter
                          (inventory_changed
                             (default ∅ (inventorySnapshot (static w))))
                          inventory))),
     mkWorld (set_inventorySnapshot (quantities_of inventory) (stamped context w))
       (sent w ++ [report (param_options context)])).
Proof.
  intros Hev Hlast Hreq. eapply poll_detect; [done|].
  rewrite Hev. apply try_catch_resolved.
  exact (pollInventoryChanges_array _ _ _ _ Hreq).
Qed.

(** *** The tests, in the words of the statements *)

Lemma truthy_property_true (m : gmap string (option string)) (k : string) :
  truthy_property (prop m k) = true ↔
  (∃ s, m !! k = Some (Some s) ∧ s ≠ "") ∨ (m !! k = None ∧ k ∈ Object_prototype).
Proof.
  unfold truthy_property. destruct (prop m k) as [v| |] eqn:Hp.
  - apply prop_own in Hp. rewrite Hp, truthy_Some. split.
    + intros (s & -> & Hs). left. by exists s.
    + intros [(s & [= ->] & Hs) | [? _]]; [by exists s | done].
  - apply prop_inherited in Hp as (Hp & Hk & _). split; [by right | done].
  - apply prop_undefined in Hp as [Hp Hk]. rewrite Hp. split; [done|].
    intros [(s & ? & _) | [_ ?]]; done.
Qed.

Lemma salesOrder_fulfilled_iff knownStatuses r :
  salesOrder_fulfilled knownStatuses r = true ↔ fulfilled_transition knownStatuses r.
Proof.
  unfold salesOrder_fulfilled, fulfilled_transition.
  rewrite !andb_true_iff, strict_eq_true, truthy_property_true, negb_true_iff.
  split.
  - intros [[Hs [(previous & Hp & Hne) | Hin]] Hnf]; (split; [done|]); [|by right].
    left. exists previous. split_and!; [done..|].
    intros ->. apply not_true_iff_false in Hnf. apply Hnf.
    by apply property_eq_true.
  - intros [Hs Hprev]. split_and!; [done|..].
    + destruct Hprev as [(previous & Hp & Hne & _) | Hin]; [left; by exists previous | by right].
    + apply not_true_iff_false. intros Hf%property_eq_true.
      destruct Hprev as [(previous & Hp & _ & Hnf) | [Hp _]]; congruence.
Qed.

Lemma purchaseOrder_received_iff knownStatuses r :
  purchaseOrder_received knownStatuses r = true ↔
  (status r = Some "Received" ∨ status r = Some "PartiallyReceived") ∧
  knownStatuses !! entityId r = Some (Some "Open").
Proof.
  unfold purchaseOrder_received.
  by rewrite andb_true_iff, orb_true_iff, !strict_eq_true, property_eq_true.
Qed.

Lemma stockTransfer_completed_iff knownStatuses r :
  stockTransfer_completed knownStatuses r = true ↔
  status r = Some "Completed" ∧ knownStatuses !! entityId r = Some (Some "Open").
Proof.
  unfold stockTransfer_completed.
  by rewrite andb_true_iff, !strict_eq_true, property_eq_true.
Qed.

(** X30. In a detection cycle of salesOrder.fulfilled, the events handed to
    the scheduler are exactly the fulfilled events of the snapshot records
    whose new status is "Fulfilled" and for whose id the status dictionary of
    the checkpoint gives something truthy other than "Fulfilled", one per such
    record and in snapshot order.  What the dictionary gives is the recorded
    status or, for an id without recorded status that names a member of
    [Object.prototype], that member.  So a record whose recorded status is
    the empty string yields no event; a record without recorded status yields
    none unless its id is such a name, and then it yields one as soon as its
    status is "Fulfilled". *)
Theorem salesOrder_fulfilled_semantics context w orders :
  param_event context = "salesOrder.fulfilled" →
  truthy (lastPollTime (static w)) = true →
  helpers_request context (page "/salesOrders") = Answers (JArray orders) →
  ∃ r w',
    poll Date_valueOf context w = (Resolved r, w') ∧
    emitted r
    = map (emit "salesOrder.fulfilled")
        (List.filter (salesOrder_fulfilled (default ∅ (salesOrderStatuses (static w))))
           orders) ∧
    (∀ e, e ∈ emitted r ↔
       ∃ order, order ∈ orders ∧
         fulfilled_transition (default ∅ (salesOrderStatuses (static w))) order ∧
         e = emit "salesOrder.fulfilled" order) ∧
    (∀ order,
       default ∅ (salesOrderStatuses (static w)) !! entityId order = None →
       entityId order ∉ Object_prototype →
       emit "salesOrder.fulfilled" order ∉ emitted r) ∧
    (∀ order,
       default ∅ (salesOrderStatuses (static w)) !! entityId order = Some (Some "") →
       emit "salesOrder.fulfilled" order ∉ emitted r) ∧
    (∀ order,
       order ∈ orders →
       status order = Some "Fulfilled" →
       default ∅ (salesOrderStatuses (static w)) !! entityId order = None →
       entityId order ∈ Object_prototype →
       emit "salesOrder.fulfilled" order ∈ emitted r).
Proof.
  intros Hev Hlast Hreq. eexists _, _.
  split; [by apply cycle_salesOrder_fulfilled|].
  rewrite emitted_pack. split; [done|].
  assert (Hiff : ∀ e,
    e ∈ map (emit "salesOrder.fulfilled")
          (List.filter
             (salesOrder_fulfilled (default ∅ (salesOrderStatuses (static w)))) orders)
    ↔ ∃ order, order ∈ orders ∧
        fulfilled_transition (default ∅ (salesOrderStatuses (static w))) order ∧
        e = emit "salesOrder.fulfilled" order).
  { intros e. rewrite elem_of_map_filter.
    by setoid_rewrite salesOrder_fulfilled_iff. }
  split; [done|]. split_and!.
  - intros order Hnone Hplain Hin. apply Hiff in Hin as (o & _ & [_ Hprev] & Heq).
    apply emit_inj in Heq as ->.
    destruct Hprev as [(previous & Hp & _) | [_ Hproto]]; [congruence | done].
  - intros order Hempty Hin. apply Hiff in Hin as (o & _ & [_ Hprev] & Heq).
    apply emit_inj in Heq as ->.
    destruct Hprev as [(previous & Hp & Hne & _) | [Hp _]]; congruence.
  - intros order Hin Hs Hnone Hproto. apply Hiff. exists order.
    split_and!; [done| |done]. split; [done | by right].
Qed.

Lemma updated_since_iff lastPollTime r :
  updated_since Date_valueOf lastPollTime r = true ↔ updated_after Date_valueOf lastPollTime r.
Proof.
  unfold updated_since, updated_after, date_gt.
  destruct (updatedAt r) as [u|]; [|split; [done | by intros (u & t & t0 & ? & _)]].
  rewrite andb_true_iff, truthy_Some. split.
  - intros [(s & [= <-] & Hne) Hgt].
    destruct (Date_valueOf u) as [t|] eqn:Hu; [|done].
    destruct (Date_valueOf lastPollTime) as [t0|] eqn:Hl; [|done].
    apply Z.ltb_lt in Hgt. by exists u, t, t0.
  - intros (u' & t & t0 & [= <-] & Hne & -> & -> & Hlt).
    split; [by exists u|]. by apply Z.ltb_lt.
Qed.

Lemma filter_is_new_self (l : list IDataObject) :
  List.filter (is_new (map entityId l)) l = [].
Proof.
  assert (H : ∀ l', (∀ x, x ∈ l' → x ∈ l) → List.filter (is_new (map entityId l)) l' = []).
  { induction l' as [|x l' IH]; intros Hsub; [done|]. simpl.
    assert (Hx : is_new (map entityId l) x = false).
    { unfold is_new. apply negb_false_iff, includes_true.
      apply list_elem_of_fmap. exists x. split; [done|]. apply Hsub. by left. }
    rewrite Hx. apply IH. intros y Hy. apply Hsub. by right. }
  by apply H.
Qed.

(** C4. In a detection cycle of a created event, the events handed to the
    scheduler are one created event for each snapshot record whose id is not
    in the known-id set of the checkpoint, in snapshot order, and none for the
    records whose id is in it; afterwards the known-id set is the list of ids
    of the snapshot; and a further cycle on the same snapshot returns null. *)
Theorem created_semantics context w items :
  param_event context ∈
    ["product.created"; "salesOrder.created"; "purchaseOrder.created";
     "stockAdjustment.created"] →
  truthy (lastPollTime (static w)) = true →
  helpers_request context (page (collection (param_event context)))
  = Answers (JArray items) →
  ∃ r w',
    poll Date_valueOf context w = (Resolved r, w') ∧
    emitted r
    = map (emit (param_event context))
        (List.filter (is_new (tracked_ids (param_event context) (static w))) items) ∧
    (∀ e, e ∈ emitted r ↔
       ∃ item, item ∈ items ∧
         (entityId item ∉ tracked_ids (param_event context) (static w)) ∧
         e = emit (param_event context) item) ∧
    tracked_ids (param_event context) (static w') = map entityId items ∧
    (∀ context',
       param_event context' = param_event context →
       helpers_request context' (page (collection (param_event context)))
       = Answers (JArray items) →
       ∃ w'', poll Date_valueOf context' w' = (Resolved None, w'')).
Proof.
  intros Hev Hlast Hreq.
  assert (Hiff : ∀ name known e,
    e ∈ map (emit name) (List.filter (is_new known) items)
    ↔ ∃ item, item ∈ items ∧ (entityId item ∉ known) ∧ e = emit name item).
  { intros name known e. rewrite elem_of_map_filter. unfold is_new.
    by setoid_rewrite negb_true_iff; setoid_rewrite includes_false. }
  assert (Hagain : ∀ context' (w1 : World) name,
    (truthy (lastPollTime (static w1)) = true →
     poll Date_valueOf context' w1
     = (Resolved (pack (map (emit name)
                          (List.filter (is_new (map entityId items)) items))),
        (poll Date_valueOf context' w1).2)) →
    ∃ w'', poll Date_valueOf context' w1 = (Resolved None, w'')).
  { intros context' w1 name Hcycle.
    destruct (truthy (lastPollTime (static w1))) eqn:Hl.
    - rewrite filter_is_new_self in Hcycle. eexists. by apply Hcycle.
    - eexists. by apply poll_bootstrap. }
  repeat (apply elem_of_cons in Hev as [Hev | Hev]); [..|by apply elem_of_nil in Hev];
    rewrite Hev in Hreq |- *; eexists _, _.
  - split; [by apply cycle_product_created|]. rewrite emitted_pack.
    split_and!; [done|apply Hiff|done|].
    intros context' Hev' Hreq'.
    apply (Hagain _ _ "product.created"). intros Hl.
    by rewrite (cycle_product_created context' _ items).
  - split; [by apply cycle_salesOrder_created|]. rewrite emitted_pack.
    split_and!; [done|apply Hiff|done|].
    intros context' Hev' Hreq'.
    apply (Hagain _ _ "salesOrder.created"). intros Hl.
    by rewrite (cycle_salesOrder_created context' _ items).
  - split; [by apply cycle_purchaseOrder_created|]. rewrite emitted_pack.
    split_and!; [done|apply Hiff|done|].
    intros context' Hev' Hreq'.
    apply (Hagain _ _ "purchaseOrder.created"). intros Hl.
    by rewrite (cycle_purchaseOrder_created context' _ items).
  - split; [by apply cycle_stockAdjustment_created|]. rewrite emitted_pack.
    split_and!; [done|apply Hiff|done|].
    intros context' Hev' Hreq'.
    apply (Hagain _ _ "stockAdjustment.created"). intros Hl.
    by rewrite (cycle_stockAdjustment_created context' _ items).
Qed.

(** C5. In a detection cycle of an updated event, the events handed to the
    scheduler are exactly the updated events of the snapshot records whose id
    is in the known-id set of the checkpoint and whose [updatedAt] is strictly
    later than the [lastPollTime] of the checkpoint; a record whose id is not
    in the checkpoint yields no updated event, whatever its [updatedAt]. *)
Theorem updated_semantics context w items :
  param_event context ∈ ["product.updated"; "salesOrder.updated"] →
  truthy (lastPollTime (static w)) = true →
  helpers_request context (page (collection (param_event context)))
  = Answers (JArray items) →
  ∃ r w',
    poll Date_valueOf context w = (Resolved r, w') ∧
    emitted r
    = map (emit (param_event context))
        (List.filter
           (λ item,
              includes (tracked_ids (param_event context) (static w)) (entityId item)
              && updated_since Date_valueOf (default "" (lastPollTime (static w))) item)
           items) ∧
    (∀ e, e ∈ emitted r ↔
       ∃ item, item ∈ items ∧
         entityId item ∈ tracked_ids (param_event context) (static w) ∧
         updated_after Date_valueOf (default "" (lastPollTime (static w))) item ∧
         e = emit (param_event context) item) ∧
    (∀ item, entityId item ∉ tracked_ids (param_event context) (static w) →
       emit (param_event context) item ∉ emitted r).
Proof.
  intros Hev Hlast Hreq.
  assert (Hiff : ∀ name known e,
    e ∈ map (emit name)
          (List.filter
             (λ item, includes known (entityId item)
                      && updated_since Date_valueOf
                           (default "" (lastPollTime (static w))) item) items)
    ↔ ∃ item, item ∈ items ∧ entityId item ∈ known ∧
        updated_after Date_valueOf (default "" (lastPollTime (static w))) item ∧
        e = emit name item).
  { intros name known e. rewrite elem_of_map_filter.
    setoid_rewrite andb_true_iff. setoid_rewrite includes_true.
    setoid_rewrite updated_since_iff. split.
    - intros (x & Hin & [Hk Hu] & ->). by exists x.
    - intros (x & Hin & Hk & Hu & ->). by exists x. }
  assert (Hnot : ∀ name known item,
    entityId item ∉ known →
    emit name item ∉
      map (emit name)
        (List.filter
           (λ item, includes known (entityId item)
                    && updated_since Date_valueOf
                         (default "" (lastPollTime (static w))) item) items)).
  { intros name known item Hnotin Hin.
    apply Hiff in Hin as (item' & _ & Hk & _ & Heq).
    apply emit_inj in Heq as ->. done. }
  repeat (apply elem_of_cons in Hev as [Hev | Hev]); [..|by apply elem_of_nil in Hev];
    rewrite Hev in Hreq |- *; eexists _, _.
  - split; [by apply cycle_product_updated|]. rewrite emitted_pack.
    assert (Hsame :
      List.filter
        (product_updated Date_valueOf (default "" (lastPollTime (static w)))
           (default [] (knownIds (static w)))) items
      = List.filter
          (λ item, includes (tracked_ids "product.updated" (static w)) (entityId item)
                   && updated_since Date_valueOf
                        (default "" (lastPollTime (static w))) item) items).
    { apply filter_ext. intros item. unfold product_updated. apply andb_comm. }
    rewrite Hsame. split_and!; [done|apply Hiff|apply Hnot].
  - split; [by apply cycle_salesOrder_updated|]. rewrite emitted_pack.
    split_and!; [done|apply Hiff|apply Hnot].
Qed.

(** C7. In a detection cycle of purchaseOrder.received or of
    stockTransfer.completed, every event handed to the scheduler is the event
    of a snapshot record whose recorded previous status is exactly "Open"
    (and, for stockTransfer.completed, whose new status is "Completed"); a
    record with no recorded previous status, or with a recorded previous
    status other than "Open", yields no event. *)
Theorem open_predecessor_required context w items :
  param_event context ∈ ["purchaseOrder.received"; "stockTransfer.completed"] →
  truthy (lastPollTime (static w)) = true →
  helpers_request context (page (collection (param_event context)))
  = Answers (JArray items) →
  ∃ r w',
    poll Date_valueOf context w = (Resolved r, w') ∧
    (∀ e, e ∈ emitted r →
       ∃ item, item ∈ items ∧ e = emit (param_event context) item ∧
         recorded_statuses (param_event context) (static w) !! entityId item
         = Some (Some "Open") ∧
         (param_event context = "stockTransfer.completed" →
          status item = Some "Completed")) ∧
    (∀ item,
       recorded_statuses (param_event context) (static w) !! entityId item
       ≠ Some (Some "Open") →
       emit (param_event context) item ∉ emitted r).
Proof.
  intros Hev Hlast Hreq.
  repeat (apply elem_of_cons in Hev as [Hev | Hev]); [..|by apply elem_of_nil in Hev];
    rewrite Hev in Hreq |- *; eexists _, _.
  - split; [by apply cycle_purchaseOrder_received|]. rewrite emitted_pack. split.
    + intros e (item & Hin & [_ Hopen]%purchaseOrder_received_iff & ->)%elem_of_map_filter.
      exists item. by split_and!.
    + intros item Hno (item' & _ & [_ Hopen]%purchaseOrder_received_iff & Heq)%elem_of_map_filter.
      apply emit_inj in Heq as ->. done.
  - split; [by apply cycle_stockTransfer_completed|]. rewrite emitted_pack. split.
    + intros e (item & Hin & [Hst Hopen]%stockTransfer_completed_iff & ->)%elem_of_map_filter.
      exists item. by split_and!.
    + intros item Hno (item' & _ & [_ Hopen]%stockTransfer_completed_iff & Heq)%elem_of_map_filter.
      apply emit_inj in Heq as ->. done.
Qed.

(** A dictionary filled by a loop holds, for each key other than [__proto__],
    the value of the last record with that key; the key [__proto__] is left
    as it was. *)
Lemma fold_assign_lookup {V} (key : IDataObject → string) (val : IDataObject → V)
    (l : list IDataObject) (m : gmap string V) (k : string) :
  k ≠ "__proto__" →
  fold_left (λ m r, assign m (key r) (val r)) l m !! k
  = match last (List.filter (λ r, bool_decide (key r = k)) l) with
    | Some r => Some (val r)
    | None => m !! k
    end.
Proof.
  intros Hk. revert m. induction l as [|x l IH]; intros m; [done|].
  simpl fold_left. rewrite IH. simpl List.filter.
  destruct (bool_decide (key x = k)) eqn:Hx.
  - apply bool_decide_eq_true in Hx.
    destruct (List.filter _ l) as [|y l'] eqn:Hf; simpl.
    + rewrite lookup_assign. by rewrite bool_decide_eq_true_2.
    + destruct (last (y :: l')) as [r|] eqn:Hlast; [done|].
      by apply last_None in Hlast.
  - apply bool_decide_eq_false in Hx.
    destruct (last _); [done|]. rewrite lookup_assign.
    rewrite bool_decide_eq_false_2; [done|]. by intros [? _].
Qed.

Lemma fold_assign_proto {V} (key : IDataObject → string) (val : IDataObject → V)
    (l : list IDataObject) (m : gmap string V) :
  fold_left (λ m r, assign m (key r) (val r)) l m !! "__proto__" = m !! "__proto__".
Proof.
  revert m. induction l as [|x l IH]; intros m; [done|].
  simpl fold_left. rewrite IH, lookup_assign.
  rewrite bool_decide_eq_false_2; [done|]. by intros [_ ?].
Qed.

Lemma filter_key_unique (key : IDataObject → string) (l : list IDataObject)
    (row : IDataObject) :
  NoDup (map key l) → row ∈ l →
  List.filter (λ r, bool_decide (key r = key row)) l = [row].
Proof.
  induction l as [|x l IH]; intros Hnd Hin; [by apply elem_of_nil in Hin|].
  simpl in Hnd. apply NoDup_cons in Hnd as [Hx Hnd]. simpl List.filter.
  apply elem_of_cons in Hin as [-> | Hin].
  - rewrite bool_decide_eq_true_2 by done. f_equal.
    clear IH Hnd. induction l as [|y l IH]; [done|]. simpl.
    rewrite bool_decide_eq_false_2.
    + apply IH. intros Hin. apply Hx. by right.
    + intros Heq. apply Hx. rewrite <- Heq. by left.
  - rewrite bool_decide_eq_false_2; [by apply IH|].
    intros Heq. apply Hx. rewrite Heq. apply list_elem_of_fmap. by exists row.
Qed.


Lemma elem_of_filter_key (key : IDataObject → string) (l : list IDataObject)
    (k : string) (r : IDataObject) :
  r ∈ List.filter (λ r, bool_decide (key r = k)) l ↔ r ∈ l ∧ key r = k.
Proof.
  rewrite list_elem_of_In, filter_In, <- list_elem_of_In.
  by rewrite bool_decide_eq_true.
Qed.

(** A status that the dictionary of a snapshot holds is the status of one of
    the records of the snapshot. *)
Lemma statuses_of_lookup (l : list IDataObject) (id : string) (s : option string) :
  statuses_of l !! id = Some s → ∃ r, r ∈ l ∧ entityId r = id ∧ status r = s.
Proof.
  unfold statuses_of. destruct (decide (id = "__proto__")) as [->|Hid].
  - by rewrite fold_assign_proto, lookup_empty.
  - rewrite fold_assign_lookup by done.
    destruct (last _) as [r|] eqn:Hlast; [|by rewrite lookup_empty].
    intros [= <-]. apply last_Some in Hlast as [l' Hl'].
    assert (Hr : r ∈ List.filter (λ r, bool_decide (entityId r = id)) l).
    { rewrite Hl'. apply elem_of_app. right. by left. }
    apply elem_of_filter_key in Hr as [Hin Hrid]. by exists r.
Qed.



Lemma filter_none {A} (f : A → bool) (l : list A) :
  (∀ x, x ∈ l → f x = false) → List.filter f l = [].
Proof.
  induction l as [|x l IH]; intros Hall; [done|]. simpl.
  rewrite (Hall x) by (by left). apply IH. intros y Hy. apply Hall. by right.
Qed.





(** C2 (amended). When every request fails during a detection cycle, [poll]
    returns null without raising, and the static data afterwards is the one
    before the cycle except for [lastPollTime], which holds the time of the
    failed cycle: the tracked ids, statuses and quantities are untouched. *)
Theorem fetch_failure_keeps_snapshots context w :
  truthy (lastPollTime (static w)) = true →
  unreachable context →
  ∃ requests,
    poll Date_valueOf context w
    = (Resolved None,
       mkWorld (set_lastPollTime (now_toISOString context) (static w))
         (sent w ++ requests)).
Proof.
  intros Hlast Hdown.
  destruct (detectChanges_unreachable context (param_event context)
              (param_options context) (default "" (lastPollTime (static w)))
              (mkWorld (set_lastPollTime (now_toISOString context) (static w)) (sent w))
              Hdown) as [requests Hdetect].
  exists requests. by rewrite (poll_detect _ _ _ _ Hlast Hdetect).
Qed.

(** C8 (amended). An event that is not among the supported ones is not
    rejected: [poll] returns normally for it, and when its resource type is
    none of those [detectChanges] dispatches on, [poll] returns null. *)
Theorem unsupported_event_not_rejected context w :
  supported (param_event context) = false →
  (∃ r w', poll Date_valueOf context w = (Resolved r, w')) ∧
  (handled (param_event context) = false →
   ∃ w', poll Date_valueOf context w = (Resolved None, w')).
Proof.
  intros _. split; [apply poll_resolves|]. intros Hh.
  destruct (truthy (lastPollTime (static w))) eqn:Hlast.
  - exists (mkWorld (stamped context w) (sent w)).
    rewrite (poll_detect context w [] (mkWorld (stamped context w) (sent w)));
      [done..|].
    by apply detectChanges_unhandled.
  - eexists. by apply poll_bootstrap.
Qed.

(** *** The first cycle and the filters *)

(** On its first cycle [poll] returns null and, for an event that has an
    endpoint answering with an array, stores the fetched ids under
    [knownIds], whatever the resource watched. *)
Lemma bootstrap_stores_knownIds context w path items :
  truthy (lastPollTime (static w)) = false →
  getEndpointForEvent (param_event context) = Some path →
  helpers_request context (page path) = Answers (JArray items) →
  poll Date_valueOf context w
  = (Resolved None,
     mkWorld (set_knownIds (map entityId items) (stamped context w))
       (sent w ++ [page path])).
Proof.
  intros Hfirst Hpath Hreq. rewrite poll_bootstrap by done.
  unfold initializePollingState. rewrite Hpath.
  unfold try_catch, mbind, Async_bind.
  by rewrite (inFlowApiRequest_answers _ _ _ _ _ (JArray items)), page_query
    by (by rewrite page_query).
Qed.

(** An event without endpoint, such as inventory.changed, fetches nothing on
    its first cycle. *)
Lemma bootstrap_without_endpoint context w :
  truthy (lastPollTime (static w)) = false →
  getEndpointForEvent (param_event context) = None →
  poll Date_valueOf context w
  = (Resolved None, mkWorld (stamped context w) (sent w)).
Proof.
  intros Hfirst Hnone. rewrite poll_bootstrap by done.
  unfold initializePollingState. by rewrite Hnone.
Qed.

(** The category filter is never read: changing it changes nothing. *)
Lemma categoryId_never_read context category w :
  poll Date_valueOf
    (mkContext (param_event context)
       (mkOptions (locationId (param_options context)) category)
       (helpers_request context) (now_toISOString context)) w
  = poll Date_valueOf context w.
Proof. reflexivity. Qed.

(** The location filter is read by the inventory watch only. *)
Lemma locationId_read_for_inventory_only context location w :
  resourceType (param_event context) ≠ Some "inventory" →
  truthy (lastPollTime (static w)) = true →
  poll Date_valueOf
    (mkContext (param_event context)
       (mkOptions location (categoryId (param_options context)))
       (helpers_request context) (now_toISOString context)) w
  = poll Date_valueOf context w.
Proof.
  intros Hres Hlast. unfold poll, mbind, Async_bind, getWorkflowStaticData, update.
  rewrite Hlast. change (negb true) with false. cbv beta iota.
  unfold detectChanges. cbn [param_event param_options].
  fold (resourceType (param_event context)).
  destruct (strict_eq _ "product"); [done|].
  destruct (strict_eq _ "salesOrder"); [done|].
  destruct (strict_eq _ "purchaseOrder"); [done|].
  destruct (strict_eq _ "stockAdjustment"); [done|].
  destruct (strict_eq _ "stockTransfer"); [done|].
  destruct (strict_eq _ "inventory") eqn:Hinv; [|done].
  by apply strict_eq_true in Hinv.
Qed.


(** *** Any answer: what a cycle sends and what it leaves alone *)

(** Whatever the service answers, a request appends itself to the requests
    sent and leaves the static data alone. *)
Lemma inFlowApiRequest_cases context m e b q w :
  ∃ o,
    inFlowApiRequest context m e b q w
    = (o, mkWorld (static w)
            (sent w ++ [mkRequest m e (if decide (b = []) then None else Some b)
                          (if decide (q = []) then None else Some q)])).
Proof.
  unfold inFlowApiRequest, try_catch, request.
  destruct (helpers_request _ _); by eexists.
Qed.

Ltac any_answer :=
  unfold mbind, Async_bind, getWorkflowStaticData, update, mret, Async_ret;
  match goal with
  | |- context [inFlowApiRequest ?c ?m ?e ?b ?q ?w] =>
      let o := fresh "o" in
      let Ho := fresh "Ho" in
      destruct (inFlowApiRequest_cases c m e b q w) as [o Ho];
      rewrite Ho; clear Ho;
      destruct o as [[?|?]|?]; cbv beta iota;
      repeat match goal with
      | |- context [fold_left ?f ?l (?a, ?b)] => destruct (fold_left f l (a, b))
      end;
      eexists _, _; (split; [reflexivity|]); eauto
  end.

Lemma pollProducts_any context act lpt w :
  ∃ o d',
    pollProducts Date_valueOf context act lpt w
    = (o, mkWorld d' (sent w ++ [page "/products"])) ∧
    (d' = static w ∨ ∃ ids, d' = set_knownIds ids (static w)).
Proof. unfold pollProducts. any_answer. Qed.

Lemma pollSalesOrders_any context act lpt w :
  ∃ o d',
    pollSalesOrders Date_valueOf context act lpt w
    = (o, mkWorld d' (sent w ++ [page "/salesOrders"])) ∧
    (d' = static w ∨
     ∃ ids sts, d' = set_salesOrderStatuses sts (set_salesOrderIds ids (static w))).
Proof. unfold pollSalesOrders. any_answer. Qed.

Lemma pollPurchaseOrders_any context act lpt w :
  ∃ o d',
    pollPurchaseOrders context act lpt w
    = (o, mkWorld d' (sent w ++ [page "/purchaseOrders"])) ∧
    (d' = static w ∨
     ∃ ids sts,
       d' = set_purchaseOrderStatuses sts (set_purchaseOrderIds ids (static w))).
Proof. unfold pollPurchaseOrders. any_answer. Qed.

Lemma pollStockAdjustments_any context w :
  ∃ o d',
    pollStockAdjustments context w
    = (o, mkWorld d' (sent w ++ [page "/stockAdjustments"])) ∧
    (d' = static w ∨ ∃ ids, d' = set_stockAdjustmentIds ids (static w)).
Proof. unfold pollStockAdjustments. any_answer. Qed.

Lemma pollStockTransfers_any context act w :
  ∃ o d',
    pollStockTransfers context act w
    = (o, mkWorld d' (sent w ++ [page "/stockTransfers"])) ∧
    (d' = static w ∨ ∃ sts, d' = set_stockTransferStatuses sts (static w)).
Proof. unfold pollStockTransfers. any_answer. Qed.

Lemma pollInventoryChanges_any context options w :
  ∃ o d',
    pollInventoryChanges context options w
    = (o, mkWorld d' (sent w ++ [report options])) ∧
    (d' = static w ∨ ∃ quantities, d' = set_inventorySnapshot quantities (static w)).
Proof.
  unfold pollInventoryChanges. pose proof (report_query options) as Hq.
  cbv zeta in Hq. rewrite <- Hq. any_answer.
Qed.


Lemma read_only_page (e : string) q : read_only [mkRequest "GET" e None q].
Proof. intros r ->%list_elem_of_singleton. done. Qed.

Lemma read_only_nil : read_only [].
Proof. intros r Hr. by apply elem_of_nil in Hr. Qed.

Ltac frame_of Hd Hres :=
  unfold untouched;
  repeat match type of Hd with
  | _ ∨ _ => destruct Hd as [Hd | Hd]
  | ∃ _, _ => destruct Hd as [? Hd]
  end;
  subst; simpl;
  split_and!; try done;
  intros Hne; exfalso; apply Hne; by apply strict_eq_true.

Lemma detectChanges_any context event options lpt w :
  ∃ changes d' requests,
    detectChanges Date_valueOf context event options lpt w
    = (Resolved changes, mkWorld d' (sent w ++ requests)) ∧
    (List.length requests ≤ 1)%nat ∧ read_only requests ∧
    lastPollTime d' = lastPollTime (static w) ∧
    untouched event (static w) d' ∧
    (resourceType event ≠ Some "product" → knownIds d' = knownIds (static w)).
Proof.
  unfold detectChanges. fold (resourceType event).
  destruct (strict_eq (resourceType event) "product") eqn:Hp.
  { destruct (pollProducts_any context (split_dot event !! 1%nat) lpt w)
      as (o & d' & Hrun & Hd).
    unfold try_catch. rewrite Hrun.
    destruct o; eexists _, d', _; (split; [reflexivity|]);
      (split; [simpl; lia|]); (split; [apply read_only_page|]); frame_of Hd Hp. }
  destruct (strict_eq (resourceType event) "salesOrder") eqn:Hs.
  { destruct (pollSalesOrders_any context (split_dot event !! 1%nat) lpt w)
      as (o & d' & Hrun & Hd).
    unfold try_catch. rewrite Hrun.
    destruct o; eexists _, d', _; (split; [reflexivity|]);
      (split; [simpl; lia|]); (split; [apply read_only_page|]); frame_of Hd Hs. }
  destruct (strict_eq (resourceType event) "purchaseOrder") eqn:Hpo.
  { destruct (pollPurchaseOrders_any context (split_dot event !! 1%nat) lpt w)
      as (o & d' & Hrun & Hd).
    unfold try_catch. rewrite Hrun.
    destruct o; eexists _, d', _; (split; [reflexivity|]);
      (split; [simpl; lia|]); (split; [apply read_only_page|]); frame_of Hd Hpo. }
  destruct (strict_eq (resourceType event) "stockAdjustment") eqn:Ha.
  { destruct (pollStockAdjustments_any context w) as (o & d' & Hrun & Hd).
    unfold try_catch. rewrite Hrun.
    destruct o; eexists _, d', _; (split; [reflexivity|]);
      (split; [simpl; lia|]); (split; [apply read_only_page|]); frame_of Hd Ha. }
  destruct (strict_eq (resourceType event) "stockTransfer") eqn:Ht.
  { destruct (pollStockTransfers_any context (split_dot event !! 1%nat) w)
      as (o & d' & Hrun & Hd).
    unfold try_catch. rewrite Hrun.
    destruct o; eexists _, d', _; (split; [reflexivity|]);
      (split; [simpl; lia|]); (split; [apply read_only_page|]); frame_of Hd Ht. }
  destruct (strict_eq (resourceType event) "inventory") eqn:Hi.
  { destruct (pollInventoryChanges_any context options w) as (o & d' & Hrun & Hd).
    unfold try_catch. rewrite Hrun.
    destruct o; eexists _, d', _; (split; [reflexivity|]);
      (split; [simpl; lia|]); (split; [apply read_only_page|]); frame_of Hd Hi. }
  exists [], (static w), []. unfold try_catch, mret, Async_ret. rewrite app_nil_r.
  split; [by destruct w|]. split; [simpl; lia|]. split; [apply read_only_nil|].
  unfold untouched. by split_and!.
Qed.

Lemma initializePollingState_any context event w :
  ∃ d' requests,
    initializePollingState context event w
    = (Resolved tt, mkWorld d' (sent w ++ requests)) ∧
    (List.length requests ≤ 1)%nat ∧ read_only requests ∧
    (d' = static w ∨ ∃ ids, d' = set_knownIds ids (static w)).
Proof.
  unfold initializePollingState.
  destruct (getEndpointForEvent event) as [path|].
  - unfold try_catch, mbind, Async_bind, update, mret, Async_ret.
    destruct (inFlowApiRequest_cases context "GET" path [] [("count", QNum 50)] w)
      as [o Ho].
    rewrite Ho.
    destruct o as [[items|text]|e]; cbv beta iota;
      eexists _, [_]; (split; [reflexivity|]);
      (split; [simpl; lia|]); (split; [apply read_only_page|]); eauto.
  - exists (static w), []. rewrite app_nil_r.
    split; [by destruct w|]. split; [simpl; lia|]. split; [apply read_only_nil|].
    by left.
Qed.

(** X1. Whatever the event, the static data and the answers of the service,
    a cycle sends at most one request, and that request is a GET without a
    body: the trigger never writes to the service. *)
Theorem poll_reads_at_most_once context w :
  ∃ r w' requests,
    poll Date_valueOf context w = (Resolved r, w') ∧
    sent w' = sent w ++ requests ∧
    (List.length requests ≤ 1)%nat ∧
    read_only requests.
Proof.
  destruct (truthy (lastPollTime (static w))) eqn:Hlast.
  - destruct (detectChanges_any context (param_event context) (param_options context)
                (default "" (lastPollTime (static w)))
                (mkWorld (stamped context w) (sent w)))
      as (changes & d' & requests & Hrun & Hlen & Hro & _).
    eexists _, _, requests. split; [by apply (poll_detect _ _ _ _ Hlast Hrun)|].
    done.
  - rewrite poll_bootstrap by done.
    destruct (initializePollingState_any context (param_event context)
                (mkWorld (stamped context w) (sent w)))
      as (d' & requests & Hrun & Hlen & Hro & _).
    unfold stamped in Hrun. rewrite Hrun. by eexists _, _, requests.
Qed.

(** X2. Every cycle stamps [lastPollTime] with the time of the cycle and
    leaves the keys of the other resources as they were: the ids and statuses
    of sales orders change only in a sales-order watch, and likewise for
    purchase orders, stock adjustments, stock transfers and the inventory
    snapshot; [knownIds] changes only in a product watch or on a first
    cycle. *)
Theorem poll_keeps_other_resources context w :
  ∃ r w',
    poll Date_valueOf context w = (Resolved r, w') ∧
    lastPollTime (static w') = Some (now_toISOString context) ∧
    untouched (param_event context) (static w) (static w') ∧
    (truthy (lastPollTime (static w)) = true →
     resourceType (param_event context) ≠ Some "product" →
     knownIds (static w') = knownIds (static w)).
Proof.
  destruct (truthy (lastPollTime (static w))) eqn:Hlast.
  - destruct (detectChanges_any context (param_event context) (param_options context)
                (default "" (lastPollTime (static w)))
                (mkWorld (stamped context w) (sent w)))
      as (changes & d' & requests & Hrun & _ & _ & Htime & Hframe & Hknown).
    eexists _, _. split; [by apply (poll_detect _ _ _ _ Hlast Hrun)|].
    simpl in *. split_and!; [done|done|]. intros _. exact Hknown.
  - rewrite poll_bootstrap by done.
    destruct (initializePollingState_any context (param_event context)
                (mkWorld (stamped context w) (sent w)))
      as (d' & requests & Hrun & _ & _ & Hd).
    unfold stamped in Hrun. rewrite Hrun. eexists _, _. split; [reflexivity|].
    split_and!; [| |done].
    + destruct Hd as [-> | [ids ->]]; done.
    + unfold untouched. destruct Hd as [-> | [ids ->]]; by split_and!.
Qed.


(** *** Answers that are not arrays, and failed first fetches *)

Lemma inFlowApiRequest_garbled context m e b q w :
  garbled context →
  ∃ text request,
    inFlowApiRequest context m e b q w
    = (Resolved (JOther text), mkWorld (static w) (sent w ++ [request])).
Proof.
  intros Hg.
  destruct (Hg (mkRequest m e (if decide (b = []) then None else Some b)
                  (if decide (q = []) then None else Some q))) as [text Ht].
  eexists _, _. by apply inFlowApiRequest_answers.
Qed.

Ltac fetch_garbled Hg :=
  unfold mbind, Async_bind, getWorkflowStaticData;
  match goal with
  | |- context [inFlowApiRequest ?c ?m ?e ?b ?q ?w] =>
      destruct (inFlowApiRequest_garbled c m e b q w Hg)
        as (text & request & ->);
      by exists [request]
  end.

Lemma detectChanges_garbled context event options lpt w :
  garbled context →
  ∃ requests,
    detectChanges Date_valueOf context event options lpt w
    = (Resolved [], mkWorld (static w) (sent w ++ requests)).
Proof.
  intros Hg. unfold detectChanges, try_catch.
  destruct (strict_eq _ "product"); [unfold pollProducts; fetch_garbled Hg|].
  destruct (strict_eq _ "salesOrder"); [unfold pollSalesOrders; fetch_garbled Hg|].
  destruct (strict_eq _ "purchaseOrder");
    [unfold pollPurchaseOrders; fetch_garbled Hg|].
  destruct (strict_eq _ "stockAdjustment");
    [unfold pollStockAdjustments; fetch_garbled Hg|].
  destruct (strict_eq _ "stockTransfer");
    [unfold pollStockTransfers; fetch_garbled Hg|].
  destruct (strict_eq _ "inventory");
    [unfold pollInventoryChanges; fetch_garbled Hg|].
  exists []. unfold mret, Async_ret. rewrite app_nil_r. by destruct w.
Qed.

(** X3. When the service answers with something that is not an array, a
    cycle, first or later and whatever the event, returns null and changes
    nothing in the static data but [lastPollTime]. *)
Theorem malformed_answer_changes_nothing context w :
  garbled context →
  ∃ requests,
    poll Date_valueOf context w
    = (Resolved None, mkWorld (stamped context w) (sent w ++ requests)).
Proof.
  intros Hg. destruct (truthy (lastPollTime (static w))) eqn:Hlast.
  - destruct (detectChanges_garbled context (param_event context)
                (param_options context) (default "" (lastPollTime (static w)))
                (mkWorld (stamped context w) (sent w)) Hg) as [requests Hrun].
    exists requests. by rewrite (poll_detect _ _ _ _ Hlast Hrun).
  - rewrite poll_bootstrap by done. unfold initializePollingState.
    destruct (getEndpointForEvent _) as [path|].
    + unfold try_catch, mbind, Async_bind.
      destruct (inFlowApiRequest_garbled context "GET" path [] [("count", QNum 50)]
                  (mkWorld (set_lastPollTime (now_toISOString context) (static w))
                     (sent w)) Hg) as (text & request & ->).
      by exists [request].
    + exists []. by rewrite app_nil_r.
Qed.

(** X4. When the fetch of the first cycle of a product.created watch fails,
    the cycle returns null and leaves an empty [knownIds]; the next cycle
    then reports every record of its snapshot as created. *)
Theorem failed_first_fetch_reports_all context context' w items :
  param_event context = "product.created" →
  param_event context' = "product.created" →
  truthy (lastPollTime (static w)) = false →
  truthy (Some (now_toISOString context)) = true →
  unreachable context →
  helpers_request context' (page "/products") = Answers (JArray items) →
  ∃ w' r' w'',
    poll Date_valueOf context w = (Resolved None, w') ∧
    knownIds (static w') = Some [] ∧
    poll Date_valueOf context' w' = (Resolved r', w'') ∧
    emitted r' = map (emit "product.created") items.
Proof.
  intros Hev Hev' Hfirst Hnow Hdown Hreq.
  assert (Hboot : poll Date_valueOf context w
                  = (Resolved None,
                     mkWorld (set_knownIds [] (stamped context w))
                       (sent w ++ [page "/products"]))).
  { rewrite poll_bootstrap by done. rewrite Hev.
    unfold initializePollingState, try_catch, mbind, Async_bind. simpl.
    destruct (Hdown (page "/products")) as [message Hm].
    by rewrite (inFlowApiRequest_fails _ _ _ _ _ message), page_query
      by (by rewrite page_query). }
  eexists _, _, _. split; [exact Hboot|]. split; [done|].
  split; [by apply cycle_product_created|].
  rewrite emitted_pack. simpl. f_equal.
  clear. induction items as [|x items IH]; [done|]. simpl. by rewrite IH.
Qed.


(** *** Cycles in sequence *)

Lemma statuses_of_unique (l : list IDataObject) (r : IDataObject) :
  NoDup (map entityId l) → r ∈ l → entityId r ≠ "__proto__" →
  statuses_of l !! entityId r = Some (status r).
Proof.
  intros Hnd Hin Hid. unfold statuses_of.
  by rewrite fold_assign_lookup, filter_key_unique.
Qed.

Lemma quantities_of_unique (l : list IDataObject) (r : IDataObject) :
  NoDup (map productId l) → r ∈ l → productId r ≠ "__proto__" →
  quantities_of l !! productId r = Some (quantityOnHand r).
Proof.
  intros Hnd Hin Hid. unfold quantities_of.
  by rewrite fold_assign_lookup, filter_key_unique.
Qed.

Lemma NoDup_key_inj (key : IDataObject → string) (l : list IDataObject)
    (r r' : IDataObject) :
  NoDup (map key l) → r ∈ l → r' ∈ l → key r = key r' → r = r'.
Proof.
  intros Hnd Hr Hr' Hkey.
  assert (Hone : r ∈ List.filter (λ x, bool_decide (key x = key r')) l).
  { by apply elem_of_filter_key. }
  rewrite filter_key_unique in Hone by done.
  by apply list_elem_of_singleton in Hone.
Qed.

(** When a later cycle would be a detection cycle returning the events of an
    empty list, it returns null; otherwise it is a first cycle, which
    returns null as well. *)
Lemma next_cycle_null context w :
  (truthy (lastPollTime (static w)) = true →
   ∃ w', poll Date_valueOf context w = (Resolved (pack []), w')) →
  ∃ w', poll Date_valueOf context w = (Resolved None, w').
Proof.
  intros Hcycle. destruct (truthy (lastPollTime (static w))) eqn:Hl.
  - by apply Hcycle.
  - eexists. by apply poll_bootstrap.
Qed.

(** X5. A status watch stays quiet on an unchanged snapshot: when a detection
    cycle of salesOrder.fulfilled, purchaseOrder.received or
    stockTransfer.completed has seen a snapshot whose ids are distinct, the
    next cycle on the same snapshot returns null.  For salesOrder.fulfilled
    the snapshot must hold no record with the id [__proto__], the one id
    whose status is never recorded. *)
Theorem status_watch_quiet_when_unchanged context context' w items :
  param_event context ∈
    ["salesOrder.fulfilled"; "purchaseOrder.received"; "stockTransfer.completed"] →
  param_event context' = param_event context →
  truthy (lastPollTime (static w)) = true →
  helpers_request context (page (collection (param_event context)))
  = Answers (JArray items) →
  helpers_request context' (page (collection (param_event context)))
  = Answers (JArray items) →
  NoDup (map entityId items) →
  (param_event context = "salesOrder.fulfilled" →
   "__proto__" ∉ map entityId items) →
  ∃ r w' w'',
    poll Date_valueOf context w = (Resolved r, w') ∧
    poll Date_valueOf context' w' = (Resolved None, w'').
Proof.
  intros Hev Hev' Hlast Hreq Hreq' Hnd Hproto.
  assert (Hopen : ∀ o s,
    o ∈ items → statuses_of items !! entityId o = Some (Some s) → status o = Some s).
  { intros o s Ho (r & Hr & Hid & Hs)%statuses_of_lookup.
    by rewrite <- (NoDup_key_inj entityId items r o Hnd Hr Ho Hid). }
  repeat (apply elem_of_cons in Hev as [Hev | Hev]); [..|by apply elem_of_nil in Hev];
    rewrite Hev in Hreq, Hreq', Hev'.
  - destruct (next_cycle_null context'
                (mkWorld (set_salesOrderStatuses (statuses_of items)
                            (set_salesOrderIds (map entityId items)
                               (stamped context w)))
                   (sent w ++ [page "/salesOrders"]))) as [w'' Hnext].
    { intros Hl. eexists.
      rewrite (cycle_salesOrder_fulfilled context' _ items) by done.
      simpl. rewrite filter_none; [done|].
      intros o Ho. unfold salesOrder_fulfilled.
      assert (Hid : entityId o ≠ "__proto__").
      { intros Hid. apply (Hproto Hev). rewrite <- Hid.
        apply list_elem_of_fmap. by exists o. }
      rewrite (proj2 (prop_own _ _ _) (statuses_of_unique items o Hnd Ho Hid)).
      simpl. by destruct (strict_eq (status o) "Fulfilled"), (truthy (status o)). }
    eexists _, _, w''. split; [by apply cycle_salesOrder_fulfilled | exact Hnext].
  - destruct (next_cycle_null context'
                (mkWorld (set_purchaseOrderStatuses (statuses_of items)
                            (set_purchaseOrderIds (map entityId items)
                               (stamped context w)))
                   (sent w ++ [page "/purchaseOrders"]))) as [w'' Hnext].
    { intros Hl. eexists.
      rewrite (cycle_purchaseOrder_received context' _ items) by done.
      simpl. rewrite filter_none; [done|].
      intros o Ho. apply not_true_iff_false.
      intros [Hs Hrec]%purchaseOrder_received_iff.
      apply (Hopen o "Open" Ho) in Hrec. destruct Hs; congruence. }
    eexists _, _, w''. split; [by apply cycle_purchaseOrder_received | exact Hnext].
  - destruct (next_cycle_null context'
                (mkWorld (set_stockTransferStatuses (statuses_of items)
                            (stamped context w))
                   (sent w ++ [page "/stockTransfers"]))) as [w'' Hnext].
    { intros Hl. eexists.
      rewrite (cycle_stockTransfer_completed context' _ items) by done.
      simpl. rewrite filter_none; [done|].
      intros o Ho. apply not_true_iff_false.
      intros [Hs Hrec]%stockTransfer_completed_iff.
      apply (Hopen o "Open" Ho) in Hrec. congruence. }
    eexists _, _, w''. split; [by apply cycle_stockTransfer_completed | exact Hnext].
Qed.


(** X6. The inventory watch stays quiet on an unchanged report: after a
    detection cycle on a report that lists each product once, under ids other
    than [__proto__] and with quantities that are numbers (not NaN), the next
    cycle on the same report returns null. *)
Theorem inventory_watch_quiet_when_unchanged context context' w inventory :
  param_event context = "inventory.changed" →
  param_event context' = "inventory.changed" →
  param_options context' = param_options context →
  truthy (lastPollTime (static w)) = true →
  helpers_request context (report (param_options context))
  = Answers (JArray inventory) →
  helpers_request context' (report (param_options context))
  = Answers (JArray inventory) →
  NoDup (map productId inventory) →
  "__proto__" ∉ map productId inventory →
  (∀ row, row ∈ inventory →
     PrimFloat.eqb (quantityOnHand row) (quantityOnHand row) = true) →
  ∃ r w' w'',
    poll Date_valueOf context w = (Resolved r, w') ∧
    poll Date_valueOf context' w' = (Resolved None, w'').
Proof.
  intros Hev Hev' Hopt Hlast Hreq Hreq' Hnd Hproto Hnum. rewrite <- Hopt in Hreq'.
  destruct (next_cycle_null context'
              (mkWorld (set_inventorySnapshot (quantities_of inventory)
                          (stamped context w))
                 (sent w ++ [report (param_options context)]))) as [w'' Hnext].
  { intros Hl. eexists.
    rewrite (cycle_inventory_changed context' _ inventory) by done.
    simpl. rewrite filter_none; [done|].
    intros o Ho. unfold inventory_changed.
    assert (Hid : productId o ≠ "__proto__").
    { intros Hid. apply Hproto. rewrite <- Hid.
      apply list_elem_of_fmap. by exists o. }
    rewrite (proj2 (prop_own _ _ _) (quantities_of_unique inventory o Hnd Ho Hid)).
    simpl. by rewrite (Hnum o Ho). }
  eexists _, _, w''. split; [by apply cycle_inventory_changed | exact Hnext].
Qed.

(** X7. A created watch reports an id again when it comes back: if a
    detection cycle sees a snapshot without some id, the next cycle reports
    every record with that id as created, whether or not the id was known
    before. *)
Theorem returning_id_is_created_again context context' w items items' x :
  param_event context ∈
    ["product.created"; "salesOrder.created"; "purchaseOrder.created";
     "stockAdjustment.created"] →
  param_event context' = param_event context →
  truthy (lastPollTime (static w)) = true →
  truthy (Some (now_toISOString context)) = true →
  helpers_request context (page (collection (param_event context)))
  = Answers (JArray items) →
  helpers_request context' (page (collection (param_event context)))
  = Answers (JArray items') →
  entityId x ∉ map entityId items →
  x ∈ items' →
  ∃ r w' r' w'',
    poll Date_valueOf context w = (Resolved r, w') ∧
    poll Date_valueOf context' w' = (Resolved r', w'') ∧
    emit (param_event context) x ∈ emitted r'.
Proof.
  intros Hev Hev' Hlast Hnow Hreq Hreq' Hgone Hback.
  assert (Hin : ∀ name,
    emit name x ∈ map (emit name) (List.filter (is_new (map entityId items)) items')).
  { intros name. apply elem_of_map_filter. exists x. split_and!; [done| |done].
    unfold is_new. by apply negb_true_iff, includes_false. }
  repeat (apply elem_of_cons in Hev as [Hev | Hev]); [..|by apply elem_of_nil in Hev];
    rewrite Hev in Hreq, Hreq', Hev' |- *; eexists _, _, _, _.
  - split; [by apply cycle_product_created|].
    split; [by apply cycle_product_created|].
    rewrite emitted_pack. apply Hin.
  - split; [by apply cycle_salesOrder_created|].
    split; [by apply cycle_salesOrder_created|].
    rewrite emitted_pack. apply Hin.
  - split; [by apply cycle_purchaseOrder_created|].
    split; [by apply cycle_purchaseOrder_created|].
    rewrite emitted_pack. apply Hin.
  - split; [by apply cycle_stockAdjustment_created|].
    split; [by apply cycle_stockAdjustment_created|].
    rewrite emitted_pack. apply Hin.
Qed.

(** X8. Detection ignores the action of a stockAdjustment or inventory
    event: two events with that resource type give the same detection
    cycle. *)
Theorem action_ignored_for_adjustments_and_inventory context event' w :
  resourceType (param_event context) ∈ [Some "stockAdjustment"; Some "inventory"] →
  resourceType event' = resourceType (param_event context) →
  truthy (lastPollTime (static w)) = true →
  poll Date_valueOf (rewatch event' context) w = poll Date_valueOf context w.
Proof.
  intros Hres Hsame Hlast.
  unfold poll, mbind, Async_bind, getWorkflowStaticData, update.
  rewrite Hlast. change (negb true) with false. cbv beta iota.
  unfold detectChanges. cbn [rewatch param_event param_options].
  fold (resourceType event'). fold (resourceType (param_event context)).
  rewrite Hsame.
  repeat (apply elem_of_cons in Hres as [Hres | Hres]);
    [..|by apply elem_of_nil in Hres]; by rewrite Hres.
Qed.


Lemma inFlowApiRequest_no_array context m e b q w :
  (∀ items,
     helpers_request context
       (mkRequest m e (if decide (b = []) then None else Some b)
          (if decide (q = []) then None else Some q)) ≠ Answers (JArray items)) →
  ∃ o,
    inFlowApiRequest context m e b q w
    = (o, mkWorld (static w)
            (sent w ++ [mkRequest m e (if decide (b = []) then None else Some b)
                          (if decide (q = []) then None else Some q)])) ∧
    ∀ items, o ≠ Resolved (JArray items).
Proof.
  intros Hno. unfold inFlowApiRequest, try_catch, request.
  destruct (helpers_request _ _) as [message|[items|text]] eqn:Hr.
  - by eexists.
  - by destruct (Hno items).
  - by eexists.
Qed.

Ltac no_array_answer Hno :=
  unfold try_catch, mbind, Async_bind, getWorkflowStaticData, mret, Async_ret;
  match goal with
  | |- context [inFlowApiRequest ?c ?m ?e ?b ?q ?w] =>
      let o := fresh "o" in
      let Ho := fresh "Ho" in
      let Hne := fresh "Hne" in
      destruct (inFlowApiRequest_no_array c m e b q w Hno) as (o & Ho & Hne);
      rewrite Ho; clear Ho;
      destruct o as [[items|text]|message]; [by destruct (Hne items)|done..]
  end.

Lemma detect_salesOrders_no_array context act lpt w :
  (∀ items, helpers_request context (page "/salesOrders") ≠ Answers (JArray items)) →
  try_catch (pollSalesOrders Date_valueOf context act lpt) (λ _, mret []) w
  = (Resolved [], mkWorld (static w) (sent w ++ [page "/salesOrders"])).
Proof. intros Hno. unfold pollSalesOrders. no_array_answer Hno. Qed.

Lemma detect_purchaseOrders_no_array context act lpt w :
  (∀ items, helpers_request context (page "/purchaseOrders") ≠ Answers (JArray items)) →
  try_catch (pollPurchaseOrders context act lpt) (λ _, mret []) w
  = (Resolved [], mkWorld (static w) (sent w ++ [page "/purchaseOrders"])).
Proof. intros Hno. unfold pollPurchaseOrders. no_array_answer Hno. Qed.

Lemma detect_stockTransfers_no_array context act w :
  (∀ items, helpers_request context (page "/stockTransfers") ≠ Answers (JArray items)) →
  try_catch (pollStockTransfers context act) (λ _, mret []) w
  = (Resolved [], mkWorld (static w) (sent w ++ [page "/stockTransfers"])).
Proof. intros Hno. unfold pollStockTransfers. no_array_answer Hno. Qed.

Lemma array_or_not (answer : Response) :
  (∃ items, answer = Answers (JArray items)) ∨
  (∀ items, answer ≠ Answers (JArray items)).
Proof. destruct answer as [message|[items|text]]; eauto. Qed.

(** With no status recorded, a status watch emits nothing; for
    salesOrder.fulfilled, provided no fulfilled order of the answer has an id
    that names a member of [Object.prototype]. *)
Lemma status_watch_needs_recorded_statuses context w :
  param_event context ∈
    ["salesOrder.fulfilled"; "purchaseOrder.received"; "stockTransfer.completed"] →
  recorded_statuses (param_event context) (static w) = ∅ →
  (param_event context = "salesOrder.fulfilled" →
   ∀ items order,
     helpers_request context (page "/salesOrders") = Answers (JArray items) →
     order ∈ items → status order = Some "Fulfilled" →
     entityId order ∉ Object_prototype) →
  ∃ w', poll Date_valueOf context w = (Resolved None, w').
Proof.
  intros Hev Hnone Hplain. apply next_cycle_null. intros Hlast.
  repeat (apply elem_of_cons in Hev as [Hev | Hev]); [..|by apply elem_of_nil in Hev];
    rewrite Hev in Hnone; vm_compute recorded_statuses in Hnone.
  - change (default ∅ (salesOrderStatuses (static w)) = ∅) in Hnone.
    destruct (array_or_not (helpers_request context (page "/salesOrders")))
      as [[items Hreq] | Hno].
    + eexists. rewrite (cycle_salesOrder_fulfilled context w items) by done.
      rewrite filter_none; [done|]. intros o Ho.
      apply not_true_iff_false.
      intros [Hs Hprev]%salesOrder_fulfilled_iff. rewrite Hnone in Hprev.
      destruct Hprev as [(previous & Hp & _) | [_ Hin]].
      * by rewrite lookup_empty in Hp.
      * by apply (Hplain Hev items o).
    + eexists. apply poll_detect; [done|]. rewrite Hev.
      by apply detect_salesOrders_no_array.
  - change (default ∅ (purchaseOrderStatuses (static w)) = ∅) in Hnone.
    destruct (array_or_not (helpers_request context (page "/purchaseOrders")))
      as [[items Hreq] | Hno].
    + eexists. rewrite (cycle_purchaseOrder_received context w items) by done.
      rewrite filter_none; [done|]. intros o _.
      apply not_true_iff_false.
      intros [_ Hrec]%purchaseOrder_received_iff.
      by rewrite Hnone, lookup_empty in Hrec.
    + eexists. apply poll_detect; [done|]. rewrite Hev.
      by apply detect_purchaseOrders_no_array.
  - change (default ∅ (stockTransferStatuses (static w)) = ∅) in Hnone.
    destruct (array_or_not (helpers_request context (page "/stockTransfers")))
      as [[items Hreq] | Hno].
    + eexists. rewrite (cycle_stockTransfer_completed context w items) by done.
      rewrite filter_none; [done|]. intros o _.
      apply not_true_iff_false.
      intros [_ Hrec]%stockTransfer_completed_iff.
      by rewrite Hnone, lookup_empty in Hrec.
    + eexists. apply poll_detect; [done|]. rewrite Hev.
      by apply detect_stockTransfers_no_array.
Qed.

(** X9. The first two cycles of a status watch emit nothing: the first cycle
    stores ids under [knownIds] only, so the second cycle finds no recorded
    status to compare with and can only record the statuses it sees.  For
    purchaseOrder.received and stockTransfer.completed this holds whatever
    the service answers; for salesOrder.fulfilled it holds when no fulfilled
    order of the second answer has an id that names a member of
    [Object.prototype]. *)
Theorem status_watch_first_cycles_are_silent context context' w :
  param_event context ∈
    ["salesOrder.fulfilled"; "purchaseOrder.received"; "stockTransfer.completed"] →
  param_event context' = param_event context →
  truthy (lastPollTime (static w)) = false →
  recorded_statuses (param_event context) (static w) = ∅ →
  (param_event context = "salesOrder.fulfilled" →
   ∀ items order,
     helpers_request context' (page "/salesOrders") = Answers (JArray items) →
     order ∈ items → status order = Some "Fulfilled" →
     entityId order ∉ Object_prototype) →
  ∃ w' w'',
    poll Date_valueOf context w = (Resolved None, w') ∧
    poll Date_valueOf context' w' = (Resolved None, w'') ∧
    recorded_statuses (param_event context) (static w') = ∅.
Proof.
  intros Hev Hev' Hfirst Hnone Hplain.
  destruct (initializePollingState_any context (param_event context)
              (mkWorld (stamped context w) (sent w)))
    as (d' & requests & Hrun & _ & _ & Hd).
  assert (Hkept : recorded_statuses (param_event context) d' = ∅).
  { rewrite <- Hnone. unfold recorded_statuses.
    destruct Hd as [-> | [ids ->]]; done. }
  destruct (status_watch_needs_recorded_statuses context'
              (mkWorld d' (sent w ++ requests))) as [w'' Hnext].
  { by rewrite Hev'. }
  { by rewrite Hev'. }
  { rewrite Hev'. exact Hplain. }
  exists (mkWorld d' (sent w ++ requests)), w''.
  split; [|done]. rewrite poll_bootstrap by done.
  unfold stamped in Hrun. by rewrite Hrun.
Qed.

End Cycle.

(** ** Concrete cycles *)

Example iso_valueOf_epoch : iso_valueOf "1970-01-01T00:00:00.000Z" = Some 0.
Proof. reflexivity. Qed.

Example iso_valueOf_sample :
  iso_valueOf "2024-01-15T10:30:00.000Z" = Some 1705314600000.
Proof. reflexivity. Qed.

Example iso_valueOf_invalid : iso_valueOf "yesterday" = None.
Proof. reflexivity. Qed.

(** *** Bootstrap of a sales-order watch *)

(** C1. The first cycle of a salesOrder.created watch on a collection that
    holds the order so-1 returns null and stores the fetched ids under
    [knownIds], leaving [salesOrderIds] undefined; the next cycle, on the
    same collection, reports so-1 as created. *)
Theorem bootstrap_misses_salesOrderIds :
  (poll iso_valueOf (watching "salesOrder.created" (answering [so1]) five_past_ten)
     (mkWorld emptyStatic [])).1
  = Resolved None ∧
  knownIds (static after_bootstrap) = Some ["so-1"] ∧
  salesOrderIds (static after_bootstrap) = None ∧
  tracked_ids "salesOrder.created" (static after_bootstrap) = [] ∧
  (poll iso_valueOf (watching "salesOrder.created" (answering [so1]) ten_past_ten)
     after_bootstrap).1
  = Resolved (Some [[emit "salesOrder.created" so1]]).
Proof. split_and!; reflexivity. Qed.

(** *** Filters *)

(** C9. With both filters configured, the fetch of a product.created cycle
    carries the page size only, neither filter; the first cycle of that watch
    likewise; and the fetch of an inventory.changed cycle carries the location
    filter but not the category filter. *)
Theorem filters_not_passed_through :
  sent (poll iso_valueOf
          (mkContext "product.created" bothFilters (answering [p1]) five_past_ten)
          (mkWorld polled_at_ten [])).2
  = [mkRequest "GET" "/products" None (Some [("count", QNum 50)])] ∧
  sent (poll iso_valueOf
          (mkContext "product.created" bothFilters (answering [p1]) five_past_ten)
          (mkWorld emptyStatic [])).2
  = [mkRequest "GET" "/products" None (Some [("count", QNum 50)])] ∧
  sent (poll iso_valueOf
          (mkContext "inventory.changed" bothFilters (answering [row "P1" 7])
             five_past_ten)
          (mkWorld polled_at_ten [])).2
  = [mkRequest "GET" "/reports/inventorySummary" None
       (Some [("locationId", QStr "loc-1")])].
Proof. split_and!; reflexivity. Qed.

(** *** A failed cycle *)

(** C2 as stated fails: with one product known and the service timing out,
    the cycle returns null, yet [lastPollTime] moves from ten o'clock to five
    past ten, so the static data is not the one before the cycle. *)
Lemma failed_cycle_restamps_lastPollTime :
  unreachable (watching "product.created" timing_out five_past_ten) ∧
  truthy (lastPollTime one_product_known) = true ∧
  (poll iso_valueOf (watching "product.created" timing_out five_past_ten)
     (mkWorld one_product_known [])).1
  = Resolved None ∧
  lastPollTime one_product_known = Some "2024-01-15T10:00:00.000Z" ∧
  lastPollTime
    (static (poll iso_valueOf (watching "product.created" timing_out five_past_ten)
               (mkWorld one_product_known [])).2)
  = Some "2024-01-15T10:05:00.000Z" ∧
  static (poll iso_valueOf (watching "product.created" timing_out five_past_ten)
            (mkWorld one_product_known [])).2
  ≠ one_product_known.
Proof.
  split; [intros r; by exists "ETIMEDOUT"|].
  split_and!; [reflexivity..|].
  intros Heq. apply (f_equal lastPollTime) in Heq. by vm_compute in Heq.
Qed.

(** The same cycle, as an instance of [fetch_failure_keeps_snapshots]. *)
Lemma fetch_failure_keeps_snapshots_witness :
  truthy (lastPollTime one_product_known) = true ∧
  unreachable (watching "product.created" timing_out five_past_ten) ∧
  ∃ requests,
    poll iso_valueOf (watching "product.created" timing_out five_past_ten)
      (mkWorld one_product_known [])
    = (Resolved None,
       mkWorld (set_lastPollTime five_past_ten one_product_known) requests).
Proof.
  assert (Hdown : unreachable (watching "product.created" timing_out five_past_ten)).
  { intros r. by exists "ETIMEDOUT". }
  split; [reflexivity|]. split; [exact Hdown|].
  exact (fetch_failure_keeps_snapshots iso_valueOf
           (watching "product.created" timing_out five_past_ten)
           (mkWorld one_product_known []) eq_refl Hdown).
Defined.

(** *** An event outside the offered ones *)

(** C8 as stated fails: customer.created is not an offered event, and both
    its first cycle and a later cycle return null without an error and
    without a request. *)
Lemma unknown_event_polls_quietly :
  supported "customer.created" = false ∧
  poll iso_valueOf (watching "customer.created" (answering [p1]) five_past_ten)
    (mkWorld emptyStatic [])
  = (Resolved None, mkWorld (set_lastPollTime five_past_ten emptyStatic) []) ∧
  poll iso_valueOf (watching "customer.created" (answering [p1]) five_past_ten)
    (mkWorld polled_at_ten [])
  = (Resolved None, mkWorld (set_lastPollTime five_past_ten polled_at_ten) []).
Proof. split_and!; reflexivity. Qed.

(** The later cycle, as an instance of [unsupported_event_not_rejected]. *)
Lemma unsupported_event_not_rejected_witness :
  supported "customer.created" = false ∧
  handled "customer.created" = false ∧
  ∃ w',
    poll iso_valueOf (watching "customer.created" (answering [p1]) five_past_ten)
      (mkWorld polled_at_ten [])
    = (Resolved None, w').
Proof.
  split; [reflexivity|]. split; [reflexivity|].
  exact (proj2 (unsupported_event_not_rejected iso_valueOf
                  (watching "customer.created" (answering [p1]) five_past_ten)
                  (mkWorld polled_at_ten []) eq_refl) eq_refl).
Defined.

(** *** Sales orders becoming fulfilled *)


(** Of four orders now fulfilled, only so-1 yields an event. *)
Lemma salesOrder_fulfilled_semantics_witness :
  param_event (watching "salesOrder.fulfilled" (answering sales_snapshot) five_past_ten)
  = "salesOrder.fulfilled" ∧
  truthy (lastPollTime sales_checkpoint) = true ∧
  ∃ r w',
    poll iso_valueOf
      (watching "salesOrder.fulfilled" (answering sales_snapshot) five_past_ten)
      (mkWorld sales_checkpoint [])
    = (Resolved r, w') ∧
    emitted r = [emit "salesOrder.fulfilled" (fulfilled "so-1")].
Proof.
  split; [reflexivity|]. split; [reflexivity|].
  destruct (salesOrder_fulfilled_semantics iso_valueOf
              (watching "salesOrder.fulfilled" (answering sales_snapshot) five_past_ten)
              (mkWorld sales_checkpoint []) sales_snapshot eq_refl eq_refl eq_refl)
    as (r & w' & Hpoll & Hemitted & _).
  exists r, w'. split; [exact Hpoll|]. rewrite Hemitted. reflexivity.
Defined.

(** *** Products created and updated *)

(** Only the new product p-3 is reported as created, and the three ids are
    tracked afterwards. *)
Lemma created_semantics_witness :
  param_event (watching "product.created" (answering products_snapshot) five_past_ten)
  ∈ ["product.created"; "salesOrder.created"; "purchaseOrder.created";
     "stockAdjustment.created"] ∧
  truthy (lastPollTime products_checkpoint) = true ∧
  ∃ r w',
    poll iso_valueOf
      (watching "product.created" (answering products_snapshot) five_past_ten)
      (mkWorld products_checkpoint [])
    = (Resolved r, w') ∧
    emitted r
    = [emit "product.created" (product_at "p-3" "2024-01-15T10:04:00.000Z")] ∧
    tracked_ids "product.created" (static w') = ["p-1"; "p-2"; "p-3"].
Proof.
  split; [apply list_elem_of_here|]. split; [reflexivity|].
  destruct (created_semantics iso_valueOf
              (watching "product.created" (answering products_snapshot) five_past_ten)
              (mkWorld products_checkpoint []) products_snapshot
              (list_elem_of_here _ _) eq_refl eq_refl)
    as (r & w' & Hpoll & Hemitted & _ & Hids & _).
  exists r, w'. split; [exact Hpoll|]. split; [|exact Hids].
  rewrite Hemitted. reflexivity.
Defined.

(** Only p-1 is reported as updated: p-2 changed too early and p-3 was not
    known. *)
Lemma updated_semantics_witness :
  param_event (watching "product.updated" (answering products_snapshot) five_past_ten)
  ∈ ["product.updated"; "salesOrder.updated"] ∧
  truthy (lastPollTime products_checkpoint) = true ∧
  ∃ r w',
    poll iso_valueOf
      (watching "product.updated" (answering products_snapshot) five_past_ten)
      (mkWorld products_checkpoint [])
    = (Resolved r, w') ∧
    emitted r
    = [emit "product.updated" (product_at "p-1" "2024-01-15T10:03:00.000Z")].
Proof.
  split; [apply list_elem_of_here|]. split; [reflexivity|].
  destruct (updated_semantics iso_valueOf
              (watching "product.updated" (answering products_snapshot) five_past_ten)
              (mkWorld products_checkpoint []) products_snapshot
              (list_elem_of_here _ _) eq_refl eq_refl)
    as (r & w' & Hpoll & Hemitted & _).
  exists r, w'. split; [exact Hpoll|].
  rewrite Hemitted. reflexivity.
Defined.

(** *** Inventory *)

Lemma report_lists_each_product_once : NoDup (map productId inventory_report).
Proof.
  apply NoDup_cons. split.
  - intros Hin. apply list_elem_of_singleton in Hin. discriminate Hin.
  - apply NoDup_singleton.
Defined.



(** *** Transfers and receipts *)

(** t-2 was already completed and t-3 was never seen: neither yields an
    event. *)
Lemma open_predecessor_required_witness :
  param_event
    (watching "stockTransfer.completed" (answering transfers_snapshot) five_past_ten)
  ∈ ["purchaseOrder.received"; "stockTransfer.completed"] ∧
  truthy (lastPollTime transfers_checkpoint) = true ∧
  ∃ r w',
    poll iso_valueOf
      (watching "stockTransfer.completed" (answering transfers_snapshot) five_past_ten)
      (mkWorld transfers_checkpoint [])
    = (Resolved r, w') ∧
    (emit "stockTransfer.completed" (completed "t-2") ∉ emitted r) ∧
    (emit "stockTransfer.completed" (completed "t-3") ∉ emitted r).
Proof.
  split; [apply list_elem_of_further, list_elem_of_here|]. split; [reflexivity|].
  destruct (open_predecessor_required iso_valueOf
              (watching "stockTransfer.completed" (answering transfers_snapshot)
                 five_past_ten)
              (mkWorld transfers_checkpoint []) transfers_snapshot
              (list_elem_of_further _ _ _ (list_elem_of_here _ _)) eq_refl eq_refl)
    as (r & w' & Hpoll & _ & Hnone).
  exists r, w'. split; [exact Hpoll|]. split.
  - apply (Hnone (completed "t-2")). vm_compute. discriminate.
  - apply (Hnone (completed "t-3")). vm_compute. discriminate.
Defined.



(** *** Further cycles *)

(** An error page on a later cycle of a product watch: null, and only the
    time moves. *)
Lemma malformed_answer_changes_nothing_witness :
  garbled (watching "product.created" answering_html five_past_ten) ∧
  ∃ requests,
    poll iso_valueOf (watching "product.created" answering_html five_past_ten)
      (mkWorld one_product_known [])
    = (Resolved None,
       mkWorld (set_lastPollTime five_past_ten one_product_known) requests).
Proof.
  assert (Hg : garbled (watching "product.created" answering_html five_past_ten)).
  { intros r. by exists "<html>". }
  split; [exact Hg|].
  exact (malformed_answer_changes_nothing iso_valueOf
           (watching "product.created" answering_html five_past_ten)
           (mkWorld one_product_known []) Hg).
Defined.

(** A first fetch that times out, then a snapshot of two products: both are
    reported as created. *)
Lemma failed_first_fetch_reports_all_witness :
  truthy (lastPollTime (static never_polled)) = false ∧
  truthy (Some five_past_ten) = true ∧
  unreachable (watching "product.created" timing_out five_past_ten) ∧
  ∃ w' r' w'',
    poll iso_valueOf (watching "product.created" timing_out five_past_ten) never_polled
    = (Resolved None, w') ∧
    poll iso_valueOf
      (watching "product.created" (answering [p1; entity "p-2" None None]) ten_past_ten)
      w'
    = (Resolved r', w'') ∧
    emitted r'
    = [emit "product.created" p1; emit "product.created" (entity "p-2" None None)].
Proof.
  assert (Hdown : unreachable (watching "product.created" timing_out five_past_ten)).
  { intros r. by exists "ETIMEDOUT". }
  split; [reflexivity|]. split; [reflexivity|]. split; [exact Hdown|].
  destruct (failed_first_fetch_reports_all iso_valueOf
              (watching "product.created" timing_out five_past_ten)
              (watching "product.created" (answering [p1; entity "p-2" None None])
                 ten_past_ten)
              never_polled [p1; entity "p-2" None None]
              eq_refl eq_refl eq_refl eq_refl Hdown eq_refl)
    as (w' & r' & w'' & Hfirst & _ & Hsecond & Hemitted).
  exists w', r', w''. split; [exact Hfirst|]. split; [exact Hsecond|].
  exact Hemitted.
Defined.

Lemma sales_snapshot_ids_distinct : NoDup (map entityId sales_snapshot).
Proof.
  repeat (apply NoDup_cons; split;
          [intros Hin; repeat (apply elem_of_cons in Hin as [Hin | Hin];
                               [discriminate Hin|]);
           by apply elem_of_nil in Hin|]).
  apply NoDup_nil_2.
Defined.

(** The four fulfilled orders seen twice: so-1 fires in the first cycle and
    nothing fires in the second. *)
Lemma status_watch_quiet_when_unchanged_witness :
  truthy (lastPollTime sales_checkpoint) = true ∧
  NoDup (map entityId sales_snapshot) ∧
  ("__proto__" ∉ map entityId sales_snapshot) ∧
  ∃ r w' w'',
    poll iso_valueOf
      (watching "salesOrder.fulfilled" (answering sales_snapshot) five_past_ten)
      (mkWorld sales_checkpoint [])
    = (Resolved r, w') ∧
    poll iso_valueOf
      (watching "salesOrder.fulfilled" (answering sales_snapshot) ten_past_ten) w'
    = (Resolved None, w'').
Proof.
  assert (Hproto : "__proto__" ∉ map entityId sales_snapshot).
  { apply includes_false. reflexivity. }
  split; [reflexivity|]. split; [exact sales_snapshot_ids_distinct|].
  split; [exact Hproto|].
  exact (status_watch_quiet_when_unchanged iso_valueOf
           (watching "salesOrder.fulfilled" (answering sales_snapshot) five_past_ten)
           (watching "salesOrder.fulfilled" (answering sales_snapshot) ten_past_ten)
           (mkWorld sales_checkpoint []) sales_snapshot
           (list_elem_of_here _ _) eq_refl eq_refl eq_refl eq_refl
           sales_snapshot_ids_distinct (λ _, Hproto)).
Defined.

(** The report P1: 7, P2: 5 seen twice. *)
Lemma inventory_watch_quiet_when_unchanged_witness :
  truthy (lastPollTime inventory_checkpoint) = true ∧
  NoDup (map productId inventory_report) ∧
  ("__proto__" ∉ map productId inventory_report) ∧
  (∀ row, row ∈ inventory_report →
     PrimFloat.eqb (quantityOnHand row) (quantityOnHand row) = true) ∧
  ∃ r w' w'',
    poll iso_valueOf
      (watching "inventory.changed" (answering inventory_report) five_past_ten)
      (mkWorld inventory_checkpoint [])
    = (Resolved r, w') ∧
    poll iso_valueOf
      (watching "inventory.changed" (answering inventory_report) ten_past_ten) w'
    = (Resolved None, w'').
Proof.
  assert (Hproto : "__proto__" ∉ map productId inventory_report).
  { apply includes_false. reflexivity. }
  assert (Hnum : ∀ row, row ∈ inventory_report →
                   PrimFloat.eqb (quantityOnHand row) (quantityOnHand row) = true).
  { intros row Hin.
    repeat (apply elem_of_cons in Hin as [-> | Hin]; [reflexivity|]).
    by apply elem_of_nil in Hin. }
  split; [reflexivity|]. split; [exact report_lists_each_product_once|].
  split; [exact Hproto|]. split; [exact Hnum|].
  exact (inventory_watch_quiet_when_unchanged iso_valueOf
           (watching "inventory.changed" (answering inventory_report) five_past_ten)
           (watching "inventory.changed" (answering inventory_report) ten_past_ten)
           (mkWorld inventory_checkpoint []) inventory_report
           eq_refl eq_refl eq_refl eq_refl eq_refl eq_refl
           report_lists_each_product_once Hproto Hnum).
Defined.

(** p-1 is known, is missing from one snapshot and is back in the next. *)
Lemma returning_id_is_created_again_witness :
  truthy (lastPollTime one_product_known) = true ∧
  truthy (Some five_past_ten) = true ∧
  (entityId p1 ∉ map entityId (@nil IDataObject)) ∧
  p1 ∈ [p1] ∧
  ∃ r w' r' w'',
    poll iso_valueOf (watching "product.created" (answering []) five_past_ten)
      (mkWorld one_product_known [])
    = (Resolved r, w') ∧
    poll iso_valueOf (watching "product.created" (answering [p1]) ten_past_ten) w'
    = (Resolved r', w'') ∧
    emit "product.created" p1 ∈ emitted r'.
Proof.
  assert (Hgone : entityId p1 ∉ map entityId (@nil IDataObject)).
  { intros Hin. by apply elem_of_nil in Hin. }
  split; [reflexivity|]. split; [reflexivity|]. split; [exact Hgone|].
  split; [apply list_elem_of_here|].
  exact (returning_id_is_created_again iso_valueOf
           (watching "product.created" (answering []) five_past_ten)
           (watching "product.created" (answering [p1]) ten_past_ten)
           (mkWorld one_product_known []) [] [p1] p1
           (list_elem_of_here _ _) eq_refl eq_refl eq_refl eq_refl eq_refl
           Hgone (list_elem_of_here _ _)).
Defined.

(** stockAdjustment.deleted is detected as stockAdjustment.created is. *)
Lemma action_ignored_for_adjustments_and_inventory_witness :
  resourceType "stockAdjustment.created"
  ∈ [Some "stockAdjustment"; Some "inventory"] ∧
  resourceType "stockAdjustment.deleted" = resourceType "stockAdjustment.created" ∧
  poll iso_valueOf
    (watching "stockAdjustment.deleted" (answering [p1]) five_past_ten)
    (mkWorld polled_at_ten [])
  = poll iso_valueOf
      (watching "stockAdjustment.created" (answering [p1]) five_past_ten)
      (mkWorld polled_at_ten []).
Proof.
  split; [apply list_elem_of_here|]. split; [reflexivity|].
  exact (action_ignored_for_adjustments_and_inventory iso_valueOf
           (watching "stockAdjustment.created" (answering [p1]) five_past_ten)
           "stockAdjustment.deleted" (mkWorld polled_at_ten [])
           (list_elem_of_here _ _) eq_refl eq_refl).
Defined.

(** An order already open at the first cycle and fulfilled at the second
    yields no event. *)
Lemma status_watch_first_cycles_are_silent_witness :
  truthy (lastPollTime (static never_polled)) = false ∧
  recorded_statuses "salesOrder.fulfilled" (static never_polled) = ∅ ∧
  (∀ items order,
     answering [fulfilled "so-1"] (page "/salesOrders") = Answers (JArray items) →
     order ∈ items → status order = Some "Fulfilled" →
     entityId order ∉ Object_prototype) ∧
  ∃ w' w'',
    poll iso_valueOf
      (watching "salesOrder.fulfilled" (answering [open_order "so-1"]) five_past_ten)
      never_polled
    = (Resolved None, w') ∧
    poll iso_valueOf
      (watching "salesOrder.fulfilled" (answering [fulfilled "so-1"]) ten_past_ten)
      w'
    = (Resolved None, w'').
Proof.
  assert (Hplain : ∀ items order,
    answering [fulfilled "so-1"] (page "/salesOrders") = Answers (JArray items) →
    order ∈ items → status order = Some "Fulfilled" →
    entityId order ∉ Object_prototype).
  { intros items order [= <-] Hin _. apply list_elem_of_singleton in Hin.
    rewrite Hin. apply includes_false. reflexivity. }
  split; [reflexivity|]. split; [reflexivity|]. split; [exact Hplain|].
  destruct (status_watch_first_cycles_are_silent iso_valueOf
              (watching "salesOrder.fulfilled" (answering [open_order "so-1"])
                 five_past_ten)
              (watching "salesOrder.fulfilled" (answering [fulfilled "so-1"])
                 ten_past_ten)
              never_polled
              (list_elem_of_here _ _) eq_refl eq_refl eq_refl (λ _, Hplain))
    as (w' & w'' & Hfirst & Hsecond & _).
  exists w', w''. split; [exact Hfirst | exact Hsecond].
Defined.

(** ** The pure helpers *)

(** *** Objects *)

Lemma fold_left_pointwise {A B} (f g : A → B → A) (l : list B) (a : A) :
  (∀ a b, f a b = g a b) → fold_left f l a = fold_left g l a.
Proof.
  intros Hfg. revert a. induction l as [|b l IH]; intros a; [done|].
  simpl. by rewrite Hfg, IH.
Qed.

Lemma obj_keys_obj_set (obj : JsObject) key value :
  obj_keys (obj_set obj key value)
  = if decide (key ∈ obj_keys obj) then obj_keys obj else obj_keys obj ++ [key].
Proof.
  induction obj as [|[k v] obj IH].
  - case_decide as Hin; [by apply elem_of_nil in Hin | done].
  - cbn [obj_set]. destruct (String.eqb_spec k key) as [->|Hne].
    + rewrite decide_True; [done|]. by left.
    + change (obj_keys ((k, v) :: obj_set obj key value))
        with (k :: obj_keys (obj_set obj key value)).
      change (obj_keys ((k, v) :: obj)) with (k :: obj_keys obj).
      rewrite IH. destruct (decide (key ∈ obj_keys obj)) as [Hin|Hnot].
      * rewrite decide_True; [done|]. by right.
      * rewrite decide_False; [done|].
        intros [?|?]%elem_of_cons; [congruence | done].
Qed.

Lemma obj_set_fresh (obj : JsObject) key value :
  key ∉ obj_keys obj → obj_set obj key value = obj ++ [(key, value)].
Proof.
  induction obj as [|[k v] obj IH]; intros Hfresh; [done|]. simpl.
  destruct (String.eqb_spec k key) as [->|Hne].
  - exfalso. apply Hfresh. by left.
  - rewrite IH; [done|]. intros Hin. apply Hfresh. by right.
Qed.

Lemma obj_set_unique (obj : JsObject) key value :
  NoDup (obj_keys obj) → NoDup (obj_keys (obj_set obj key value)).
Proof.
  intros Hnd. rewrite obj_keys_obj_set. destruct (decide _) as [Hin|Hnot]; [done|].
  apply NoDup_app. split_and!; [done| |apply NoDup_singleton].
  intros k Hk ->%list_elem_of_singleton. done.
Qed.

Lemma obj_set_forallb (f : string * Value → bool) (obj : JsObject) key value :
  forallb f obj = true → f (key, value) = true →
  forallb f (obj_set obj key value) = true.
Proof.
  intros Hall Hnew. induction obj as [|[k v] obj IH]; simpl.
  - by rewrite Hnew.
  - simpl in Hall. apply andb_true_iff in Hall as [Hkv Hall].
    destruct (String.eqb_spec k key) as [->|Hne]; simpl.
    + by rewrite Hnew.
    + by rewrite Hkv, IH.
Qed.

Lemma obj_get_obj_set_eq (obj : JsObject) key value :
  obj_get (obj_set obj key value) key = value.
Proof.
  induction obj as [|[k v] obj IH]; simpl.
  - by rewrite String.eqb_refl.
  - destruct (String.eqb_spec k key) as [->|Hne]; simpl.
    + by rewrite String.eqb_refl.
    + by rewrite (proj2 (String.eqb_neq k key) Hne).
Qed.

Lemma obj_get_obj_set_ne (obj : JsObject) key key' value :
  key ≠ key' → obj_get (obj_set obj key value) key' = obj_get obj key'.
Proof.
  intros Hne. induction obj as [|[k v] obj IH]; simpl.
  - by rewrite (proj2 (String.eqb_neq key key') Hne).
  - destruct (String.eqb_spec k key) as [->|Hk]; simpl.
    + by rewrite (proj2 (String.eqb_neq key key') Hne).
    + by rewrite IH.
Qed.

Lemma obj_get_absent (obj : JsObject) key :
  key ∉ obj_keys obj → obj_get obj key = VUndefined.
Proof.
  induction obj as [|[k v] obj IH]; intros Hk; [done|]. simpl.
  destruct (String.eqb_spec k key) as [->|Hne].
  - exfalso. apply Hk. by left.
  - apply IH. intros Hin. apply Hk. by right.
Qed.

(** *** [cleanObject] *)

(** The loop of [cleanObject], as the source writes it. *)
Lemma cleanObject_unfold (obj : JsObject) :
  cleanObject obj = fold_left cleanObject_step obj [].
Proof.
  unfold cleanObject. simpl. apply fold_left_pointwise.
  intros result [key value]. unfold cleanObject_step.
  by destruct value.
Qed.

Lemma cleanObject_step_good (result : JsObject) (entry : string * Value) :
  match entry.2 with
  | VObject nested =>
      is_clean (VObject (cleanObject nested)) = true ∧
      unique_keys (VObject (cleanObject nested)) = true
  | _ => True
  end →
  forallb entry_clean result = true →
  NoDup (obj_keys result) →
  forallb (λ e, unique_keys e.2) result = true →
  forallb entry_clean (cleanObject_step result entry) = true ∧
  NoDup (obj_keys (cleanObject_step result entry)) ∧
  forallb (λ e, unique_keys e.2) (cleanObject_step result entry) = true.
Proof.
  destruct entry as [key value]. simpl. intros Hnested Hclean Hnd Huniq.
  unfold cleanObject_step. destruct (present value) eqn:Hp; [|done].
  destruct value as [| | b | n | s | items | nested];
    try discriminate Hp;
    try (split_and!;
         [ apply obj_set_forallb;
           [done | unfold entry_clean; simpl in *; by rewrite ?Hp]
         | by apply obj_set_unique
         | by apply obj_set_forallb ]).
  destruct Hnested as [Hc Hu].
  destruct (0 <? length (obj_keys (cleanObject nested)))%nat eqn:Hlen; [|done].
  apply Nat.ltb_lt in Hlen. unfold obj_keys in Hlen. rewrite length_map in Hlen.
  split_and!; [apply obj_set_forallb | by apply obj_set_unique
               | by apply obj_set_forallb]; [done|].
  unfold entry_clean. simpl snd. cbv beta iota.
  apply andb_true_iff. split; [done|]. apply andb_true_iff. split; [|exact Hc].
  apply negb_true_iff, Nat.eqb_neq. lia.
Qed.

Lemma cleanObject_good (obj : JsObject) :
  is_clean (VObject (cleanObject obj)) = true ∧
  unique_keys (VObject (cleanObject obj)) = true.
Proof.
  change (match VObject obj with
          | VObject o =>
              is_clean (VObject (cleanObject o)) = true ∧
              unique_keys (VObject (cleanObject o)) = true
          | _ => True
          end).
  generalize (VObject obj). clear obj.
  apply Value_nested_ind; try done. intros obj IH.
  rewrite cleanObject_unfold.
  assert (Hloop : ∀ l result,
    Forall (λ entry,
              match entry.2 with
              | VObject o =>
                  is_clean (VObject (cleanObject o)) = true ∧
                  unique_keys (VObject (cleanObject o)) = true
              | _ => True
              end) l →
    forallb entry_clean result = true →
    NoDup (obj_keys result) →
    forallb (λ e, unique_keys e.2) result = true →
    forallb entry_clean (fold_left cleanObject_step l result) = true ∧
    NoDup (obj_keys (fold_left cleanObject_step l result)) ∧
    forallb (λ e, unique_keys e.2) (fold_left cleanObject_step l result) = true).
  { induction l as [|entry l IHl]; intros result Hall Hc Hnd Hu; [done|].
    apply Forall_cons in Hall as [Hentry Hall]. simpl.
    destruct (cleanObject_step_good result entry Hentry Hc Hnd Hu) as (? & ? & ?).
    by apply IHl. }
  destruct (Hloop obj [] IH eq_refl (NoDup_nil_2 (A:=string)) eq_refl) as (Hc & Hnd & Hu).
  split; [exact Hc|]. simpl. rewrite Hu, andb_true_r. by apply bool_decide_eq_true.
Qed.

(** X10. The result of [cleanObject] holds, at no depth of nested objects,
    an entry that is [undefined], [null], the empty string or an empty
    object, and its keys are distinct. *)
Theorem cleanObject_leaves_nothing_empty (obj : JsObject) :
  is_clean (VObject (cleanObject obj)) = true ∧
  NoDup (obj_keys (cleanObject obj)) ∧
  ∀ key value,
    (key, value) ∈ cleanObject obj →
    value ≠ VUndefined ∧ value ≠ VNull ∧ value ≠ VStr "" ∧ value ≠ VObject [].
Proof.
  destruct (cleanObject_good obj) as [Hc Hu]. split; [exact Hc|]. split.
  - simpl in Hu. apply andb_true_iff in Hu as [Hnd _].
    by apply bool_decide_eq_true in Hnd.
  - intros key value Hin. simpl in Hc.
    rewrite forallb_forall in Hc. apply list_elem_of_In, Hc in Hin.
    simpl in Hin. apply andb_true_iff in Hin as [Hp Hn].
    split_and!; intros ->; try discriminate Hp. discriminate Hn.
Qed.

Lemma cleanObject_fixed_nested (value : Value) :
  unique_keys value = true → is_clean value = true →
  match value with
  | VObject obj => cleanObject obj = obj
  | _ => True
  end.
Proof.
  induction value as [| | b | n | s | items IH | obj IH] using Value_nested_ind;
    try done.
  intros Hu Hc.
  rewrite cleanObject_unfold. simpl in Hu, Hc.
  apply andb_true_iff in Hu as [Hnd Hu]. apply bool_decide_eq_true in Hnd.
  assert (Hloop : ∀ l result,
    Forall (λ entry,
              unique_keys entry.2 = true → is_clean entry.2 = true →
              match entry.2 with
              | VObject o => cleanObject o = o
              | _ => True
              end) l →
    NoDup (obj_keys (result ++ l)) →
    forallb (λ entry, unique_keys entry.2) l = true →
    forallb entry_clean l = true →
    fold_left cleanObject_step l result = result ++ l).
  { induction l as [|[key value] l IHl]; intros result Hall Hnd' Hu' Hc'.
    - by rewrite app_nil_r.
    - apply Forall_cons in Hall as [Hentry Hall]. simpl in Hu', Hc', Hentry.
      apply andb_true_iff in Hu' as [Huv Hu'].
      apply andb_true_iff in Hc' as [Hcv Hc'].
      unfold entry_clean in Hcv. simpl in Hcv.
      apply andb_true_iff in Hcv as [Hp Hcv].
      assert (Hfresh : key ∉ obj_keys result).
      { unfold obj_keys in Hnd'. rewrite map_app in Hnd'.
        apply NoDup_app in Hnd' as (_ & Hdisj & _). intros Hin.
        apply (Hdisj key Hin). by left. }
      assert (Hstep : cleanObject_step result (key, value) = result ++ [(key, value)]).
      { unfold cleanObject_step. rewrite Hp.
        destruct value as [| | b | n | s | items | nested];
          try (by apply obj_set_fresh).
        apply andb_true_iff in Hcv as [Hlen Hcn].
        rewrite (Hentry Huv Hcn).
        apply negb_true_iff, Nat.eqb_neq in Hlen.
        unfold obj_keys at 1. rewrite length_map.
        destruct (Nat.ltb_spec 0 (length nested)); [|lia].
        by apply obj_set_fresh. }
      change (fold_left cleanObject_step ((key, value) :: l) result)
        with (fold_left cleanObject_step l (cleanObject_step result (key, value))).
      rewrite Hstep, IHl; [by rewrite <- app_assoc|done| |done..].
      by rewrite <- app_assoc. }
  exact (Hloop obj [] IH Hnd Hu Hc).
Qed.


(** X12. Cleaning twice is cleaning once. *)
Theorem cleanObject_idempotent (obj : JsObject) :
  cleanObject (cleanObject obj) = cleanObject obj.
Proof.
  destruct (cleanObject_good obj) as [Hc Hu].
  exact (cleanObject_fixed_nested (VObject (cleanObject obj)) Hu Hc).
Qed.

(** *** [buildFilterParams] *)

Lemma string_length_app (a b : string) :
  String.length (a +:+ b) = (String.length a + String.length b)%nat.
Proof.
  induction a as [|c a IH]; [done|].
  change (S (String.length (a +:+ b)) = S (String.length a + String.length b)).
  by rewrite IH.
Qed.

Lemma string_app_inj_r (a b c : string) : a +:+ c = b +:+ c → a = b.
Proof.
  revert b. induction a as [|x a IH]; intros [|y b] Heq; [done| | |].
  - apply (f_equal String.length) in Heq.
    change (String.length c = S (String.length (b +:+ c))) in Heq.
    rewrite string_length_app in Heq. lia.
  - apply (f_equal String.length) in Heq.
    change (S (String.length (a +:+ c)) = String.length c) in Heq.
    rewrite string_length_app in Heq. lia.
  - change (String x (a +:+ c) = String y (b +:+ c)) in Heq.
    injection Heq as -> Heq. f_equal. by apply IH.
Qed.

Lemma filter_key_inj (a b : string) :
  "filter[" +:+ a +:+ "]" = "filter[" +:+ b +:+ "]" → a = b.
Proof.
  intros Heq. apply (inj (String.app "filter[")) in Heq.
  by apply string_app_inj_r in Heq.
Qed.

(** One iteration of the loop of [buildFilterParams]: both branches write
    the key [filter[key]]. *)
Lemma buildFilterParams_step (result : JsObject) key value :
  (if present value then
     if String.eqb key "smart" then obj_set result "filter[smart]" value
     else obj_set result ("filter[" +:+ key +:+ "]") value
   else result)
  = if present value then obj_set result ("filter[" +:+ key +:+ "]") value
    else result.
Proof.
  destruct (present value); [|done].
  by destruct (String.eqb_spec key "smart") as [->|].
Qed.

Lemma buildFilterParams_loop (filters result : JsObject) key :
  NoDup (obj_keys filters) →
  obj_get
    (fold_left
       (λ result entry,
          let '(key, value) := entry in
          if present value then
            if String.eqb key "smart" then obj_set result "filter[smart]" value
            else obj_set result ("filter[" +:+ key +:+ "]") value
          else result)
       filters result)
    ("filter[" +:+ key +:+ "]")
  = if present (obj_get filters key) then obj_get filters key
    else obj_get result ("filter[" +:+ key +:+ "]").
Proof.
  revert result. induction filters as [|[k v] filters IH]; intros result Hnd; [done|].
  apply NoDup_cons in Hnd as [Hk Hnd].
  cbn [fold_left]. rewrite IH by done. rewrite buildFilterParams_step.
  cbn [obj_get]. destruct (String.eqb_spec k key) as [->|Hne].
  - rewrite (obj_get_absent filters key) by done. simpl.
    destruct (present v); [|done]. by rewrite obj_get_obj_set_eq.
  - destruct (present (obj_get filters key)); [done|].
    destruct (present v); [|done].
    apply obj_get_obj_set_ne. intros Heq. by apply filter_key_inj in Heq.
Qed.

Lemma buildFilterParams_keys_loop (filters result : JsObject) k :
  k ∈ obj_keys
        (fold_left
           (λ result entry,
              let '(key, value) := entry in
              if present value then
                if String.eqb key "smart" then obj_set result "filter[smart]" value
                else obj_set result ("filter[" +:+ key +:+ "]") value
              else result)
           filters result) →
  k ∈ obj_keys result ∨
  ∃ key value, (key, value) ∈ filters ∧ present value = true ∧
               k = "filter[" +:+ key +:+ "]".
Proof.
  revert result. induction filters as [|[key v] filters IH]; intros result Hin.
  - by left.
  - cbn [fold_left] in Hin. rewrite buildFilterParams_step in Hin.
    apply IH in Hin as [Hin | (key' & v' & Hk' & Hp & ->)].
    + destruct (present v) eqn:Hv; [|by left].
      rewrite obj_keys_obj_set in Hin. case_decide; [by left|].
      apply elem_of_app in Hin as [Hin | ->%list_elem_of_singleton]; [by left|].
      right. exists key, v. split_and!; [by left|done..].
    + right. exists key', v'. split_and!; [by right|done..].
Qed.

(** X13. For filters with distinct keys, [buildFilterParams] holds under
    [filter[key]] the value that the filters hold under [key], unless that
    value is [undefined], [null] or the empty string, in which case it
    holds nothing there; and every key of the result has the form
    [filter[key]] for a key of the filters. *)
Theorem buildFilterParams_lookup (filters : JsObject) :
  NoDup (obj_keys filters) →
  (∀ key,
     obj_get (buildFilterParams filters) ("filter[" +:+ key +:+ "]")
     = if present (obj_get filters key) then obj_get filters key else VUndefined) ∧
  (∀ k, k ∈ obj_keys (buildFilterParams filters) →
        ∃ key, key ∈ obj_keys filters ∧ k = "filter[" +:+ key +:+ "]").
Proof.
  intros Hnd. split.
  - intros key. unfold buildFilterParams. by rewrite buildFilterParams_loop.
  - intros k Hin. unfold buildFilterParams in Hin.
    apply buildFilterParams_keys_loop in Hin as [Hin | (key & v & Hkv & _ & ->)].
    + by apply elem_of_nil in Hin.
    + exists key. split; [|done]. apply list_elem_of_fmap. by exists (key, v).
Qed.

(** *** [buildAddress] and [simplifyItem] *)

Lemma buildAddress_copy (addressData : JsObject) :
  buildAddress addressData = copy_fields truthy_value addressData addressFields [].
Proof. reflexivity. Qed.

Lemma simplifyItem_copy (item : JsObject) (fields : list string) :
  (∀ field, field ∈ fields → field ∉ Object_prototype) →
  simplifyItem item fields = Some (copy_fields defined item fields []).
Proof.
  intros Hplain. unfold simplifyItem.
  destruct (existsb _ fields) eqn:Hex; [|done].
  apply existsb_exists in Hex as (field & Hin & Hproto).
  apply includes_true in Hproto. destruct (Hplain field); [by apply list_elem_of_In | done].
Qed.

Lemma mapM_total {A B} (f : A → option B) (g : A → B) (l : list A) :
  (∀ x, f x = Some (g x)) → mapM f l = Some (map g l).
Proof.
  intros Hf. induction l as [|x l IH]; [done|].
  cbn. rewrite Hf. cbn. by rewrite IH.
Qed.

Lemma copy_fields_lookup test (source : JsObject) fields (result : JsObject) key :
  obj_get (copy_fields test source fields result) key
  = if bool_decide (key ∈ fields) && test (obj_get source key)
    then obj_get source key
    else obj_get result key.
Proof.
  revert result. induction fields as [|f fields IH]; intros result; [done|].
  unfold copy_fields in *. cbn [fold_left]. rewrite IH.
  destruct (decide (f = key)) as [->|Hne].
  - rewrite (bool_decide_eq_true_2 (key ∈ key :: fields)) by (by left).
    simpl. destruct (test (obj_get source key)) eqn:Ht.
    + rewrite andb_true_r. case_bool_decide; [done|]. by rewrite obj_get_obj_set_eq.
    + by rewrite andb_false_r.
  - assert (Hsame : bool_decide (key ∈ f :: fields) = bool_decide (key ∈ fields)).
    { apply bool_decide_ext. rewrite elem_of_cons.
      split; [intros [Heq|Hin]; [congruence | done] | by right]. }
    rewrite Hsame.
    destruct (bool_decide (key ∈ fields) && test (obj_get source key)); [done|].
    destruct (test (obj_get source f)); [|done].
    by apply obj_get_obj_set_ne.
Qed.

Lemma copy_fields_keys test (source : JsObject) fields (result : JsObject) k :
  k ∈ obj_keys (copy_fields test source fields result) →
  k ∈ obj_keys result ∨ (k ∈ fields ∧ test (obj_get source k) = true).
Proof.
  revert result. induction fields as [|f fields IH]; intros result Hin; [by left|].
  unfold copy_fields in *. cbn [fold_left] in Hin. apply IH in Hin as [Hin | [Hin Ht]].
  - destruct (test (obj_get source f)) eqn:Ht; [|by left].
    rewrite obj_keys_obj_set in Hin. case_decide; [by left|].
    apply elem_of_app in Hin as [Hin | ->%list_elem_of_singleton]; [by left|].
    right. split; [by left | done].
  - right. split; [by right | done].
Qed.

(** The copy reads the source at the fields only, and only through the test
    and the values that pass it. *)
Lemma copy_fields_ext test (source source' : JsObject) fields (result : JsObject) :
  (∀ f, f ∈ fields →
        test (obj_get source f) = test (obj_get source' f) ∧
        (test (obj_get source f) = true → obj_get source f = obj_get source' f)) →
  copy_fields test source fields result = copy_fields test source' fields result.
Proof.
  revert result. induction fields as [|f fields IH]; intros result Hsame; [done|].
  unfold copy_fields in *. cbn [fold_left].
  destruct (Hsame f) as [Ht Hv]; [by left|].
  rewrite <- Ht. destruct (test (obj_get source f)) eqn:Htest.
  - rewrite <- (Hv eq_refl). apply IH. intros g Hg. apply Hsame. by right.
  - apply IH. intros g Hg. apply Hsame. by right.
Qed.

Lemma copy_fields_again test (source : JsObject) fields :
  test VUndefined = false →
  copy_fields test (copy_fields test source fields []) fields []
  = copy_fields test source fields [].
Proof.
  intros Hundef. apply copy_fields_ext. intros f Hf.
  rewrite copy_fields_lookup. rewrite (bool_decide_eq_true_2 _ Hf). simpl.
  destruct (test (obj_get source f)) eqn:Ht; [done|]. by rewrite Hundef.
Qed.

(** X14. [buildAddress] holds under each of the nine address fields the value
    of the input when that value is truthy, and nothing else: falsy values
    (also zero and [false]) and other keys are dropped.  Building the address
    of a built address changes nothing. *)
Theorem buildAddress_lookup (addressData : JsObject) :
  (∀ key,
     obj_get (buildAddress addressData) key
     = if bool_decide (key ∈ addressFields) && truthy_value (obj_get addressData key)
       then obj_get addressData key
       else VUndefined) ∧
  (∀ key, key ∈ obj_keys (buildAddress addressData) → key ∈ addressFields) ∧
  buildAddress (buildAddress addressData) = buildAddress addressData.
Proof.
  rewrite !buildAddress_copy. split_and!.
  - intros key. by rewrite copy_fields_lookup.
  - intros key [Hin | [Hin _]]%copy_fields_keys; [by apply elem_of_nil in Hin | done].
  - by apply copy_fields_again.
Qed.

Lemma simplifyItem_simplified (item : JsObject) (fields : list string) :
  simplified_from fields item (copy_fields defined item fields []).
Proof.
  split.
  - intros key. rewrite copy_fields_lookup.
    destruct (bool_decide (key ∈ fields)); [|done].
    simpl. by destruct (obj_get item key).
  - intros key [Hin | [Hin _]]%copy_fields_keys; [by apply elem_of_nil in Hin | done].
Qed.

(** X15. For a non-empty list of fields that name no member of
    [Object.prototype], [simplifyResponse] gives, for one record or for each
    record of an array, in order, a record that holds under each listed
    field the value of the original, when it has one, and has no other key;
    simplifying the result again with the same fields changes nothing; and
    without fields, or with an empty list of fields, the response is
    returned as it is. *)
Theorem simplifyResponse_idempotent (data : ResponseData) (fields : list string) :
  (∀ field, field ∈ fields → field ∉ Object_prototype) →
  (fields ≠ [] →
   ∃ simplified,
     simplifyResponse data (Some fields) = Some simplified ∧
     simplifyResponse simplified (Some fields) = Some simplified ∧
     match data, simplified with
     | OneRecord record, OneRecord result => simplified_from fields record result
     | ManyRecords records, ManyRecords results =>
         Forall2 (simplified_from fields) records results
     | _, _ => False
     end) ∧
  simplifyResponse data None = Some data ∧
  simplifyResponse data (Some []) = Some data.
Proof.
  intros Hplain. split_and!; [|done..].
  intros Hfields. unfold simplifyResponse.
  destruct (decide (length fields = 0%nat)) as [Hlen|_].
  { by destruct fields. }
  destruct data as [record | records].
  - exists (OneRecord (copy_fields defined record fields [])).
    cbv beta iota. rewrite !simplifyItem_copy by done.
    split_and!; [done| |apply simplifyItem_simplified].
    cbn. by rewrite copy_fields_again.
  - exists (ManyRecords (map (λ item, copy_fields defined item fields []) records)).
    cbv beta iota.
    rewrite !(mapM_total _ (λ item, copy_fields defined item fields []))
      by (intros item; by apply simplifyItem_copy).
    split_and!; [done|..].
    + cbn. rewrite map_map. do 2 f_equal. apply map_ext.
      intros item. by apply copy_fields_again.
    + induction records as [|item records IH]; [by constructor|].
      constructor; [apply simplifyItem_simplified | exact IH].
Qed.

(** *** GUIDs and references *)

Lemma hex_run_spec (n : nat) (s rest : string) :
  hex_run n s = Some rest ↔
  ∃ digits, s = digits +:+ rest ∧ String.length digits = n ∧ all_hex digits.
Proof.
  revert s. induction n as [|n IH]; intros s; simpl.
  - split.
    + intros [= ->]. exists "". split_and!; [done..|].
      intros c Hc. by apply elem_of_nil in Hc.
    + intros (digits & -> & Hlen & _). by destruct digits.
  - destruct s as [|c s].
    + split; [done|]. intros ([|d digits] & Heq & Hlen & _); [done|].
      discriminate Heq.
    + destruct (is_hex c) eqn:Hc.
      * rewrite IH. split.
        -- intros (digits & -> & Hlen & Hall). exists (String c digits).
           split_and!; [done|by rewrite <- Hlen|].
           intros d [->|Hd]%elem_of_cons; [done | by apply Hall].
        -- intros ([|d digits] & Heq & Hlen & Hall); [done|].
           change (String c s = String d (digits +:+ rest)) in Heq.
           injection Heq as -> ->. exists digits.
           split_and!; [done|by injection Hlen|].
           intros x Hx. apply Hall. by right.
      * split; [done|]. intros ([|d digits] & Heq & Hlen & Hall); [done|].
        change (String c s = String d (digits +:+ rest)) in Heq.
        injection Heq as -> ->. rewrite Hall in Hc; [done | by left].
Qed.

Lemma hyphen_spec (s rest : string) : hyphen s = Some rest ↔ s = "-" +:+ rest.
Proof.
  destruct s as [|c s]; simpl; [done|].
  destruct (Ascii.eqb_spec c "-") as [->|Hne]; split; intros H; try done.
  - by injection H as ->.
  - by injection H as ->.
  - change (String c s = String "-" rest) in H. by injection H as -> ->.
Qed.

(** X16. [isValidGuid] accepts exactly the strings made of five groups of
    8, 4, 4, 4 and 12 hexadecimal digits, in either case, joined by
    hyphens. *)
Theorem isValidGuid_shape (value : string) :
  isValidGuid value = true ↔
  ∃ a b c d e,
    value = a +:+ "-" +:+ b +:+ "-" +:+ c +:+ "-" +:+ d +:+ "-" +:+ e ∧
    String.length a = 8%nat ∧ String.length b = 4%nat ∧ String.length c = 4%nat ∧
    String.length d = 4%nat ∧ String.length e = 12%nat ∧
    all_hex a ∧ all_hex b ∧ all_hex c ∧ all_hex d ∧ all_hex e.
Proof.
  unfold isValidGuid. split.
  - destruct (hex_run 8 value) as [s1|] eqn:H1; [|done]. cbn [mbind option_bind].
    destruct (hyphen s1) as [s2|] eqn:H2; [|done]. cbn [mbind option_bind].
    destruct (hex_run 4 s2) as [s3|] eqn:H3; [|done]. cbn [mbind option_bind].
    destruct (hyphen s3) as [s4|] eqn:H4; [|done]. cbn [mbind option_bind].
    destruct (hex_run 4 s4) as [s5|] eqn:H5; [|done]. cbn [mbind option_bind].
    destruct (hyphen s5) as [s6|] eqn:H6; [|done]. cbn [mbind option_bind].
    destruct (hex_run 4 s6) as [s7|] eqn:H7; [|done]. cbn [mbind option_bind].
    destruct (hyphen s7) as [s8|] eqn:H8; [|done]. cbn [mbind option_bind].
    destruct (hex_run 12 s8) as [[|x s9]|] eqn:H9; [|done..]. intros _.
    apply hex_run_spec in H1 as (a & -> & ? & ?).
    apply hyphen_spec in H2 as ->.
    apply hex_run_spec in H3 as (b & -> & ? & ?).
    apply hyphen_spec in H4 as ->.
    apply hex_run_spec in H5 as (c & -> & ? & ?).
    apply hyphen_spec in H6 as ->.
    apply hex_run_spec in H7 as (d & -> & ? & ?).
    apply hyphen_spec in H8 as ->.
    apply hex_run_spec in H9 as (e & -> & ? & ?).
    exists a, b, c, d, e. split_and!; try done.
    assert (He : e +:+ "" = e).
    { clear. induction e as [|x e IH]; [done|].
      change (String x (e +:+ "") = String x e). by rewrite IH. }
    by rewrite He.
  - intros (a & b & c & d & e & -> & Ha & Hb & Hc & Hd & He & ? & ? & ? & ? & ?).
    assert (H9 : hex_run 12 e = Some "").
    { apply hex_run_spec. exists e. split_and!; [|done..].
      clear. induction e as [|x e IH]; [done|].
      change (String x e = String x (e +:+ "")). by rewrite <- IH. }
    rewrite (proj2 (hex_run_spec 8 _ _)) by (by exists a). cbn [mbind option_bind].
    rewrite (proj2 (hyphen_spec _ _) eq_refl). cbn [mbind option_bind].
    rewrite (proj2 (hex_run_spec 4 _ _)) by (by exists b). cbn [mbind option_bind].
    rewrite (proj2 (hyphen_spec _ _) eq_refl). cbn [mbind option_bind].
    rewrite (proj2 (hex_run_spec 4 _ _)) by (by exists c). cbn [mbind option_bind].
    rewrite (proj2 (hyphen_spec _ _) eq_refl). cbn [mbind option_bind].
    rewrite (proj2 (hex_run_spec 4 _ _)) by (by exists d). cbn [mbind option_bind].
    rewrite (proj2 (hyphen_spec _ _) eq_refl). cbn [mbind option_bind].
    by rewrite H9.
Qed.

(** X17. Extracting the entity id of the reference made from a string gives
    what extracting it from the string itself gives: the string when it is a
    GUID, and [undefined] otherwise. *)
Theorem extractEntityId_createReference (value : string) :
  extractEntityId (VObject (createReference value)) = extractEntityId (VStr value) ∧
  extractEntityId (VStr value)
  = (if isValidGuid value then VStr value else VUndefined) ∧
  createReference value = parseEntityReference (inl value).
Proof.
  unfold extractEntityId, createReference, parseEntityReference.
  by destruct (isValidGuid value).
Qed.

(** *** [batchArray] *)

Lemma slice_batch {T} (array : list T) (batchSize i : Z) :
  0 ≤ i → 0 < batchSize →
  slice array i (i + batchSize)
  = take (Z.to_nat batchSize) (drop (Z.to_nat i) array).
Proof.
  intros Hi Hb. unfold slice.
  destruct (Z.ltb_spec i 0) as [?|_]; [lia|].
  destruct (Z.ltb_spec (i + batchSize) 0) as [?|_]; [lia|].
  destruct (Z.le_gt_cases (Z.of_nat (length array)) i) as [Hout | Hin].
  - rewrite !drop_ge by lia. by rewrite !take_nil.
  - rewrite (Z.min_l i) by lia.
    destruct (Z.le_gt_cases (i + batchSize) (Z.of_nat (length array))) as [Hfull | Hlast].
    + rewrite Z.min_l by lia. f_equal. lia.
    + rewrite Z.min_r by lia. rewrite !take_ge; [done| |];
        rewrite length_drop; lia.
Qed.

Lemma batchArray_loop_spec {T} (array : list T) (batchSize : Z) :
  0 < batchSize →
  ∀ fuel i batches,
    0 ≤ i → Z.max 0 (Z.of_nat (length array) - i) < Z.of_nat fuel →
    ∃ out,
      batchArray_loop fuel array batchSize i batches = Some (batches ++ out) ∧
      List.concat out = drop (Z.to_nat i) array ∧
      Forall (λ b, (0 < length b ≤ Z.to_nat batchSize)%nat) out ∧
      (∀ j b, out !! j = Some b → (S j < length out)%nat →
              length b = Z.to_nat batchSize) ∧
      (Z.of_nat (length array) ≤ i → out = []).
Proof.
  intros Hb. induction fuel as [|fuel IH]; intros i batches Hi Hfuel; [lia|].
  cbn [batchArray_loop].
  destruct (Z.ltb_spec i (Z.of_nat (length array))) as [Hin | Hout].
  - destruct (IH (i + batchSize) (batches ++ [slice array i (i + batchSize)]))
      as (out & Hrun & Hcat & Hall & Hfull & Hend); [lia..|].
    rewrite slice_batch in Hrun |- * by done.
    exists (take (Z.to_nat batchSize) (drop (Z.to_nat i) array) :: out).
    split_and!.
    + by rewrite Hrun, <- app_assoc.
    + cbn [List.concat]. rewrite Hcat.
      replace (Z.to_nat (i + batchSize)) with (Z.to_nat i + Z.to_nat batchSize)%nat
        by lia.
      rewrite <- drop_drop. apply take_drop.
    + apply Forall_cons. split; [|done].
      rewrite length_take, length_drop. lia.
    + intros [|j] b Hb' Hlen.
      * injection Hb' as <-. rewrite length_take, length_drop.
        destruct (Z.le_gt_cases (Z.of_nat (length array)) (i + batchSize)) as [Hlast|?];
          [|lia].
        rewrite (Hend Hlast) in Hlen. simpl in Hlen. lia.
      * apply (Hfull j b Hb'). simpl in Hlen. lia.
    + lia.
  - exists []. rewrite app_nil_r. split_and!; [done| |done| |done].
    + by rewrite drop_ge by lia.
    + intros j b Hj. done.
Qed.

(** X18. With a positive batch size, [batchArray] returns after at most one
    iteration per element; the batches, put end to end, are the array; no
    batch is empty or longer than the batch size, and every batch but the
    last has exactly the batch size. *)
Theorem batchArray_partitions {T} (array : list T) (batchSize : Z) (fuel : nat) :
  0 < batchSize →
  (length array < fuel)%nat →
  ∃ batches,
    batchArray fuel array batchSize = Some batches ∧
    List.concat batches = array ∧
    Forall (λ b, (0 < length b ≤ Z.to_nat batchSize)%nat) batches ∧
    ∀ j b, batches !! j = Some b → (S j < length batches)%nat →
           length b = Z.to_nat batchSize.
Proof.
  intros Hb Hfuel.
  destruct (batchArray_loop_spec array batchSize Hb fuel 0 [])
    as (out & Hrun & Hcat & Hall & Hfull & _); [lia..|].
  exists out. by split_and!.
Qed.

(** X19. With a batch size of zero or less, [batchArray] never returns on a
    non-empty array: the index never passes the end of the array. *)
Theorem batchArray_never_returns {T} (array : list T) (batchSize : Z) (fuel : nat) :
  batchSize ≤ 0 →
  array ≠ [] →
  batchArray fuel array batchSize = None.
Proof.
  intros Hb Hne. unfold batchArray.
  assert (Hloop : ∀ i batches, i ≤ 0 →
                    batchArray_loop fuel array batchSize i batches = None).
  { induction fuel as [|fuel IH]; intros i batches Hi; [done|].
    cbn [batchArray_loop].
    destruct (Z.ltb_spec i (Z.of_nat (length array))) as [_|Hout].
    - apply IH. lia.
    - destruct array; [done|]. simpl in Hout. lia. }
  by apply Hloop.
Qed.

(** *** [truncate] *)

Lemma string_length_substring (n : nat) (s : string) :
  String.length (String.substring 0 n s) = Nat.min n (String.length s).
Proof.
  revert s. induction n as [|n IH]; intros [|c s]; simpl; [done..|].
  by rewrite IH.
Qed.

Lemma string_substring_prefix (n : nat) (s : string) :
  ∃ rest, s = String.substring 0 n s +:+ rest.
Proof.
  revert s. induction n as [|n IH]; intros [|c s]; simpl; try by eexists.
  destruct (IH s) as [rest Hrest]. exists rest.
  change (String c s = String c (String.substring 0 n s +:+ rest)). by rewrite <- Hrest.
Qed.

(** X20. With a limit of three or more, the result of [truncate] is never
    longer than the limit: a string that fits is returned as it is, and a
    longer one is cut to its first [maxLength - 3] characters followed by
    three dots. *)
Theorem truncate_fits (str : string) (maxLength : Z) :
  3 ≤ maxLength →
  Z.of_nat (String.length (truncate str maxLength)) ≤ maxLength ∧
  (Z.of_nat (String.length str) ≤ maxLength → truncate str maxLength = str) ∧
  (maxLength < Z.of_nat (String.length str) →
   ∃ prefix rest,
     str = prefix +:+ rest ∧
     Z.of_nat (String.length prefix) = maxLength - 3 ∧
     truncate str maxLength = prefix +:+ "...").
Proof.
  intros Hmax. unfold truncate, substring_from_start.
  destruct (Z.leb_spec (Z.of_nat (String.length str)) maxLength) as [Hfit | Hcut].
  - split_and!; [done|done|lia].
  - split_and!.
    + rewrite string_length_app, string_length_substring. simpl. lia.
    + lia.
    + intros _.
      destruct (string_substring_prefix
                  (Z.to_nat (Z.max 0 (Z.min (maxLength - 3) (Z.of_nat (String.length str)))))
                  str) as [rest Hrest].
      eexists _, rest. split_and!; [exact Hrest| |done].
      rewrite string_length_substring. lia.
Qed.

(** X21. With a limit below three, [truncate] turns every string longer than
    the limit into three dots, which is longer than the limit. *)
Theorem truncate_small_limit (str : string) (maxLength : Z) :
  maxLength < 3 →
  maxLength < Z.of_nat (String.length str) →
  truncate str maxLength = "...".
Proof.
  intros Hmax Hcut. unfold truncate, substring_from_start.
  destruct (Z.leb_spec (Z.of_nat (String.length str)) maxLength) as [Hfit | _]; [lia|].
  replace (Z.to_nat (Z.max 0 (Z.min (maxLength - 3) (Z.of_nat (String.length str)))))
    with 0%nat by lia.
  by destruct str.
Qed.

(** *** [retryOperation] *)

Lemma backoff_snoc initialDelay first count :
  backoff initialDelay first (S count)
  = backoff initialDelay first count
    ++ [initialDelay * 2 ^ Z.of_nat (first + count)].
Proof. unfold backoff. by rewrite seq_S, map_app. Qed.

Lemma backoff_cons initialDelay first count :
  backoff initialDelay first (S count)
  = initialDelay * 2 ^ Z.of_nat first :: backoff initialDelay (S first) count.
Proof. reflexivity. Qed.

Lemma total_backoff initialDelay count :
  total (backoff initialDelay 0 count) = initialDelay * (2 ^ Z.of_nat count - 1).
Proof.
  induction count as [|count IH]; [simpl; lia|].
  rewrite backoff_snoc. unfold total in *. rewrite foldr_app. simpl.
  assert (Hshift : ∀ l a, foldr Z.add a l = foldr Z.add 0 l + a).
  { induction l as [|x l IHl]; intros a; simpl; [lia|]. rewrite IHl. lia. }
  rewrite Hshift, IH. rewrite Nat2Z.inj_succ, Z.pow_succ_r by lia. lia.
Qed.

Lemma retryOperation_loop_step {T} (remaining : nat) (operation : nat → Outcome T)
    (maxRetries initialDelay attempt : Z) (lastError : Thrown) (made : nat)
    (waited : list Z) :
  retryOperation_loop (S remaining) operation maxRetries initialDelay attempt
    lastError (mkRetrying made waited)
  = match operation made with
    | Resolved value => (inl value, mkRetrying (S made) waited)
    | Rejected error =>
        retryOperation_loop remaining operation maxRetries initialDelay
          (attempt + 1) (ThrownError error)
          (mkRetrying (S made)
             (if attempt <? maxRetries
              then waited ++ [initialDelay * 2 ^ attempt]
              else waited))
    end.
Proof.
  cbn [retryOperation_loop calls delays].
  destruct (operation made); [done|]. by destruct (attempt <? maxRetries).
Qed.

Lemma retryOperation_loop_success {T} (operation : nat → Outcome T)
    (maxRetries initialDelay : Z) (value : T) :
  ∀ k remaining made waited lastError,
    Z.of_nat made + Z.of_nat remaining = maxRetries + 1 →
    (k < remaining)%nat →
    (∀ j, (made ≤ j < made + k)%nat → ∃ error, operation j = Rejected error) →
    operation (made + k)%nat = Resolved value →
    retryOperation_loop remaining operation maxRetries initialDelay
      (Z.of_nat made) lastError (mkRetrying made waited)
    = (inl value,
       mkRetrying (S (made + k)) (waited ++ backoff initialDelay made k)).
Proof.
  induction k as [|k IH]; intros remaining made waited lastError Hsum Hk Hfail Hok;
    (destruct remaining as [|remaining]; [lia|]);
    rewrite retryOperation_loop_step.
  - rewrite Nat.add_0_r in Hok. rewrite Hok. by rewrite Nat.add_0_r, app_nil_r.
  - destruct (Hfail made) as [error Herr]; [lia|]. rewrite Herr.
    destruct (Z.ltb_spec (Z.of_nat made) maxRetries) as [_|?]; [|lia].
    replace (Z.of_nat made + 1) with (Z.of_nat (S made)) by lia.
    rewrite (IH remaining (S made)); [|lia|lia| |].
    + rewrite backoff_cons, <- app_assoc. do 2 f_equal. lia.
    + intros j Hj. apply Hfail. lia.
    + by replace (S made + k)%nat with (made + S k)%nat by lia.
Qed.

Lemma retryOperation_loop_failure {T} (operation : nat → Outcome T)
    (maxRetries initialDelay : Z) (last : string) :
  ∀ remaining made waited lastError,
    Z.of_nat made + Z.of_nat (S remaining) = maxRetries + 1 →
    (∀ j, (made ≤ j ≤ made + remaining)%nat → ∃ error, operation j = Rejected error) →
    operation (made + remaining)%nat = Rejected last →
    retryOperation_loop (S remaining) operation maxRetries initialDelay
      (Z.of_nat made) lastError (mkRetrying made waited)
    = (inr (ThrownError last),
       mkRetrying (S (made + remaining))
         (waited ++ backoff initialDelay made remaining)).
Proof.
  induction remaining as [|remaining IH]; intros made waited lastError Hsum Hfail Hlast;
    rewrite retryOperation_loop_step.
  - rewrite Nat.add_0_r in Hlast. rewrite Hlast.
    destruct (Z.ltb_spec (Z.of_nat made) maxRetries) as [?|_]; [lia|].
    by rewrite Nat.add_0_r, app_nil_r.
  - destruct (Hfail made) as [error Herr]; [lia|]. rewrite Herr.
    destruct (Z.ltb_spec (Z.of_nat made) maxRetries) as [_|?]; [|lia].
    replace (Z.of_nat made + 1) with (Z.of_nat (S made)) by lia.
    rewrite (IH (S made)); [|lia| |].
    + rewrite backoff_cons, <- app_assoc. do 2 f_equal. lia.
    + intros j Hj. apply Hfail. lia.
    + by replace (S made + remaining)%nat with (made + S remaining)%nat by lia.
Qed.

(** X22. When the first [k] calls of the operation fail and the next one
    succeeds, with [k] at most [maxRetries], [retryOperation] returns the
    value of that call after [k + 1] calls, having waited before each retry
    the initial delay doubled at each failure, [initialDelay * (2 ^ k - 1)]
    in all. *)
Theorem retryOperation_returns_first_success {T} (operation : nat → Outcome T)
    (maxRetries initialDelay : Z) (k : nat) (value : T) :
  Z.of_nat k ≤ maxRetries →
  (∀ j, (j < k)%nat → ∃ error, operation j = Rejected error) →
  operation k = Resolved value →
  retryOperation operation maxRetries initialDelay
  = (inl value, mkRetrying (S k) (backoff initialDelay 0 k)) ∧
  total (backoff initialDelay 0 k) = initialDelay * (2 ^ Z.of_nat k - 1).
Proof.
  intros Hk Hfail Hok. split; [|apply total_backoff]. unfold retryOperation.
  apply (retryOperation_loop_success operation maxRetries initialDelay value
           k (Z.to_nat (maxRetries + 1)) 0 [] ThrownUndefined); [lia|lia| |done].
  intros j Hj. apply Hfail. lia.
Qed.

(** X23. When the calls [0 .. maxRetries] of the operation all fail,
    [retryOperation] throws the error of the last of them after
    [maxRetries + 1] calls, having waited after every failure but the last,
    [initialDelay * (2 ^ maxRetries - 1)] in all. *)
Theorem retryOperation_throws_last_error {T} (operation : nat → Outcome T)
    (maxRetries initialDelay : Z) (last : string) :
  0 ≤ maxRetries →
  (∀ j, Z.of_nat j ≤ maxRetries → ∃ error, operation j = Rejected error) →
  operation (Z.to_nat maxRetries) = Rejected last →
  retryOperation (T:=T) operation maxRetries initialDelay
  = (inr (ThrownError last),
     mkRetrying (S (Z.to_nat maxRetries))
       (backoff initialDelay 0 (Z.to_nat maxRetries))) ∧
  total (backoff initialDelay 0 (Z.to_nat maxRetries))
  = initialDelay * (2 ^ maxRetries - 1).
Proof.
  intros Hmax Hfail Hlast. split.
  - unfold retryOperation.
    replace (Z.to_nat (maxRetries + 1)) with (S (Z.to_nat maxRetries)) by lia.
    apply (retryOperation_loop_failure operation maxRetries initialDelay last
             (Z.to_nat maxRetries) 0 [] ThrownUndefined); [lia| |done].
    intros j Hj. apply Hfail. lia.
  - rewrite total_backoff. by rewrite Z2Nat.id.
Qed.

(** X24. With a negative [maxRetries], [retryOperation] never calls the
    operation and throws [undefined]. *)
Theorem retryOperation_without_attempt {T} (operation : nat → Outcome T)
    (maxRetries initialDelay : Z) :
  maxRetries < 0 →
  retryOperation operation maxRetries initialDelay
  = (inr ThrownUndefined, mkRetrying 0 []).
Proof.
  intros Hneg. unfold retryOperation.
  by replace (Z.to_nat (maxRetries + 1)) with 0%nat by lia.
Qed.

(** *** [inFlowApiRequestAllItems] *)

Lemma query_set_nonempty query key value : query_set query key value ≠ [].
Proof.
  destruct query as [|[k v] query]; simpl; [done|].
  by destruct (String.eqb k key).
Qed.

Lemma request_with_set method endpoint body query key value :
  mkRequest method endpoint (if decide (body = []) then None else Some body)
    (if decide (query_set query key value = []) then None
     else Some (query_set query key value))
  = request_with method endpoint body (query_set query key value).
Proof.
  unfold request_with.
  destruct (decide (query_set query key value = [])) as [Heq|_]; [|done].
  by destruct (query_set_nonempty _ _ _ Heq).
Qed.

(** One iteration of the loop. *)
Lemma inFlowApiRequestAllItems_step fuel context method endpoint body query limit
    afterEntityId returnData :
  inFlowApiRequestAllItems_loop (S fuel) context method endpoint body query limit
    afterEntityId returnData
  = (let query :=
       if truthy afterEntityId
       then query_set query "after" (QStr (default "" afterEntityId))
       else query in
     responseData ← inFlowApiRequest context method endpoint body query;
     match responseData with
     | JArray (first :: others) =>
         let responseData := first :: others in
         let returnData := returnData ++ responseData in
         let afterEntityId := Some (entityId (List.last responseData first)) in
         let hasMore := Nat.eqb (length responseData) 50 in
         if limit_set limit
            && (default 0 limit <=? Z.of_nat (length returnData)) then
           mret (Some (slice returnData 0 (default 0 limit)))
         else if hasMore then
           inFlowApiRequestAllItems_loop fuel context method endpoint body query
             limit afterEntityId returnData
         else mret (Some returnData)
     | _ => mret (Some returnData)
     end).
Proof. reflexivity. Qed.

(** X25. Without a limit, when the first answer is an array of fewer than
    fifty records, [inFlowApiRequestAllItems] returns those records after
    that one request, which carries the caller's query with [count] set to
    fifty. *)
Theorem allItems_single_page context method endpoint body query fuel items w :
  helpers_request context
    (request_with method endpoint body (query_set (default [] query) "count" (QNum 50)))
  = Answers (JArray items) →
  (length items < 50)%nat →
  inFlowApiRequestAllItems (S fuel) context method endpoint body query None w
  = (Resolved (Some items),
     mkWorld (static w)
       (sent w ++ [request_with method endpoint body
                     (query_set (default [] query) "count" (QNum 50))])).
Proof.
  intros Hreq Hshort. unfold inFlowApiRequestAllItems.
  rewrite inFlowApiRequestAllItems_step. cbv zeta. cbn [truthy].
  unfold mbind, Async_bind.
  rewrite (inFlowApiRequest_answers _ _ _ _ _ (JArray items)), request_with_set
    by (by rewrite request_with_set).
  destruct items as [|first others]; [done|].
  cbn [limit_set andb app]. 
  destruct (Nat.eqb_spec (length (first :: others)) 50) as [Hfull|_]; [lia|done].
Qed.

Lemma last_default {A} (l : list A) (d x : A) :
  last l = Some x → List.last l d = x.
Proof.
  induction l as [|y l IH]; [done|]. destruct l as [|z l].
  - by intros [= ->].
  - intros Hlast. apply IH. exact Hlast.
Qed.

(** After a first full page, the loop goes on from its last record. *)
Lemma allItems_after_full_page context method endpoint body query fuel page1 lastItem w :
  helpers_request context
    (request_with method endpoint body (query_set (default [] query) "count" (QNum 50)))
  = Answers (JArray page1) →
  length page1 = 50%nat →
  last page1 = Some lastItem →
  inFlowApiRequestAllItems (S fuel) context method endpoint body query None w
  = inFlowApiRequestAllItems_loop fuel context method endpoint body
      (query_set (default [] query) "count" (QNum 50)) None
      (Some (entityId lastItem)) page1
      (mkWorld (static w)
         (sent w ++ [request_with method endpoint body
                       (query_set (default [] query) "count" (QNum 50))])).
Proof.
  intros Hreq Hfull Hlast. unfold inFlowApiRequestAllItems.
  rewrite inFlowApiRequestAllItems_step. cbv zeta. cbn [truthy].
  unfold mbind, Async_bind.
  rewrite (inFlowApiRequest_answers _ _ _ _ _ (JArray page1)), request_with_set
    by (by rewrite request_with_set).
  destruct page1 as [|first others]; [done|].
  cbn [limit_set andb app]. rewrite Hfull. cbn [Nat.eqb].
  by rewrite (last_default _ first lastItem Hlast).
Qed.

(** X26. Without a limit, when the first answer is a full page of fifty
    records and the second a shorter one, [inFlowApiRequestAllItems] returns
    the two pages end to end after two requests, the second of which carries
    under [after] the id of the last record of the first page. *)
Theorem allItems_two_pages context method endpoint body query fuel
    page1 page2 lastItem w :
  helpers_request context
    (request_with method endpoint body (query_set (default [] query) "count" (QNum 50)))
  = Answers (JArray page1) →
  length page1 = 50%nat →
  last page1 = Some lastItem →
  entityId lastItem ≠ "" →
  helpers_request context
    (request_with method endpoint body
       (query_set (query_set (default [] query) "count" (QNum 50)) "after"
          (QStr (entityId lastItem))))
  = Answers (JArray page2) →
  (length page2 < 50)%nat →
  inFlowApiRequestAllItems (S (S fuel)) context method endpoint body query None w
  = (Resolved (Some (page1 ++ page2)),
     mkWorld (static w)
       (sent w ++
        [request_with method endpoint body
           (query_set (default [] query) "count" (QNum 50));
         request_with method endpoint body
           (query_set (query_set (default [] query) "count" (QNum 50)) "after"
              (QStr (entityId lastItem)))])).
Proof.
  intros Hreq1 Hfull Hlast Hid Hreq2 Hshort.
  rewrite (allItems_after_full_page _ _ _ _ _ _ page1 lastItem) by done.
  rewrite inFlowApiRequestAllItems_step. cbv zeta.
  assert (Htruthy : truthy (Some (entityId lastItem)) = true).
  { apply truthy_Some. by exists (entityId lastItem). }
  rewrite Htruthy. cbn [default from_option id]. unfold mbind, Async_bind.
  rewrite (inFlowApiRequest_answers _ _ _ _ _ (JArray page2)), request_with_set
    by (by rewrite request_with_set).
  cbn [static sent]. rewrite <- app_assoc. cbn [app].
  destruct page2 as [|first others]; [by rewrite app_nil_r|].
  cbn [limit_set andb].
  destruct (Nat.eqb_spec (length (first :: others)) 50) as [?|_]; [lia|done].
Qed.

(** X27. When a later request fails, [inFlowApiRequestAllItems] rejects: the
    records of the pages fetched before are not returned. *)
Theorem allItems_failure_loses_pages context method endpoint body query fuel
    page1 lastItem message w :
  helpers_request context
    (request_with method endpoint body (query_set (default [] query) "count" (QNum 50)))
  = Answers (JArray page1) →
  length page1 = 50%nat →
  last page1 = Some lastItem →
  entityId lastItem ≠ "" →
  helpers_request context
    (request_with method endpoint body
       (query_set (query_set (default [] query) "count" (QNum 50)) "after"
          (QStr (entityId lastItem))))
  = Fails message →
  ∃ w',
    inFlowApiRequestAllItems (S (S fuel)) context method endpoint body query None w
    = (Rejected ("inFlow API Request Failed: " +:+ message), w').
Proof.
  intros Hreq1 Hfull Hlast Hid Hreq2.
  rewrite (allItems_after_full_page _ _ _ _ _ _ page1 lastItem) by done.
  rewrite inFlowApiRequestAllItems_step. cbv zeta.
  assert (Htruthy : truthy (Some (entityId lastItem)) = true).
  { apply truthy_Some. by exists (entityId lastItem). }
  rewrite Htruthy. cbn [default from_option id]. unfold mbind, Async_bind.
  rewrite (inFlowApiRequest_fails _ _ _ _ _ message)
    by (by rewrite request_with_set).
  by eexists.
Qed.

(** X28. Without a limit (or with a limit of zero), when the service answers
    every request with a full page, [inFlowApiRequestAllItems] never
    returns: after any number of iterations the loop is still running. *)
Theorem allItems_never_returns context method endpoint body query limit fuel w :
  endless context →
  limit_set limit = false →
  (inFlowApiRequestAllItems fuel context method endpoint body query limit w).1
  = Resolved None.
Proof.
  intros Hendless Hlimit. unfold inFlowApiRequestAllItems.
  generalize (query_set (default [] query) "count" (QNum 50)).
  generalize (@None string). generalize (@nil IDataObject). revert w.
  induction fuel as [|fuel IH]; intros w returnData afterEntityId q; [done|].
  rewrite inFlowApiRequestAllItems_step. cbv zeta. unfold mbind, Async_bind.
  match goal with
  | |- context [inFlowApiRequest ?c ?m ?e ?b ?q' ?w'] =>
      destruct (Hendless (mkRequest m e (if decide (b = []) then None else Some b)
                            (if decide (q' = []) then None else Some q')))
        as (items & Hreq & Hfull);
      rewrite (inFlowApiRequest_answers c m e b q' (JArray items) w' Hreq)
  end.
  destruct items as [|first others]; [done|].
  rewrite Hlimit. cbn [andb]. rewrite Hfull. cbn [Nat.eqb]. apply IH.
Qed.

Lemma slice_first {T} (array : list T) (n : Z) :
  0 < n → n ≤ Z.of_nat (length array) →
  slice array 0 n = take (Z.to_nat n) array.
Proof.
  intros Hn Hlen. unfold slice.
  destruct (Z.ltb_spec 0 0) as [?|_]; [lia|].
  destruct (Z.ltb_spec n 0) as [?|_]; [lia|].
  rewrite Z.min_l by lia. rewrite Z.min_l by lia.
  replace (Z.to_nat 0) with 0%nat by lia. rewrite drop_0. f_equal. lia.
Qed.

Lemma allItems_loop_limit context method endpoint body (limit : Z) :
  0 < limit →
  ∀ fuel returnData query afterEntityId w,
    Z.of_nat (length returnData) < limit →
    limit - Z.of_nat (length returnData) ≤ 50 * Z.of_nat fuel →
    ∃ o requests,
      inFlowApiRequestAllItems_loop fuel context method endpoint body query
        (Some limit) afterEntityId returnData w
      = (o, mkWorld (static w) (sent w ++ requests)) ∧
      Z.of_nat (length requests) * 50 < limit - Z.of_nat (length returnData) + 50 ∧
      match o with
      | Resolved None => False
      | Resolved (Some records) => Z.of_nat (length records) ≤ limit
      | Rejected _ => True
      end.
Proof.
  intros Hlimit. induction fuel as [|fuel IH];
    intros returnData query afterEntityId w Hless Hfuel; [lia|].
  rewrite inFlowApiRequestAllItems_step. cbv zeta. unfold mbind, Async_bind.
  match goal with
  | |- context [inFlowApiRequest ?c ?m ?e ?b ?q ?w'] =>
      destruct (inFlowApiRequest_cases c m e b q w') as [o Ho]; rewrite Ho; clear Ho
  end.
  destruct o as [[[|first others]|text]|error].
  - eexists _, [_]. split; [reflexivity|]. split; [simpl; lia|]. simpl. lia.
  - cbn [limit_set default from_option id].
    assert (Hset : negb (limit =? 0) = true).
    { apply negb_true_iff, Z.eqb_neq. lia. }
    rewrite Hset. cbn [andb].
    destruct (Z.leb_spec limit (Z.of_nat (length (returnData ++ first :: others))))
      as [Hreached | Hmore].
    + eexists _, [_]. split; [reflexivity|]. split; [simpl; lia|].
      rewrite slice_first by lia. rewrite length_take. lia.
    + destruct (Nat.eqb_spec (length (first :: others)) 50) as [Hfull | Hshort].
      * match goal with
        | |- context [inFlowApiRequestAllItems_loop fuel ?c ?m ?e ?b ?q ?l ?a ?r ?w'] =>
            destruct (IH r q a w') as (o & requests & Hrun & Hcount & Hres)
        end.
        { lia. }
        { rewrite length_app in Hmore |- *. rewrite Hfull in Hmore |- *. lia. }
        rewrite Hrun. cbn [static sent].
        eexists o, (_ :: requests). rewrite <- app_assoc. split; [reflexivity|].
        split; [|exact Hres].
        rewrite length_app, Hfull in Hcount. simpl length. lia.
      * eexists _, [_]. split; [reflexivity|]. split; [simpl; lia|]. simpl. lia.
  - eexists _, [_]. split; [reflexivity|]. split; [simpl; lia|]. simpl. lia.
  - eexists _, [_]. split; [reflexivity|]. split; [simpl; lia|]. done.
Qed.

(** X29. With a positive limit, [inFlowApiRequestAllItems] ends within one
    iteration per fifty records of the limit, whatever the service answers:
    it rejects or returns at most [limit] records, after at most
    [limit / 50], rounded up, requests, and it leaves the static data
    alone. *)
Theorem allItems_respects_limit context method endpoint body query (limit : Z)
    fuel w :
  0 < limit →
  limit ≤ 50 * Z.of_nat fuel →
  ∃ o requests,
    inFlowApiRequestAllItems fuel context method endpoint body query (Some limit) w
    = (o, mkWorld (static w) (sent w ++ requests)) ∧
    Z.of_nat (length requests) * 50 < limit + 50 ∧
    match o with
    | Resolved None => False
    | Resolved (Some records) => Z.of_nat (length records) ≤ limit
    | Rejected _ => True
    end.
Proof.
  intros Hlimit Hfuel. unfold inFlowApiRequestAllItems.
  destruct (allItems_loop_limit context method endpoint body limit Hlimit fuel []
              (query_set (default [] query) "count" (QNum 50)) None w)
    as (o & requests & Hrun & Hcount & Hres); [simpl; lia..|].
  exists o, requests. split; [exact Hrun|]. split; [|exact Hres].
  simpl in Hcount. lia.
Qed.

(** *** The helpers on concrete inputs *)


Lemma sample_filters_keys_distinct : NoDup (obj_keys sample_filters).
Proof.
  repeat (apply NoDup_cons; split;
          [intros Hin; repeat (apply elem_of_cons in Hin as [Hin | Hin];
                               [discriminate Hin|]);
           by apply elem_of_nil in Hin|]).
  apply NoDup_nil_2.
Defined.

(** The smart filter is kept and the null filter is dropped. *)
Lemma buildFilterParams_lookup_witness :
  NoDup (obj_keys sample_filters) ∧
  obj_get (buildFilterParams sample_filters) "filter[smart]" = VStr "test" ∧
  obj_get (buildFilterParams sample_filters) "filter[name]" = VUndefined.
Proof.
  split; [exact sample_filters_keys_distinct|].
  destruct (buildFilterParams_lookup sample_filters sample_filters_keys_distinct)
    as [Hlookup _].
  split; [exact (Hlookup "smart") | exact (Hlookup "name")].
Defined.

(** Five elements in batches of two. *)
Lemma batchArray_partitions_witness :
  0 < 2 ∧ (length [1; 2; 3; 4; 5] < 6)%nat ∧
  ∃ batches,
    batchArray 6 [1; 2; 3; 4; 5] 2 = Some batches ∧
    List.concat batches = [1; 2; 3; 4; 5].
Proof.
  split; [lia|]. split; [simpl; lia|].
  destruct (batchArray_partitions [1; 2; 3; 4; 5] 2 6 ltac:(lia) ltac:(simpl; lia))
    as (batches & Hrun & Hcat & _).
  exists batches. split; [exact Hrun | exact Hcat].
Defined.

Lemma batchArray_never_returns_witness :
  0 ≤ 0 ∧ [1] ≠ @nil Z ∧ batchArray 1000 [1] 0 = None.
Proof.
  split; [lia|]. split; [discriminate|].
  exact (batchArray_never_returns [1] 0 1000 ltac:(lia) ltac:(discriminate)).
Defined.

Lemma truncate_fits_witness :
  3 ≤ 8 ∧ Z.of_nat (String.length (truncate "Hello, world" 8)) ≤ 8.
Proof.
  split; [lia|].
  exact (proj1 (truncate_fits "Hello, world" 8 ltac:(lia))).
Defined.

Lemma truncate_small_limit_witness :
  2 < 3 ∧ 2 < Z.of_nat (String.length "Hello") ∧ truncate "Hello" 2 = "...".
Proof.
  split; [lia|]. split; [simpl; lia|].
  exact (truncate_small_limit "Hello" 2 ltac:(lia) ltac:(simpl; lia)).
Defined.

Lemma third_time_lucky_fails_twice :
  ∀ j, (j < 2)%nat → ∃ error, third_time_lucky j = Rejected error.
Proof.
  intros [|[|j]] Hj; [by exists "boom"..|lia].
Defined.

(** Two failures, then 7: three calls, and waits of one and two seconds. *)
Lemma retryOperation_returns_first_success_witness :
  Z.of_nat 2 ≤ 3 ∧
  third_time_lucky 2 = Resolved 7 ∧
  retryOperation third_time_lucky 3 1000 = (inl 7, mkRetrying 3 [1000; 2000]).
Proof.
  split; [simpl; lia|]. split; [reflexivity|].
  exact (proj1 (retryOperation_returns_first_success third_time_lucky 3 1000 2 7
                  ltac:(simpl; lia) third_time_lucky_fails_twice eq_refl)).
Defined.

(** Four failed calls, and waits of one, two and four seconds. *)
Lemma retryOperation_throws_last_error_witness :
  0 ≤ 3 ∧
  always_down (Z.to_nat 3) = Rejected "down" ∧
  retryOperation always_down 3 1000
  = (inr (ThrownError "down"), mkRetrying 4 [1000; 2000; 4000]).
Proof.
  split; [lia|]. split; [reflexivity|].
  exact (proj1 (retryOperation_throws_last_error always_down 3 1000 "down"
                  ltac:(lia) (λ j _, ex_intro _ "down" eq_refl) eq_refl)).
Defined.

Lemma retryOperation_without_attempt_witness :
  -1 < 0 ∧
  retryOperation always_down (-1) 1000 = (inr ThrownUndefined, mkRetrying 0 []).
Proof.
  split; [lia|].
  exact (retryOperation_without_attempt always_down (-1) 1000 ltac:(lia)).
Defined.

(** One record in the collection. *)
Lemma allItems_single_page_witness :
  (length [p1] < 50)%nat ∧
  inFlowApiRequestAllItems 1 (watching "" (answering [p1]) five_past_ten)
    "GET" "/products" [] None None never_polled
  = (Resolved (Some [p1]),
     mkWorld emptyStatic [request_with "GET" "/products" [] [("count", QNum 50)]]).
Proof.
  split; [simpl; lia|].
  exact (allItems_single_page (watching "" (answering [p1]) five_past_ten)
           "GET" "/products" [] None 0 [p1] never_polled eq_refl
           ltac:(simpl; lia)).
Defined.

(** Fifty-one records in the collection. *)
Lemma allItems_two_pages_witness :
  length full_page = 50%nat ∧
  last full_page = Some (numbered 49) ∧
  entityId (numbered 49) ≠ "" ∧
  inFlowApiRequestAllItems 2 (watching "" two_pages five_past_ten)
    "GET" "/products" [] None None never_polled
  = (Resolved (Some (full_page ++ [p1])),
     mkWorld emptyStatic
       [ request_with "GET" "/products" [] [("count", QNum 50)];
         request_with "GET" "/products" []
           [("count", QNum 50); ("after", QStr "a")] ]).
Proof.
  split; [reflexivity|]. split; [reflexivity|]. split; [discriminate|].
  exact (allItems_two_pages (watching "" two_pages five_past_ten)
           "GET" "/products" [] None 0 full_page [p1] (numbered 49) never_polled
           eq_refl eq_refl eq_refl ltac:(discriminate) eq_refl ltac:(simpl; lia)).
Defined.

Lemma allItems_failure_loses_pages_witness :
  length full_page = 50%nat ∧
  ∃ w',
    inFlowApiRequestAllItems 2 (watching "" failing_after_first_page five_past_ten)
      "GET" "/products" [] None None never_polled
    = (Rejected "inFlow API Request Failed: ETIMEDOUT", w').
Proof.
  split; [reflexivity|].
  exact (allItems_failure_loses_pages
           (watching "" failing_after_first_page five_past_ten)
           "GET" "/products" [] None 0 full_page (numbered 49) "ETIMEDOUT"
           never_polled eq_refl eq_refl eq_refl ltac:(discriminate) eq_refl).
Defined.

Lemma answering_full_page_endless :
  endless (watching "" (answering full_page) five_past_ten).
Proof. intros r. by exists full_page. Defined.

Lemma allItems_never_returns_witness :
  endless (watching "" (answering full_page) five_past_ten) ∧
  (inFlowApiRequestAllItems 20 (watching "" (answering full_page) five_past_ten)
     "GET" "/products" [] None None never_polled).1
  = Resolved None.
Proof.
  split; [exact answering_full_page_endless|].
  exact (allItems_never_returns (watching "" (answering full_page) five_past_ten)
           "GET" "/products" [] None None 20 never_polled
           answering_full_page_endless eq_refl).
Defined.

(** A limit of 120 on a service that always has more: three requests at
    most. *)
Lemma allItems_respects_limit_witness :
  0 < 120 ∧ 120 ≤ 50 * Z.of_nat 3 ∧
  ∃ o requests,
    inFlowApiRequestAllItems 3 (watching "" (answering full_page) five_past_ten)
      "GET" "/products" [] None (Some 120) never_polled
    = (o, mkWorld emptyStatic requests) ∧
    Z.of_nat (length requests) * 50 < 120 + 50.
Proof.
  split; [lia|]. split; [simpl; lia|].
  destruct (allItems_respects_limit (watching "" (answering full_page) five_past_ten)
              "GET" "/products" [] None 120 3 never_polled
              ltac:(lia) ltac:(simpl; lia))
    as (o & requests & Hrun & Hcount & _).
  exists o, requests. split; [exact Hrun | exact Hcount].
Defined.

(** Of the three entries of a record, the two listed ones are kept. *)
Lemma simplifyResponse_idempotent_witness :
  (∀ field, field ∈ ["entityId"; "name"] → field ∉ Object_prototype) ∧
  simplifyResponse (OneRecord sample_record) (Some ["entityId"; "name"])
  = Some (OneRecord [("entityId", VStr "p-1"); ("name", VStr "Widget")]) ∧
  ∃ simplified,
    simplifyResponse (OneRecord sample_record) (Some ["entityId"; "name"])
    = Some simplified ∧
    simplifyResponse simplified (Some ["entityId"; "name"]) = Some simplified.
Proof.
  assert (Hplain : ∀ field, field ∈ ["entityId"; "name"] → field ∉ Object_prototype).
  { intros field Hin.
    repeat (apply elem_of_cons in Hin as [-> | Hin];
            [apply includes_false; reflexivity|]).
    by apply elem_of_nil in Hin. }
  split; [exact Hplain|]. split; [reflexivity|].
  destruct (proj1 (simplifyResponse_idempotent (OneRecord sample_record)
                     ["entityId"; "name"] Hplain) ltac:(discriminate))
    as (simplified & Hfirst & Hsecond & _).
  exists simplified. split; [exact Hfirst | exact Hsecond].
Defined.
